(** * StoryMapCore: the slide-to-map synchronisation engine

    A shallow embedding of [docs/SimpleStoryMapLibJS/storymap-core.js]
    (class [StoryMap]), of the language switch of
    [providers/multilingual-provider.js] and of the multilingual example
    application, together with the properties of the engine: the marker
    partition, the busy guard, the path segments, the button gating, the
    location validity test and the language switch. *)

From Stdlib Require Import ZArith List Bool String Ascii Lia Permutation.
From Stdlib Require Import DecimalString.
From Stdlib Require Import Floats.SpecFloat.
Import ListNotations.

#[local] Set Warnings "-register-all".

Open Scope string_scope.
Open Scope list_scope.
Open Scope Z_scope.

(* ===================================================================== *)
(** * JavaScript values                                                   *)
(* ===================================================================== *)

Module JS.

(** A JavaScript number is an IEEE 754 binary64 value. *)
Definition number := spec_float.

Definition prec : Z := 53.
Definition emax : Z := 1024.

(** The values a parsed JSON document is made of, and [undefined]. An
    object is the list of its own properties. *)
Inductive Value : Type :=
| VUndefined
| VNull
| VBool (b : bool)
| VNum (n : number)
| VStr (s : string)
| VArr (items : list Value)
| VObj (fields : list (string * Value)).

(** ToBoolean. *)
Definition truthy (v : Value) : bool :=
  match v with
  | VUndefined | VNull => false
  | VBool b => b
  | VNum (S754_zero _) | VNum S754_nan => false
  | VNum _ => true
  | VStr s => negb (String.eqb s "")
  | VArr _ | VObj _ => true
  end.

Fixpoint lookup (k : string) (fs : list (string * Value)) : Value :=
  match fs with
  | [] => VUndefined
  | (k', v) :: fs' => if String.eqb k k' then v else lookup k fs'
  end.

(** [v.k] for a receiver that is neither [null] nor [undefined] and a key
    that no prototype defines ([lat], [lon], [line]): only an object has
    it. *)
Definition get (v : Value) (k : string) : Value :=
  match v with
  | VObj fs => lookup k fs
  | _ => VUndefined
  end.

Definition is_null (v : Value) : bool :=
  match v with VNull => true | _ => false end.

Definition is_undefined (v : Value) : bool :=
  match v with VUndefined => true | _ => false end.

(** [v === true] *)
Definition is_true (v : Value) : bool :=
  match v with VBool true => true | _ => false end.

(** What [parseFloat] can return, as far as [isNaN] and finiteness see. *)
Inductive NumKind : Type :=
| KNaN
| KInfinite (negative : bool)
| KFinite.

Definition isNaN (k : NumKind) : bool :=
  match k with KNaN => true | _ => false end.

Definition isFinite (k : NumKind) : bool :=
  match k with KFinite => true | _ => false end.

Definition kind_of_number (n : number) : NumKind :=
  match n with
  | S754_nan => KNaN
  | S754_infinity s => KInfinite s
  | S754_zero _ | S754_finite _ _ _ => KFinite
  end.

(** ** parseFloat on strings

    The longest prefix of the trimmed string that is a StrDecimalLiteral:
    an optional sign, then [Infinity], or digits with an optional fraction
    and an optional exponent. *)

Definition is_ws (c : ascii) : bool :=
  let n := nat_of_ascii c in
  (Nat.eqb n 9 || Nat.eqb n 10 || Nat.eqb n 11 || Nat.eqb n 12
   || Nat.eqb n 13 || Nat.eqb n 32)%bool.

Fixpoint skip_ws (s : string) : string :=
  match s with
  | String c r => if is_ws c then skip_ws r else s
  | EmptyString => s
  end.

Definition digit_of (c : ascii) : option Z :=
  let n := nat_of_ascii c in
  if (Nat.leb 48 n && Nat.leb n 57)%bool then Some (Z.of_nat (n - 48)) else None.

(** Reads a run of digits: the number read so far, how many digits were
    read, and the rest of the string. *)
Fixpoint digits (s : string) (acc cnt : Z) : Z * Z * string :=
  match s with
  | String c r =>
      match digit_of c with
      | Some d => digits r (10 * acc + d) (cnt + 1)
      | None => (acc, cnt, s)
      end
  | EmptyString => (acc, cnt, s)
  end.

(** The exponent part [e] or [E], an optional sign and at least one digit;
    0 when there is none. *)
Definition exponent_part (s : string) : Z :=
  match s with
  | String c r =>
      if (Ascii.eqb c "e" || Ascii.eqb c "E")%bool then
        match r with
        | String sg r' =>
            if Ascii.eqb sg "-" then
              let '(e, n, _) := digits r' 0 0 in if 0 <? n then - e else 0
            else if Ascii.eqb sg "+" then
              let '(e, n, _) := digits r' 0 0 in if 0 <? n then e else 0
            else
              let '(e, n, _) := digits r 0 0 in if 0 <? n then e else 0
        | EmptyString => 0
        end
      else 0
  | EmptyString => 0
  end.

(** Every decimal of magnitude at least 2^1024 - 2^970 rounds to an
    infinity. *)
Definition overflow_threshold : Z := 2 ^ 1024 - 2 ^ 970.

(** The kind of [m * 10^e], for [0 <= m], once rounded to binary64. *)
Definition kind_of_decimal (negative : bool) (m e : Z) : NumKind :=
  if m =? 0 then KFinite
  else if 0 <=? e then
    if overflow_threshold <=? m * 10 ^ e then KInfinite negative else KFinite
  else
    if overflow_threshold * 10 ^ (- e) <=? m then KInfinite negative else KFinite.

Definition parse_unsigned (negative : bool) (s : string) : NumKind :=
  if String.prefix "Infinity" s then KInfinite negative
  else
    let '(ip, n1, r1) := digits s 0 0 in
    match r1 with
    | String "." r1' =>
        let '(m, n2, r2) := digits r1' ip 0 in
        if ((n1 =? 0) && (n2 =? 0))%bool then KNaN
        else kind_of_decimal negative m (exponent_part r2 - n2)
    | _ =>
        if n1 =? 0 then KNaN
        else kind_of_decimal negative ip (exponent_part r1)
    end.

Definition parseFloat_string (s : string) : NumKind :=
  match skip_ws s with
  | String "+" r => parse_unsigned false r
  | String "-" r => parse_unsigned true r
  | t => parse_unsigned false t
  end.

(** [parseFloat(v)] parses [ToString(v)]. A number prints to a string that
    reads back as the same number; [undefined], [null], booleans and plain
    objects print to text that starts no number. An array prints its
    items separated by commas, and a comma ends every numeric prefix, so
    the first item decides. *)
Fixpoint parseFloat (v : Value) : NumKind :=
  match v with
  | VStr s => parseFloat_string s
  | VNum n => kind_of_number n
  | VArr (x :: _) => parseFloat x
  | VArr [] => KNaN
  | VUndefined | VNull | VBool _ | VObj _ => KNaN
  end.

End JS.

(* ===================================================================== *)
(** * Geo utilities                                                       *)
(* ===================================================================== *)

Module Geo.
Import JS.

(** [isValidLocation(location)]: the value of the [&&] chain, which is the
    falsy [location] itself or the boolean the tests give. *)
Definition isValidLocation (location : Value) : Value :=
  if truthy location then
    VBool (negb (is_null (get location "lat"))
           && negb (is_undefined (get location "lat"))
           && negb (isNaN (parseFloat (get location "lat")))
           && negb (is_null (get location "lon"))
           && negb (is_undefined (get location "lon"))
           && negb (isNaN (parseFloat (get location "lon"))))
  else location.

(** The test as the conditions of the engine read it. *)
Definition valid (location : Value) : bool := truthy (isValidLocation location).

(** [DataValidators.isValidLocation] of the data providers: both
    coordinates are of type number and not NaN. *)
Definition is_number_not_nan (v : Value) : bool :=
  match v with
  | VNum n => negb (isNaN (kind_of_number n))
  | _ => false
  end.

Definition validator_isValidLocation (location : Value) : Value :=
  if truthy location then
    VBool (is_number_not_nan (get location "lat")
           && is_number_not_nan (get location "lon"))
  else location.

(** The reading of the specification: the location is present and both
    coordinates parse to finite numbers. *)
Definition present (v : Value) : bool :=
  negb (is_null v) && negb (is_undefined v).

Definition spec_valid (location : Value) : bool :=
  present location
  && isFinite (parseFloat (get location "lat"))
  && isFinite (parseFloat (get location "lon")).

Definition loc (lat lon : Value) : Value :=
  VObj [("lat", lat); ("lon", lon)].

End Geo.

(* ===================================================================== *)
(** * Methods: state and exceptions                                       *)
(* ===================================================================== *)

Module Eff.

(** The exceptions of the model: the built-in errors and [new Error(message)]. *)
Inductive Error : Type :=
| TypeError
| SyntaxError
| NetworkError
| PlainError (message : string).

(** A method runs on the state of its object and returns, or throws and
    leaves the state as it was when the exception was raised. *)
Inductive Outcome (S A : Type) : Type :=
| Ret (a : A) (s : S)
| Throw (e : Error) (s : S).
Arguments Ret {S A} a s.
Arguments Throw {S A} e s.

Definition M (S A : Type) : Type := S -> Outcome S A.

Definition ret {S A} (a : A) : M S A := fun s => Ret a s.

Definition bind {S A B} (c : M S A) (k : A -> M S B) : M S B :=
  fun s => match c s with
           | Ret a s' => k a s'
           | Throw e s' => Throw e s'
           end.

Definition throw {S A} (e : Error) : M S A := fun s => Throw e s.

Definition gets {S A} (f : S -> A) : M S A := fun s => Ret (f s) s.

Definition modify {S} (f : S -> S) : M S unit := fun s => Ret tt (f s).

Definition when {S} (b : bool) (c : M S unit) : M S unit :=
  if b then c else ret tt.

(** [try { c } catch (error) { h error }] *)
Definition try_catch {S A} (c : M S A) (h : Error -> M S A) : M S A :=
  fun s => match c s with
           | Ret a s' => Ret a s'
           | Throw e s' => h e s'
           end.

(** The state a call leaves behind, returned or thrown. *)
Definition after {S A} (o : Outcome S A) : S :=
  match o with Ret _ s => s | Throw _ s => s end.

Definition returns {S A} (o : Outcome S A) : bool :=
  match o with Ret _ _ => true | Throw _ _ => false end.

(** [runs c s Q]: from [s] the call [c] returns, with a result and a state
    that satisfy [Q]. *)
Definition runs {S A} (c : M S A) (s : S) (Q : A -> S -> Prop) : Prop :=
  match c s with
  | Ret a s' => Q a s'
  | Throw _ _ => False
  end.

Module Notations.
Notation "x <- c1 ;; c2" := (bind c1 (fun x => c2))
  (at level 61, c1 at next level, right associativity).
Notation "c1 ;; c2" := (bind c1 (fun _ => c2))
  (at level 61, right associativity).
End Notations.

End Eff.

(* ===================================================================== *)
(** * The engine: class StoryMap                                          *)
(* ===================================================================== *)

Module Core.
Import JS Geo Eff Eff.Notations.

(** ** Data *)

(** A slide object. The engine reads its location; text, media and
    background only reach the content panel. *)
Record Slide : Type := mkSlide {
  location : Value;
  headline : string
}.

Inductive Direction : Type := DNext | DPrev | DNone.

Definition is_none (d : Direction) : bool :=
  match d with DNone => true | _ => false end.

(** A point feature of a marker source. [coordinates] holds the longitude
    and the latitude of the slide, which the source passes through
    [parseFloat]. *)
Record Feature : Type := mkFeature {
  slideIndex : Z;
  isActive : bool;
  isClickable : bool;
  coordinates : Value * Value
}.

(** An entry of [this.lines]: the layer [line-<id>] and the slide the
    segment leads to. *)
Record Line : Type := mkLine {
  id : nat;
  targetSlideIndex : Z
}.

(** The value of the [line-color] paint property of a line layer:
    [config.styling.lineColor] or [config.styling.lineColorActive]. *)
Inductive Paint : Type := LineColor | LineColorActive.

(** The map rendering surface: the features of the two marker sources
    ([None] while [getSource] finds none), the line layers with their
    paint, the camera moves issued, and whether [load] has fired. *)
Record MapSurface : Type := mkMap {
  inactive_markers : option (list Feature);
  active_marker : option (list Feature);
  line_layers : list (nat * Paint);
  flights : list Z;
  loaded : bool
}.

(** The page: the class list of the content wrapper ([None] when the
    element is missing), the slide the panel shows, the slide the
    background was taken from, the [disabled] flag of each button, and the
    text of the progress element as the two numbers it prints. *)
Record Dom : Type := mkDom {
  content_wrapper : option (list string);
  shown : option Slide;
  story_content : option (option Slide);
  prev_btn : option bool;
  next_btn : option bool;
  restart_btn : option bool;
  progress : option (option (Z * Z))
}.

(** A pending [setTimeout] callback of [animateSlideTransition]: the outer
    one, which swaps the content, and the inner one, which ends the
    animation. *)
Inductive Timer : Type :=
| ExitDone (slide : Slide) (direction : Direction)
| EntranceDone (direction : Direction).

Record Features : Type := mkFeatures {
  animations : bool;
  keyboardNavigation : bool
}.

Record State : Type := mkState {
  features : Features;
  storyData : option (list Slide);
  currentSlideIndex : Z;
  isAnimating : bool;
  map : option MapSurface;
  lines : list Line;
  dom : Dom;
  timers : list Timer
}.

(** ** Field updates *)

Definition set_currentSlideIndex (i : Z) (s : State) : State :=
  mkState (features s) (storyData s) i (isAnimating s) (map s) (lines s)
          (dom s) (timers s).

Definition set_isAnimating (b : bool) (s : State) : State :=
  mkState (features s) (storyData s) (currentSlideIndex s) b (map s) (lines s)
          (dom s) (timers s).

Definition set_map (m : option MapSurface) (s : State) : State :=
  mkState (features s) (storyData s) (currentSlideIndex s) (isAnimating s) m
          (lines s) (dom s) (timers s).

Definition set_lines (l : list Line) (s : State) : State :=
  mkState (features s) (storyData s) (currentSlideIndex s) (isAnimating s)
          (map s) l (dom s) (timers s).

Definition set_dom (d : Dom) (s : State) : State :=
  mkState (features s) (storyData s) (currentSlideIndex s) (isAnimating s)
          (map s) (lines s) d (timers s).

Definition set_timers (t : list Timer) (s : State) : State :=
  mkState (features s) (storyData s) (currentSlideIndex s) (isAnimating s)
          (map s) (lines s) (dom s) t.

Definition set_inactive (fs : option (list Feature)) (m : MapSurface) : MapSurface :=
  mkMap fs (active_marker m) (line_layers m) (flights m) (loaded m).

Definition set_active (fs : option (list Feature)) (m : MapSurface) : MapSurface :=
  mkMap (inactive_markers m) fs (line_layers m) (flights m) (loaded m).

Definition set_line_layers (l : list (nat * Paint)) (m : MapSurface) : MapSurface :=
  mkMap (inactive_markers m) (active_marker m) l (flights m) (loaded m).

Definition set_flights (l : list Z) (m : MapSurface) : MapSurface :=
  mkMap (inactive_markers m) (active_marker m) (line_layers m) l (loaded m).

Definition set_loaded (b : bool) (m : MapSurface) : MapSurface :=
  mkMap (inactive_markers m) (active_marker m) (line_layers m) (flights m) b.

Definition set_content_wrapper (c : option (list string)) (d : Dom) : Dom :=
  mkDom c (shown d) (story_content d) (prev_btn d) (next_btn d)
        (restart_btn d) (progress d).

Definition set_shown (x : option Slide) (d : Dom) : Dom :=
  mkDom (content_wrapper d) x (story_content d) (prev_btn d) (next_btn d)
        (restart_btn d) (progress d).

Definition set_story_content (x : option (option Slide)) (d : Dom) : Dom :=
  mkDom (content_wrapper d) (shown d) x (prev_btn d) (next_btn d)
        (restart_btn d) (progress d).

Definition set_buttons (p n r : option bool) (d : Dom) : Dom :=
  mkDom (content_wrapper d) (shown d) (story_content d) p n r (progress d).

Definition set_progress (x : option (option (Z * Z))) (d : Dom) : Dom :=
  mkDom (content_wrapper d) (shown d) (story_content d) (prev_btn d)
        (next_btn d) (restart_btn d) x.

(** ** Methods of the object *)

Definition M (A : Type) : Type := Eff.M State A.

(** [this.map.<method>(...)] on a map that exists. *)
Definition on_map (f : MapSurface -> MapSurface) : M unit :=
  modify (fun s => match map s with
                   | Some m => set_map (Some (f m)) s
                   | None => s
                   end).

Definition on_dom (f : Dom -> Dom) : M unit :=
  modify (fun s => set_dom (f (dom s)) s).

(** ** Reading the story *)

(** [a[i]] on an array: [undefined] out of range. *)
Definition nth_slide (l : list Slide) (i : Z) : option Slide :=
  if i <? 0 then None else nth_error l (Z.to_nat i).

(** [this.storyData.length] *)
Definition storyData_length : M Z :=
  sd <- gets storyData ;;
  match sd with
  | Some l => ret (Z.of_nat (List.length l))
  | None => throw TypeError
  end.

(** [this.storyData[i]] *)
Definition storyData_at (i : Z) : M (option Slide) :=
  sd <- gets storyData ;;
  match sd with
  | Some l => ret (nth_slide l i)
  | None => throw TypeError
  end.

(** The first property read on what [this.storyData[i]] gave: a
    TypeError on [undefined]. *)
Definition deref (slide : option Slide) : M Slide :=
  match slide with
  | Some sl => ret sl
  | None => throw TypeError
  end.

(** [array.findIndex(p)]: [None] stands for -1. *)
Fixpoint findIndex {A} (p : A -> bool) (l : list A) : option nat :=
  match l with
  | [] => None
  | x :: r => if p x then Some O
              else match findIndex p r with
                   | Some k => Some (S k)
                   | None => None
                   end
  end.

(** [array.splice(k, 1)] *)
Fixpoint splice1 {A} (k : nat) (l : list A) : list A :=
  match l, k with
  | [], _ => []
  | _ :: r, O => r
  | x :: r, S k' => x :: splice1 k' r
  end.

(** [this.storyData.find(slide => this.isValidLocation(slide.location))],
    as the index of the slide found: the slides of a parsed document are
    distinct objects, so [indexOf] gives that index back. *)
Definition find_valid : M (option nat) :=
  sd <- gets storyData ;;
  match sd with
  | Some l => ret (findIndex (fun sl => valid (location sl)) l)
  | None => throw TypeError
  end.

(** ** Camera *)

Definition flyToSlide (i : Z) : M unit :=
  slide <- storyData_at i ;;
  m <- gets map ;;
  match slide, m with
  | Some sl, Some _ =>
      when (valid (location sl))
           (on_map (fun m => set_flights (i :: flights m) m))
  | _, _ => ret tt
  end.

(** ** Path segments *)

(** [map.addLayer] of a line layer with the inactive colour, and the entry
    pushed on [this.lines]. The great-circle geometry of the source is not
    part of the model. *)
Definition createLineSegment (index : nat) (currentSlide nextSlide : Slide) : M unit :=
  m <- gets map ;;
  match m with
  | None => ret tt
  | Some _ =>
      on_map (fun m => set_line_layers (line_layers m ++ [(index, LineColor)]) m) ;;
      modify (fun s => set_lines (lines s ++ [mkLine index (Z.of_nat index + 1)]) s)
  end.

(** The body of the [for] loop of [createAllLines], [n] iterations from
    index [i]. *)
Fixpoint createAllLines_from (n i : nat) : M unit :=
  match n with
  | O => ret tt
  | S n' =>
      currentSlide <- storyData_at (Z.of_nat i) ;;
      nextSlide <- storyData_at (Z.of_nat i + 1) ;;
      c <- deref currentSlide ;;
      (if truthy (location c) && is_true (get (location c) "line")
          && valid (location c)
       then
         nx <- deref nextSlide ;;
         when (valid (location nx)) (createLineSegment i c nx)
       else ret tt) ;;
      createAllLines_from n' (S i)
  end.

Definition createAllLines : M unit :=
  m <- gets map ;;
  sd <- gets storyData ;;
  match m, sd with
  | Some _, Some _ =>
      len <- storyData_length ;;
      createAllLines_from (Z.to_nat (len - 1)) O
  | _, _ => ret tt
  end.

(** [setPaintProperty(id, "line-color", p)]; a layer that does not exist
    is left alone. *)
Fixpoint setPaintProperty (i : nat) (p : Paint) (l : list (nat * Paint)) : list (nat * Paint) :=
  match l with
  | [] => []
  | (j, q) :: r =>
      if Nat.eqb i j then (j, p) :: setPaintProperty i p r
      else (j, q) :: setPaintProperty i p r
  end.

Definition paint_for (current : Z) (line : Line) : Paint :=
  if targetSlideIndex line =? current then LineColorActive else LineColor.

(** [this.lines.forEach(...)] of [updateLineColors] *)
Fixpoint paint_lines (current : Z) (ls : list Line) (layers : list (nat * Paint)) : list (nat * Paint) :=
  match ls with
  | [] => layers
  | line :: r =>
      paint_lines current r (setPaintProperty (id line) (paint_for current line) layers)
  end.

Definition updateLineColors : M unit :=
  m <- gets map ;;
  match m with
  | None => ret tt
  | Some _ =>
      cur <- gets currentSlideIndex ;;
      ls <- gets lines ;;
      on_map (fun m => set_line_layers (paint_lines cur ls (line_layers m)) m)
  end.

(** ** Markers *)

Definition with_isActive (b : bool) (f : Feature) : Feature :=
  mkFeature (slideIndex f) b (isClickable f) (coordinates f).

(** The features [createInactiveMarkers] collects, from index [i] on. *)
Fixpoint inactive_features (i : nat) (l : list Slide) : list Feature :=
  match l with
  | [] => []
  | sl :: r =>
      if valid (location sl) then
        mkFeature (Z.of_nat i) false true
                  (get (location sl) "lon", get (location sl) "lat")
        :: inactive_features (S i) r
      else inactive_features (S i) r
  end.

Definition createInactiveMarkers : M unit :=
  m <- gets map ;;
  sd <- gets storyData ;;
  match m, sd with
  | Some _, Some l => on_map (set_inactive (Some (inactive_features O l)))
  | _, _ => ret tt
  end.

Definition createActiveMarker : M unit :=
  m <- gets map ;;
  match m with
  | Some _ => on_map (set_active (Some []))
  | None => ret tt
  end.

Definition getPreviouslyActiveMarkerIndex : M (option Z) :=
  m <- gets map ;;
  match m with
  | None => ret None
  | Some m =>
      match active_marker m with
      | Some (f :: _) => ret (Some (slideIndex f))
      | _ => ret None
      end
  end.

Definition moveMarkerToInactive (index : Z) : M unit :=
  m <- gets map ;;
  match m with
  | None => ret tt
  | Some m =>
      match active_marker m with
      | None | Some [] => ret tt
      | Some (markerFeature :: _) =>
          on_map (fun m =>
            match inactive_markers m with
            | Some fs => set_inactive (Some (fs ++ [with_isActive false markerFeature])) m
            | None => m
            end) ;;
          on_map (set_active (Some []))
      end
  end.

Definition moveMarkerToActive (index : Z) : M unit :=
  m <- gets map ;;
  sd <- gets storyData ;;
  match m, sd with
  | Some m, Some _ =>
      match inactive_markers m with
      | None => ret tt
      | Some fs =>
          match findIndex (fun f => slideIndex f =? index) fs with
          | None => ret tt
          | Some markerIndex =>
              match nth_error fs markerIndex with
              | None => ret tt
              | Some markerFeature =>
                  on_map (fun m =>
                    match active_marker m with
                    | Some _ => set_active (Some [with_isActive true markerFeature]) m
                    | None => m
                    end) ;;
                  on_map (set_inactive (Some (splice1 markerIndex fs)))
              end
          end
      end
  | _, _ => ret tt
  end.

Definition differs (a : option Z) (b : Z) : bool :=
  match a with Some x => negb (x =? b) | None => true end.

Definition updateMarkerColors : M unit :=
  m <- gets map ;;
  match m with
  | None => ret tt
  | Some _ =>
      previousActiveIndex <- getPreviouslyActiveMarkerIndex ;;
      cur <- gets currentSlideIndex ;;
      match previousActiveIndex with
      | Some p => when (negb (p =? cur)) (moveMarkerToInactive p)
      | None => ret tt
      end ;;
      if differs previousActiveIndex cur then
        slide <- storyData_at cur ;;
        sl <- deref slide ;;
        when (valid (location sl)) (moveMarkerToActive cur)
      else ret tt
  end.

Definition createAllMarkers : M unit :=
  m <- gets map ;;
  sd <- gets storyData ;;
  match m, sd with
  | Some _, Some _ =>
      createInactiveMarkers ;;
      createActiveMarker ;;
      cur <- gets currentSlideIndex ;;
      slide <- storyData_at cur ;;
      sl <- deref slide ;;
      when (valid (location sl)) (moveMarkerToActive cur)
  | _, _ => ret tt
  end.

Definition updateMapElements : M unit :=
  m <- gets map ;;
  match m with
  | None => ret tt
  | Some _ => updateLineColors ;; updateMarkerColors
  end.

(** ** The slide update system *)

(** [classList.add] and [classList.remove] *)
Definition class_add (c : string) (l : list string) : list string :=
  if existsb (String.eqb c) l then l else l ++ [c].

Definition class_remove (c : string) (l : list string) : list string :=
  filter (fun x => negb (String.eqb c x)) l.

Definition outClass (d : Direction) : string :=
  match d with DNext => "slide-out-left" | _ => "slide-out-right" end.

Definition inClass (d : Direction) : string :=
  match d with DNext => "slide-in-right" | _ => "slide-in-left" end.

Definition on_classList (f : list string -> list string) : M unit :=
  on_dom (fun d => set_content_wrapper (option_map f (content_wrapper d)) d).

(** Headline, text and media of the panel are set from one slide. *)
Definition updateSlideContent (slide : Slide) : M unit :=
  on_dom (set_shown (Some slide)).

Definition setTimeout (t : Timer) : M unit :=
  modify (fun s => set_timers (timers s ++ [t]) s).

Definition animateSlideTransition (slide : Slide) (direction : Direction) : M unit :=
  modify (set_isAnimating true) ;;
  on_classList (class_add (outClass direction)) ;;
  setTimeout (ExitDone slide direction).

(** The two callbacks, each run 500 ms after it was scheduled. *)
Definition run_timer (t : Timer) : M unit :=
  match t with
  | ExitDone slide direction =>
      on_classList (class_remove (outClass direction)) ;;
      updateSlideContent slide ;;
      on_classList (class_add (inClass direction)) ;;
      setTimeout (EntranceDone direction)
  | EntranceDone direction =>
      on_classList (class_remove (inClass direction)) ;;
      modify (set_isAnimating false)
  end.

Definition updateContent (slide : Slide) (direction : Direction) : M unit :=
  d <- gets dom ;;
  match content_wrapper d with
  | None => ret tt
  | Some _ =>
      f <- gets features ;;
      busy <- gets isAnimating ;;
      if negb (is_none direction) && animations f && negb busy
      then animateSlideTransition slide direction
      else updateSlideContent slide
  end.

Definition updateProgress : M unit :=
  d <- gets dom ;;
  sd <- gets storyData ;;
  cur <- gets currentSlideIndex ;;
  match progress d, sd with
  | Some _, Some l =>
      on_dom (set_progress (Some (Some (cur + 1, Z.of_nat (List.length l)))))
  | _, _ => ret tt
  end.

(** [btn.disabled = v] on a button that exists. The class [disabled]
    follows the flag and is not kept apart. *)
Definition set_disabled (v : bool) (btn : option bool) : option bool :=
  match btn with Some _ => Some v | None => None end.

Definition updateButtonStates : M unit :=
  cur <- gets currentSlideIndex ;;
  let canGoBack := 0 <? cur in
  on_dom (fun d => set_buttons (set_disabled (negb canGoBack) (prev_btn d))
                               (next_btn d)
                               (set_disabled (negb canGoBack) (restart_btn d)) d) ;;
  len <- storyData_length ;;
  let canGoNext := cur <? len - 1 in
  on_dom (fun d => set_buttons (prev_btn d)
                               (set_disabled (negb canGoNext) (next_btn d))
                               (restart_btn d) d).

Definition updateBackground (slide : Slide) : M unit :=
  d <- gets dom ;;
  match story_content d with
  | None => ret tt
  | Some _ => on_dom (set_story_content (Some (Some slide)))
  end.

Definition updateSlide (direction : Direction) : M unit :=
  cur <- gets currentSlideIndex ;;
  slide <- storyData_at cur ;;
  match slide with
  | None => ret tt
  | Some sl =>
      updateContent sl direction ;;
      when (valid (location sl)) (flyToSlide cur) ;;
      updateProgress ;;
      updateButtonStates ;;
      updateBackground sl ;;
      updateMapElements
  end.

(** ** Navigation *)

Definition navigatePrevious : M unit :=
  cur <- gets currentSlideIndex ;;
  busy <- gets isAnimating ;;
  when ((0 <? cur) && negb busy)
       (modify (set_currentSlideIndex (cur - 1)) ;; updateSlide DPrev).

Definition navigateNext : M unit :=
  cur <- gets currentSlideIndex ;;
  len <- storyData_length ;;
  busy <- gets isAnimating ;;
  when ((cur <? len - 1) && negb busy)
       (modify (set_currentSlideIndex (cur + 1)) ;; updateSlide DNext).

Definition restart : M unit :=
  busy <- gets isAnimating ;;
  when (negb busy)
       (modify (set_currentSlideIndex 0) ;;
        firstValidSlide <- find_valid ;;
        match firstValidSlide with
        | Some k => flyToSlide (Z.of_nat k)
        | None => ret tt
        end ;;
        updateSlide DNone).

Definition navigateToSlide (targetIndex : Z) : M unit :=
  if 0 <=? targetIndex then
    len <- storyData_length ;;
    busy <- gets isAnimating ;;
    when ((targetIndex <? len) && negb busy)
         (modify (set_currentSlideIndex targetIndex) ;; updateSlide DNone)
  else ret tt.

Definition goToSlide (index : Z) : M unit := navigateToSlide index.
Definition next : M unit := navigateNext.
Definition previous : M unit := navigatePrevious.

(** ** Events *)

Inductive Key : Type := ArrowLeft | ArrowRight | OtherKey.

Inductive Layer : Type := InactiveMarkerCircles | ActiveMarkerCircle.

Inductive Event : Type :=
| MapLoad
| ClickPrev
| ClickNext
| ClickRestart
| KeyDown (key : Key)
| ClickMarker (layer : Layer) (clickedSlideIndex : Z)
| CallGoToSlide (index : Z)
| CallNext
| CallPrevious
| TimerFires.

(** The handler of [map.on('load', ...)]. *)
Definition on_load : M unit :=
  createAllLines ;;
  createAllMarkers ;;
  updateSlide DNone.

(** The click handler both marker layers register. *)
Definition on_marker_click (clickedSlideIndex : Z) : M unit :=
  cur <- gets currentSlideIndex ;;
  busy <- gets isAnimating ;;
  when (negb (clickedSlideIndex =? cur) && negb busy)
       (navigateToSlide clickedSlideIndex).

Definition layer_source (l : Layer) (m : MapSurface) : option (list Feature) :=
  match l with
  | InactiveMarkerCircles => inactive_markers m
  | ActiveMarkerCircle => active_marker m
  end.

(** What the page and the map deliver to the listeners the engine has
    registered: a button listener exists when the button does, the key
    listener when keyboard navigation is on, a layer listener once the
    layer was created; the map fires [load] once; the timers run in the
    order they were set. *)
Definition dispatch (e : Event) : M unit :=
  match e with
  | MapLoad =>
      m <- gets map ;;
      match m with
      | Some m => if loaded m then ret tt
                  else on_map (set_loaded true) ;; on_load
      | None => ret tt
      end
  | ClickPrev =>
      d <- gets dom ;;
      match prev_btn d with Some _ => navigatePrevious | None => ret tt end
  | ClickNext =>
      d <- gets dom ;;
      match next_btn d with Some _ => navigateNext | None => ret tt end
  | ClickRestart =>
      d <- gets dom ;;
      match restart_btn d with Some _ => restart | None => ret tt end
  | KeyDown key =>
      f <- gets features ;;
      if keyboardNavigation f then
        match key with
        | ArrowLeft => navigatePrevious
        | ArrowRight => navigateNext
        | OtherKey => ret tt
        end
      else ret tt
  | ClickMarker layer clicked =>
      m <- gets map ;;
      match m with
      | Some m =>
          match layer_source layer m with
          | Some _ => on_marker_click clicked
          | None => ret tt
          end
      | None => ret tt
      end
  | CallGoToSlide index => goToSlide index
  | CallNext => next
  | CallPrevious => previous
  | TimerFires =>
      ts <- gets timers ;;
      match ts with
      | [] => ret tt
      | t :: rest => modify (set_timers rest) ;; run_timer t
      end
  end.

(** ** Reachable states *)

Definition new_map : MapSurface := mkMap None None [] [] false.

(** The object once [initialize] has succeeded: the story is loaded, the
    map is created and has not fired [load] yet. *)
Definition started (f : Features) (slides : list Slide) (d : Dom) : State :=
  mkState f (Some slides) 0 false (Some new_map) [] d [].

(** [initializeMap] creates the map only when some slide has a valid
    location. *)
Definition has_valid_slide (slides : list Slide) : bool :=
  existsb (fun sl => valid (location sl)) slides.

Inductive reachable : State -> Prop :=
| reach_started f slides d :
    has_valid_slide slides = true -> reachable (started f slides d)
| reach_event s e :
    reachable s -> reachable (after (dispatch e s)).

Fixpoint run (es : list Event) (s : State) : State :=
  match es with
  | [] => s
  | e :: r => run r (after (dispatch e s))
  end.

(** ** The marker sets and the path segments of a state *)

Definition indices (fs : list Feature) : list Z := List.map slideIndex fs.

Definition source_indices (src : option (list Feature)) : list Z :=
  match src with Some fs => indices fs | None => [] end.

(** The slide indices of the active and of the inactive marker source. *)
Definition activeSet (s : State) : list Z :=
  match map s with Some m => source_indices (active_marker m) | None => [] end.

Definition inactiveSet (s : State) : list Z :=
  match map s with Some m => source_indices (inactive_markers m) | None => [] end.

(** Both marker sources exist: [createAllMarkers] has run. *)
Definition markers_created (s : State) : bool :=
  match map s with
  | Some m =>
      match inactive_markers m, active_marker m with
      | Some _, Some _ => true
      | _, _ => false
      end
  | None => false
  end.

(** Slide [i] exists and has a valid location. *)
Definition valid_at (sd : list Slide) (i : Z) : bool :=
  match nth_slide sd i with
  | Some sl => valid (location sl)
  | None => false
  end.

Definition slide_valid (s : State) (i : Z) : bool :=
  match storyData s with Some sd => valid_at sd i | None => false end.

Definition current_valid (s : State) : bool :=
  slide_valid s (currentSlideIndex s).

Definition story_length (s : State) : Z :=
  match storyData s with Some sd => Z.of_nat (List.length sd) | None => 0 end.

Definition valid_indices (sd : list Slide) : list Z :=
  indices (inactive_features O sd).

(** The pairs the specification gives a segment: slide [i] asks for a
    line and slides [i] and [i+1] both have valid locations. *)
Definition line_wanted (sd : list Slide) (i : nat) : bool :=
  match nth_error sd i, nth_error sd (S i) with
  | Some c, Some nx =>
      is_true (get (location c) "line") && valid (location c) && valid (location nx)
  | _, _ => false
  end.

Definition segment_sources (sd : list Slide) : list nat :=
  filter (line_wanted sd) (seq 0 (List.length sd - 1)).

Definition expected_lines (sd : list Slide) : list Line :=
  List.map (fun i => mkLine i (Z.of_nat i + 1)) (segment_sources sd).

(** The paint of the layer of segment [i], if the layer exists. *)
Fixpoint paint_of (i : nat) (l : list (nat * Paint)) : option Paint :=
  match l with
  | [] => None
  | (j, p) :: r => if Nat.eqb i j then Some p else paint_of i r
  end.

Definition layers_of (s : State) : list (nat * Paint) :=
  match map s with Some m => line_layers m | None => [] end.

(** ** Invariants *)

Definition active_ok (sd : list Slide) (cur : Z) (ac : list Feature) : Prop :=
  match ac with
  | [] => valid_at sd cur = false
  | [f] => slideIndex f = cur /\ valid_at sd cur = true
  | _ => False
  end.

Definition markers_pre (sd : list Slide) (m : MapSurface) : Prop :=
  exists ia ac,
    inactive_markers m = Some ia /\ active_marker m = Some ac /\
    Permutation (indices (ia ++ ac)) (valid_indices sd) /\
    (List.length ac <= 1)%nat.

Definition markers_ok (sd : list Slide) (cur : Z) (m : MapSurface) : Prop :=
  exists ia ac,
    inactive_markers m = Some ia /\ active_marker m = Some ac /\
    Permutation (indices (ia ++ ac)) (valid_indices sd) /\
    active_ok sd cur ac.

Definition lines_pre (sd : list Slide) (ls : list Line) (m : MapSurface) : Prop :=
  ls = expected_lines sd /\ List.map fst (line_layers m) = List.map id ls.

Definition lines_ok (sd : list Slide) (cur : Z) (ls : list Line) (m : MapSurface) : Prop :=
  ls = expected_lines sd /\
  line_layers m = List.map (fun l => (id l, paint_for cur l)) ls.

Definition unloaded (m : MapSurface) (ls : list Line) : Prop :=
  inactive_markers m = None /\ active_marker m = None /\
  ls = [] /\ line_layers m = [].

Definition buttons_synced (len cur : Z) (d : Dom) : Prop :=
  (forall b, prev_btn d = Some b -> b = (cur =? 0)) /\
  (forall b, restart_btn d = Some b -> b = (cur =? 0)) /\
  (forall b, next_btn d = Some b -> b = (cur =? len - 1)).

(** The gating of the controls as the specification words it: a button
    that exists is disabled exactly at its end of the story. *)
Definition gating (len cur : Z) (d : Dom) : Prop :=
  (forall b, prev_btn d = Some b -> (b = true <-> cur = 0)) /\
  (forall b, restart_btn d = Some b -> (b = true <-> cur = 0)) /\
  (forall b, next_btn d = Some b -> (b = true <-> cur = len - 1)).

(** What every reachable state satisfies. *)
Definition Inv (s : State) : Prop :=
  exists sd m,
    storyData s = Some sd /\ map s = Some m /\
    0 <= currentSlideIndex s < Z.of_nat (List.length sd) /\
    if loaded m then
      markers_ok sd (currentSlideIndex s) m /\
      lines_ok sd (currentSlideIndex s) (lines s) m /\
      buttons_synced (Z.of_nat (List.length sd)) (currentSlideIndex s) (dom s)
    else unloaded m (lines s).

(** What [updateSlide] needs once the index has moved. *)
Definition PreInv (s : State) : Prop :=
  exists sd m,
    storyData s = Some sd /\ map s = Some m /\
    0 <= currentSlideIndex s < Z.of_nat (List.length sd) /\
    if loaded m then markers_pre sd m /\ lines_pre sd (lines s) m
    else unloaded m (lines s).

(** How a call may touch the busy flag and the timers: not at all, or by
    starting the animation of a directional move. *)
Definition lock_effect (direction : Direction) (s s' : State) : Prop :=
  (isAnimating s' = isAnimating s /\ timers s' = timers s) \/
  (is_none direction = false /\ animations (features s) = true /\
   isAnimating s = false /\ isAnimating s' = true).

Definition buttons (d : Dom) : option bool * option bool * option bool :=
  (prev_btn d, next_btn d, restart_btn d).

(** Only the page, the busy flag and the timers differ, and the buttons
    are as they were. *)
Definition page_only (s s' : State) : Prop :=
  exists d' an ts,
    s' = mkState (features s) (storyData s) (currentSlideIndex s) an (map s)
                 (lines s) d' ts /\
    buttons d' = buttons (dom s).

(** The source indices [n] iterations of the loop of [createAllLines]
    add from index [i] on. *)
Definition new_lines (sd : list Slide) (i n : nat) : list nat :=
  filter (line_wanted sd) (seq i n).

(** The camera moves issued so far, the latest first. *)
Definition flights_of (s : State) : list Z :=
  match map s with Some m => flights m | None => [] end.

(** [load] has fired: lines and markers exist and a slide was rendered. *)
Definition map_loaded (s : State) : bool :=
  match map s with Some m => loaded m | None => false end.

(** The direction a request travels in. *)
Definition direction_of (e : Event) : Direction :=
  match e with
  | ClickPrev | KeyDown ArrowLeft | CallPrevious => DPrev
  | ClickNext | KeyDown ArrowRight | CallNext => DNext
  | _ => DNone
  end.

(** The navigation requests: everything but [load] and the timers. *)
Definition is_navigation (e : Event) : bool :=
  match e with
  | MapLoad | TimerFires => false
  | _ => true
  end.

(** The requests that carry no direction. *)
Definition is_jump (e : Event) : bool :=
  match e with
  | ClickRestart | ClickMarker _ _ | CallGoToSlide _ => true
  | _ => false
  end.

Definition step_ok (direction : Direction) (s s' : State) : Prop :=
  Inv s' /\ lock_effect direction s s' /\
  storyData s' = storyData s /\ features s' = features s.

(** A step that found the engine idle left it busy. *)
Definition acquires (s s' : State) : Prop :=
  isAnimating s = false /\ isAnimating s' = true.

Definition event_ok (e : Event) (s s' : State) : Prop :=
  Inv s' /\ storyData s' = storyData s /\ features s' = features s /\
  (acquires s s' ->
   is_none (direction_of e) = false /\ animations (features s) = true).

(** A call that leaves the busy flag and the timers alone, whether it
    returns or throws. *)
Definition quiet {A} (c : M A) : Prop :=
  forall s, isAnimating (after (c s)) = isAnimating s /\
            timers (after (c s)) = timers s.

(** [transitionTo(newIndex, previousIndex)] of the specification: the
    marker update of a move to [newIndex]; the previous index is the one
    [getPreviouslyActiveMarkerIndex] reads from the active source. *)
Definition transitionTo (newIndex : Z) : M unit :=
  modify (set_currentSlideIndex newIndex) ;; updateMarkerColors.

End Core.

(* ===================================================================== *)
(** * Language switch                                                     *)
(* ===================================================================== *)

(** [clamp(x, lo, hi)] as the specification uses it. *)
Definition clamp (x lo hi : Z) : Z := Z.max lo (Z.min x hi).

(** The index the specification gives after a switch from position [i]
    of [L] slides to a story of [L'] slides, in exact arithmetic. *)
Definition ratio_index (i L L' : Z) : Z := clamp (i * L' / L) 0 (L' - 1).

(** ** MultilingualDataProvider *)

Module Provider.
Import JS Core.

Record LangInfo : Type := mkLangInfo {
  name : string;
  title : option string
}.

(** [fullData]: the language table and, for each language code, the
    slides of [storymaps[code].storymap]. *)
Record FullData : Type := mkFullData {
  languages : list (string * LangInfo);
  storymaps : list (string * list Slide)
}.

Record State : Type := mkProvider {
  currentLanguage : string;
  fullData : option FullData;
  storyData : option (list Slide)
}.

Fixpoint assoc {A} (k : string) (l : list (string * A)) : option A :=
  match l with
  | [] => None
  | (k', v) :: r => if String.eqb k k' then Some v else assoc k r
  end.

(** [switchLanguage(newLanguage)]: the new state and the slides returned,
    [None] for [null]. Page title and button labels are not modelled. *)
Definition switchLanguage (newLanguage : string) (p : State)
  : State * option (list Slide) :=
  match fullData p with
  | None => (p, None)
  | Some fd =>
      match assoc newLanguage (languages fd), assoc newLanguage (storymaps fd) with
      | Some _, Some slides =>
          (mkProvider newLanguage (fullData p) (Some slides), Some slides)
      | _, _ => (p, None)
      end
  end.

(** [switchLanguageWithPosition(newLanguage, currentSlideIndex, options)] *)
Definition switchLanguageWithPosition (newLanguage : string)
           (currentSlideIndex : Z) (maintainSlidePosition : bool) (p : State)
  : State * option (list Slide * Z) :=
  match switchLanguage newLanguage p with
  | (p', None) => (p', None)
  | (p', Some newSlides) =>
      if negb maintainSlidePosition then (p', Some (newSlides, 0))
      else
        let len := Z.of_nat (List.length newSlides) in
        let targetSlideIndex := currentSlideIndex in
        let targetSlideIndex :=
          if len <=? currentSlideIndex then len - 1 else targetSlideIndex in
        let targetSlideIndex :=
          if targetSlideIndex <? 0 then 0 else targetSlideIndex in
        (p', Some (newSlides, targetSlideIndex))
  end.

(** Scenario C: ten slides in English, five in Spanish. *)
Definition en_es : FullData :=
  mkFullData
    [("en", mkLangInfo "English" None); ("es", mkLangInfo "Spanish" None)]
    [("en", repeat (mkSlide VUndefined "en") 10);
     ("es", repeat (mkSlide VUndefined "es") 5)].

Definition at_en : State :=
  mkProvider "en" (Some en_es) (Some (repeat (mkSlide VUndefined "en") 10)).

End Provider.

(** ** The multilingual example application *)

Module App.
Import JS Core.

Definition of_Z (z : Z) : number := binary_normalize prec emax z 0 false.

Definition div (x y : number) : number := SFdiv prec emax x y.
Definition mul (x y : number) : number := SFmul prec emax x y.

(** [Math.floor] *)
Definition Math_floor (x : number) : number :=
  match x with
  | S754_finite s m e =>
      let n := if s then Z.neg m else Z.pos m in
      of_Z (if 0 <=? e then n * 2 ^ e else n / 2 ^ (- e))
  | _ => x
  end.

(** [Math.min] of two numbers *)
Definition Math_min (x y : number) : number :=
  match SFcompare x y with
  | Some Lt => x
  | Some Gt => y
  | Some Eq => match x with S754_zero true => x | _ => y end
  | None => S754_nan
  end.

(** The integer a number stands for, when it is one. *)
Definition index_value (x : number) : option Z :=
  match x with
  | S754_zero _ => Some 0
  | S754_finite s m e =>
      let n := if s then Z.neg m else Z.pos m in
      if 0 <=? e then Some (n * 2 ^ e)
      else if n mod 2 ^ (- e) =? 0 then Some (n / 2 ^ (- e)) else None
  | _ => None
  end.

Record State : Type := mkApp {
  currentLanguage : string;
  storymaps : list (string * list Slide);
  storyData : list Slide;
  currentSlideIndex : number
}.

(** The index computed by [switchLanguage]. *)
Definition newSlideIndex (current : number) (oldLength newLength : Z) : number :=
  let currentSlideRatio := div current (of_Z oldLength) in
  Math_min (Math_floor (mul currentSlideRatio (of_Z newLength)))
           (of_Z (newLength - 1)).

(** [switchLanguage()] with the selector on [newLanguage]. The rebuild of
    lines and markers and the refresh of the slide are not modelled. *)
Definition switchLanguage (newLanguage : string) (a : State) : State :=
  if negb (String.eqb newLanguage (currentLanguage a)) then
    match Provider.assoc newLanguage (storymaps a) with
    | Some slides =>
        mkApp newLanguage (storymaps a) slides
              (newSlideIndex (currentSlideIndex a)
                             (Z.of_nat (List.length (storyData a)))
                             (Z.of_nat (List.length slides)))
    | None => a
    end
  else a.

(** The computed index is the exact one. *)
Definition agrees (i L L' : nat) : bool :=
  match index_value (newSlideIndex (of_Z (Z.of_nat i)) (Z.of_nat L) (Z.of_nat L')) with
  | Some v => v =? ratio_index (Z.of_nat i) (Z.of_nat L) (Z.of_nat L')
  | None => false
  end.

Definition agree_upto (N : nat) : bool :=
  forallb (fun L =>
    forallb (fun L' => forallb (fun i => agrees i L L') (seq 0 L)) (seq 1 N))
    (seq 1 N).

(** Scenario C in the application: index 4 of the English story. *)
Definition app_en : State :=
  mkApp "en"
    [("en", repeat (mkSlide VUndefined "en") 10);
     ("es", repeat (mkSlide VUndefined "es") 5)]
    (repeat (mkSlide VUndefined "en") 10) (of_Z 4).

End App.

(* ===================================================================== *)
(** * Initialisation                                                      *)
(* ===================================================================== *)

Module Init.
Import JS Geo Eff Eff.Notations.

(** What an awaited promise settles to. *)
Inductive Promise (A : Type) : Type :=
| Fulfilled (a : A)
| Rejected (e : Error).
Arguments Fulfilled {A} a.
Arguments Rejected {A} e.

(** The configuration as far as [initialize] reads it. The data loader is
    given by what its promise settles to. *)
Record Config : Type := mkConfig {
  jsonUrl : option string;
  dataLoader : option (Promise Value);
  mapInitializer : bool;
  mapProvider : option string
}.

(** The network: what [fetch(url)] settles to, and then [response.json()]. *)
Definition Fetch : Type := string -> Promise (Promise Value).

(** The object during [initialize]: the loaded value, the map (given by
    the slide it was centred on), whether the listeners are registered,
    and what was passed to [console.error]. *)
Record Instance : Type := mkInstance {
  config : Config;
  storyData : Value;
  map : option Value;
  listening : bool;
  console : list Error
}.

Definition fresh (c : Config) : Instance := mkInstance c VNull None false [].

Definition set_storyData (v : Value) (i : Instance) : Instance :=
  mkInstance (config i) v (map i) (listening i) (console i).

Definition set_map (m : option Value) (i : Instance) : Instance :=
  mkInstance (config i) (storyData i) m (listening i) (console i).

Definition set_listening (b : bool) (i : Instance) : Instance :=
  mkInstance (config i) (storyData i) (map i) b (console i).

Definition console_error (e : Error) : M Instance unit :=
  modify (fun i => mkInstance (config i) (storyData i) (map i) (listening i)
                              (console i ++ [e])).

Definition await {A} (p : Promise A) : M Instance A :=
  match p with
  | Fulfilled a => ret a
  | Rejected e => throw e
  end.

Definition nullish (v : Value) : bool := is_null v || is_undefined v.

(** [v.k], a TypeError on [null] and [undefined]. *)
Definition prop (v : Value) (k : string) : M Instance Value :=
  if nullish v then throw TypeError else ret (get v k).

(** [data.storymap?.slides || data.slides || data] *)
Definition select_slides (data : Value) : M Instance Value :=
  storymap <- prop data "storymap" ;;
  let a := if nullish storymap then VUndefined else get storymap "slides" in
  if truthy a then ret a
  else
    b <- prop data "slides" ;;
    if truthy b then ret b else ret data.

Definition no_data_source : Error :=
  PlainError "No data source provided. Please specify jsonUrl or dataLoader.".

Definition no_map_init : Error :=
  PlainError "No map initialization method provided.".

Definition given (o : option string) : bool :=
  match o with Some u => negb (String.eqb u "") | None => false end.

Definition loadStoryData (fetch : Fetch) : M Instance unit :=
  cfg <- gets config ;;
  match dataLoader cfg with
  | Some loader =>
      v <- await loader ;;
      modify (set_storyData v)
  | None =>
      match jsonUrl cfg with
      | Some url =>
          if given (Some url) then
            response <- await (fetch url) ;;
            data <- await response ;;
            slides <- select_slides data ;;
            modify (set_storyData slides)
          else throw no_data_source
      | None => throw no_data_source
      end
  end.

(** [array.find(slide => this.isValidLocation(slide.location))] *)
Fixpoint find_valid (items : list Value) : M Instance (option Value) :=
  match items with
  | [] => ret None
  | slide :: rest =>
      location <- prop slide "location" ;;
      if valid location then ret (Some slide) else find_valid rest
  end.

Definition initializeMap : M Instance unit :=
  sd <- gets storyData ;;
  firstValidSlide <- match sd with
                     | VArr items => find_valid items
                     | _ => throw TypeError
                     end ;;
  cfg <- gets config ;;
  match firstValidSlide with
  | Some slide =>
      if (mapInitializer cfg || given (mapProvider cfg))%bool
      then modify (set_map (Some slide))
      else throw no_map_init
  | None => throw no_map_init
  end.

Definition setupEventListeners : M Instance unit :=
  modify (set_listening true).

Definition initialize (fetch : Fetch) : M Instance unit :=
  try_catch
    (loadStoryData fetch ;;
     initializeMap ;;
     setupEventListeners)
    (fun error => console_error error).

(** What the promise of an async method settles to. *)
Definition settled {A} (o : Outcome Instance A) : Promise A :=
  match o with
  | Ret a _ => Fulfilled a
  | Throw e _ => Rejected e
  end.

(** A network that is down, a configuration without a data source and one
    with a URL. *)
Definition offline : Fetch := fun _ => Rejected NetworkError.

Definition no_source : Config := mkConfig None None true None.

Definition from_url : Config := mkConfig (Some "story.json") None true None.

End Init.


(* ===================================================================== *)
(** * Two small stories                                                   *)
(* ===================================================================== *)

Module Demo.
Import JS Geo Core.

Definition place (lat lon : string) (line : bool) (h : string) : Slide :=
  mkSlide (VObj [("lat", VStr lat); ("lon", VStr lon); ("line", VBool line)]) h.

Definition nowhere (h : string) : Slide := mkSlide VUndefined h.

Definition page : Dom :=
  mkDom (Some []) None (Some None) (Some false) (Some false) (Some false)
        (Some None).

Definition all_on : Features := mkFeatures true true.

(** Three slides with valid locations; the first asks for a line. *)
Definition storyA : list Slide :=
  [place "51.5" "-0.12" true "London";
   place "48.85" "2.35" false "Paris";
   place "41.9" "12.5" false "Rome"].

(** The second slide has no location. *)
Definition storyB : list Slide :=
  [place "51.5" "-0.12" true "London";
   nowhere "Interlude";
   place "41.9" "12.5" false "Rome"].

Definition startedA : State := started all_on storyA page.
Definition startedB : State := started all_on storyB page.

(** After [load], on the first slide. *)
Definition loadedA : State := run [MapLoad] startedA.
Definition loadedB : State := run [MapLoad] startedB.

(** A move to the second slide whose animation is in flight. *)
Definition movingA : State := run [MapLoad; ClickNext] startedA.

(** A marker state written out: slide 0 active, slides 1 and 2 inactive. *)
Definition marker (i : Z) (active : bool) : Feature :=
  mkFeature i active true (VStr "0", VStr "0").

Definition handmade_map : MapSurface :=
  mkMap (Some [marker 1 false; marker 2 false]) (Some [marker 0 true]) [] [] true.

Definition handmade : State :=
  mkState all_on (Some storyA) 0 false (Some handmade_map) [] page [].

End Demo.

(* ===================================================================== *)
(** * The engine seen from outside                                        *)
(* ===================================================================== *)

Module View.
Import JS Geo Eff Eff.Notations Core.

(** [getCurrentSlide()] and [getTotalSlides()] *)
Definition getCurrentSlide (s : State) : Z := currentSlideIndex s.

Definition getTotalSlides (s : State) : Z :=
  match storyData s with
  | Some sd => Z.of_nat (List.length sd)
  | None => 0
  end.

(** [this.storyData[this.currentSlideIndex]] *)
Definition current_slide (s : State) : option Slide :=
  match storyData s with
  | Some sd => nth_slide sd (currentSlideIndex s)
  | None => None
  end.

(** A call that leaves a view of the state alone, whether it returns or
    throws. *)
Definition frames {V A} (v : State -> V) (c : M A) : Prop :=
  forall s, v (after (c s)) = v s.

(** What the engine never writes after construction, and what only the
    navigation writes. *)
Definition base (s : State) : option (list Slide) * Z * Features * bool :=
  (storyData s, currentSlideIndex s, features s, map_loaded s).

(** The content panel and the animation. *)
Definition panel (s : State)
  : option (list string) * option Slide * bool * list Timer :=
  (content_wrapper (dom s), shown (dom s), isAnimating s, timers s).

Definition progress_of (s : State) : option (option (Z * Z)) :=
  progress (dom s).

(** The busy flag is set exactly while one callback of the animation is
    pending. *)
Definition lock_ok (s : State) : Prop :=
  match timers s with
  | [] => isAnimating s = false
  | [_] => isAnimating s = true
  | _ => False
  end.

(** The panel and the pending callback agree with the current slide. *)
Definition panel_ok (s : State) : Prop :=
  match timers s with
  | [] =>
      isAnimating s = false /\
      (map_loaded s = true -> content_wrapper (dom s) <> None ->
       shown (dom s) = current_slide s)
  | [ExitDone sl _] => isAnimating s = true /\ current_slide s = Some sl
  | [EntranceDone _] => isAnimating s = true /\ shown (dom s) = current_slide s
  | _ => False
  end.

(** The progress element, when the page has one, prints the position of
    the current slide. *)
Definition progress_ok (s : State) : Prop :=
  forall x, progress_of s = Some x ->
            x = Some (getCurrentSlide s + 1, getTotalSlides s).

(** The last steps of [updateSlide] (buttons, background, map elements)
    leave the story, the panel, the camera and the progress text alone. *)
Definition tail_view (s : State) := (base s, panel s, flights_of s, progress_of s).

(** The content step: the animation of a directional move starts, or the
    panel is set at once; without a content wrapper nothing happens. *)
Definition content_step (sl : Slide) (d : Direction) (s s1 : State) : Prop :=
  base s1 = base s /\ map s1 = map s /\ lines s1 = lines s /\
  progress_of s1 = progress_of s /\
  match content_wrapper (dom s) with
  | None => panel s1 = panel s
  | Some _ =>
      content_wrapper (dom s1) <> None /\
      if negb (is_none d) && animations (features s) && negb (isAnimating s)
      then isAnimating s1 = true /\ timers s1 = timers s ++ [ExitDone sl d] /\
           shown (dom s1) = shown (dom s)
      else isAnimating s1 = isAnimating s /\ timers s1 = timers s /\
           shown (dom s1) = Some sl
  end.

Definition same_page (s s1 : State) : Prop :=
  features s1 = features s /\ storyData s1 = storyData s /\
  isAnimating s1 = isAnimating s /\ dom s1 = dom s /\ timers s1 = timers s.

(** A request is dropped, or it moves the index and renders: the [load]
    handler renders the slide the index stands on. *)
Definition renders (e : Event) (s s1 : State) : Prop :=
  PreInv s1 /\ dispatch e s = updateSlide (direction_of e) s1 /\
  same_page s s1 /\
  match e with
  | MapLoad =>
      currentSlideIndex s1 = currentSlideIndex s /\
      map_loaded s = false /\ map_loaded s1 = true
  | _ => isAnimating s = false /\ map_loaded s1 = map_loaded s
  end.

Definition repaint (current : Z) (j : nat) (q : Paint) (line : Line) : Paint :=
  if Nat.eqb (id line) j then paint_for current line else q.

(** A story whose first slide has no location, after a jump to its last
    slide. *)
Definition tour : list Slide :=
  [Demo.nowhere "Prologue";
   Demo.place "48.85" "2.35" true "Paris";
   Demo.place "41.9" "12.5" false "Rome"].

Definition at_rome : State :=
  run [MapLoad; CallGoToSlide 2] (started Demo.all_on tour Demo.page).

End View.

(* ===================================================================== *)
(** * The content panel                                                   *)
(* ===================================================================== *)

(** The content side of [storymap-core.js] on slides as the parsed story
    has them: headline, text, media and background of the panel, and the
    animation that swaps them. *)

Module Panel.
Import JS Eff Eff.Notations.

(** ** String methods *)

(** [s.includes(pat)] *)
Fixpoint includes (pat s : string) : bool :=
  (String.prefix pat s
   || match s with
      | String _ r => includes pat r
      | EmptyString => false
      end)%bool.

Fixpoint drop (n : nat) (s : string) : string :=
  match n, s with
  | O, _ => s
  | S n', String _ r => drop n' r
  | S _, EmptyString => EmptyString
  end.

(** [s.replace(pat, rep)] with a string pattern and a replacement that
    holds no dollar sign: the first occurrence is replaced. *)
Fixpoint replace (pat rep s : string) : string :=
  if String.prefix pat s then rep ++ drop (String.length pat) s
  else match s with
       | String c r => String c (replace pat rep r)
       | EmptyString => EmptyString
       end.

(** [s.endsWith(suf)] *)
Fixpoint endsWith (suf s : string) : bool :=
  (String.eqb suf s
   || match s with
      | String _ r => endsWith suf r
      | EmptyString => false
      end)%bool.

(** The case folding of a regular expression with the flag [i], on the
    letters of ASCII. *)
Definition fold_case (c : ascii) : ascii :=
  let n := nat_of_ascii c in
  if (Nat.leb 65 n && Nat.leb n 90)%bool then ascii_of_nat (n + 32) else c.

Fixpoint lowercase (s : string) : string :=
  match s with
  | String c r => String (fold_case c) (lowercase r)
  | EmptyString => EmptyString
  end.

(** [url.match(/\.(jpg|jpeg|png|gif)$/i)] finds a match. *)
Definition image_pattern (url : string) : bool :=
  let u := lowercase url in
  (endsWith ".jpg" u || endsWith ".jpeg" u || endsWith ".png" u
   || endsWith ".gif" u)%bool.

(** ** The page *)

(** The children of the media container. [alt] and [textContent] hold the
    value assigned. *)
Inductive Element : Type :=
| Iframe (src : string)
| Img (src : string) (alt : Value)
| MediaCaption (textContent : Value).

(** The opacity of the overlay: the number 1 or [v / 100]. *)
Inductive Opacity : Type :=
| Opaque
| Percent (v : Value).

(** The element of class [story-bg-image-overlay]: the URL of its
    background image if one was set, whether [display] is [block], and its
    opacity. *)
Record Overlay : Type := mkOverlay {
  image : option Value;
  display_block : bool;
  opacity : Opacity
}.

(** The element [story-content]: the values assigned to its
    [backgroundImage] and [backgroundColor], and its overlay. *)
Record StoryContent : Type := mkStoryContent {
  backgroundImage : Value;
  backgroundColor : Value;
  overlay : option Overlay
}.

(** The element [content-wrapper]: its class list, and whether it was
    raised above the overlay ([position: relative], [z-index: 1]). *)
Record Wrapper : Type := mkWrapper {
  classList : list string;
  raised : bool
}.

Inductive Timer : Type :=
| ExitDone (slide : Value) (direction : Core.Direction)
| EntranceDone (direction : Core.Direction).

(** The elements the content side reads by id, each [None] when the page
    has no such element, with the flags of the engine it uses. *)
Record Page : Type := mkPage {
  headline : option Value;
  text : option Value;
  media : option (list Element);
  story_content : option StoryContent;
  content_wrapper : option Wrapper;
  animations : bool;
  isAnimating : bool;
  timers : list Timer
}.

Definition M (A : Type) : Type := Eff.M Page A.

Definition set_headline (x : option Value) (p : Page) : Page :=
  mkPage x (text p) (media p) (story_content p) (content_wrapper p)
         (animations p) (isAnimating p) (timers p).

Definition set_text (x : option Value) (p : Page) : Page :=
  mkPage (headline p) x (media p) (story_content p) (content_wrapper p)
         (animations p) (isAnimating p) (timers p).

Definition set_media (x : option (list Element)) (p : Page) : Page :=
  mkPage (headline p) (text p) x (story_content p) (content_wrapper p)
         (animations p) (isAnimating p) (timers p).

Definition set_story_content (x : option StoryContent) (p : Page) : Page :=
  mkPage (headline p) (text p) (media p) x (content_wrapper p)
         (animations p) (isAnimating p) (timers p).

Definition set_content_wrapper (x : option Wrapper) (p : Page) : Page :=
  mkPage (headline p) (text p) (media p) (story_content p) x
         (animations p) (isAnimating p) (timers p).

Definition set_isAnimating (b : bool) (p : Page) : Page :=
  mkPage (headline p) (text p) (media p) (story_content p) (content_wrapper p)
         (animations p) b (timers p).

Definition set_timers (t : list Timer) (p : Page) : Page :=
  mkPage (headline p) (text p) (media p) (story_content p) (content_wrapper p)
         (animations p) (isAnimating p) t.

(** ** Reading a slide *)

Definition nullish (v : Value) : bool := (is_null v || is_undefined v)%bool.

(** [v?.k] *)
Definition opt (v : Value) (k : string) : Value :=
  if nullish v then VUndefined else get v k.

(** [a || b] *)
Definition or_else (a b : Value) : Value := if truthy a then a else b.

(** ** Media *)

(** [container.appendChild(e)] on the media container. *)
Definition appendChild (e : Element) : M unit :=
  modify (fun p => set_media (option_map (fun l => l ++ [e]) (media p)) p).

Definition append_caption (caption : Value) : M unit :=
  when (truthy caption) (appendChild (MediaCaption caption)).

Definition embedYouTube (url : string) (caption : Value) : M unit :=
  appendChild (Iframe (replace "watch?v=" "embed/" url)) ;;
  append_caption caption.

Definition embedImage (url : string) (caption : Value) : M unit :=
  appendChild (Img url (or_else caption (VStr ""))) ;;
  append_caption caption.

(** [v.k], a TypeError on [null] and [undefined]. *)
Definition prop (v : Value) (k : string) : M Value :=
  if nullish v then throw TypeError else ret (get v k).

(** [updateMedia(slide)]. On a URL that is not a string, [includes] or
    [match] is no function (an array has [includes] and lacks [replace]
    and [match]), and the call is a TypeError. *)
Definition updateMedia (slide : Value) : M unit :=
  mediaContainer <- gets media ;;
  match mediaContainer with
  | None => ret tt
  | Some _ =>
      modify (set_media (Some [])) ;;
      media <- prop slide "media" ;;
      let url := opt media "url" in
      if truthy url then
        match url with
        | VStr u =>
            if includes "youtube.com" u
            then embedYouTube u (get media "caption")
            else if image_pattern u
            then embedImage u (get media "caption")
            else ret tt
        | _ => throw TypeError
        end
      else ret tt
  end.

Definition updateSlideContent (slide : Value) : M unit :=
  headline <- gets headline ;;
  match headline with
  | Some _ =>
      text <- prop slide "text" ;;
      modify (set_headline (Some (or_else (opt text "headline") (VStr ""))))
  | None => ret tt
  end ;;
  text <- gets text ;;
  match text with
  | Some _ =>
      t <- prop slide "text" ;;
      modify (set_text (Some (or_else (opt t "text") (VStr ""))))
  | None => ret tt
  end ;;
  updateMedia slide.

(** ** Background *)

(** The overlay as [setBackgroundImage] creates it. *)
Definition new_overlay : Overlay := mkOverlay None false Opaque.

Definition setBackgroundImage (background : Value) : M unit :=
  modify (fun p =>
    match story_content p with
    | Some c =>
        let overlay :=
          match overlay c with Some o => o | None => new_overlay end in
        let opacity :=
          if is_undefined (get background "opacity") then Opaque
          else Percent (get background "opacity") in
        set_story_content
          (Some (mkStoryContent (backgroundImage c) (backgroundColor c)
                   (Some (mkOverlay (Some (get background "url")) true opacity))))
          p
    | None => p
    end) ;;
  modify (fun p =>
    match content_wrapper p with
    | Some w => set_content_wrapper (Some (mkWrapper (classList w) true)) p
    | None => p
    end).

Definition updateBackground (slide : Value) : M unit :=
  storyContent <- gets story_content ;;
  match storyContent with
  | None => ret tt
  | Some c =>
      modify (set_story_content
                (Some (mkStoryContent (VStr "") (VStr "") (overlay c)))) ;;
      background <- prop slide "background" ;;
      if truthy background then
        when (truthy (get background "color"))
             (modify (fun p =>
                match story_content p with
                | Some c =>
                    set_story_content
                      (Some (mkStoryContent (backgroundImage c)
                               (get background "color") (overlay c))) p
                | None => p
                end)) ;;
        when (truthy (get background "url")) (setBackgroundImage background)
      else ret tt
  end.

(** ** The animation *)

Definition on_classList (f : list string -> list string) : M unit :=
  modify (fun p =>
    match content_wrapper p with
    | Some w => set_content_wrapper (Some (mkWrapper (f (classList w)) (raised w))) p
    | None => p
    end).

Definition setTimeout (t : Timer) : M unit :=
  modify (fun p => set_timers (timers p ++ [t]) p).

Definition animateSlideTransition (slide : Value) (direction : Core.Direction)
  : M unit :=
  modify (set_isAnimating true) ;;
  on_classList (Core.class_add (Core.outClass direction)) ;;
  setTimeout (ExitDone slide direction).

Definition run_timer (t : Timer) : M unit :=
  match t with
  | ExitDone slide direction =>
      on_classList (Core.class_remove (Core.outClass direction)) ;;
      updateSlideContent slide ;;
      on_classList (Core.class_add (Core.inClass direction)) ;;
      setTimeout (EntranceDone direction)
  | EntranceDone direction =>
      on_classList (Core.class_remove (Core.inClass direction)) ;;
      modify (set_isAnimating false)
  end.

Definition updateContent (slide : Value) (direction : Core.Direction) : M unit :=
  contentWrapper <- gets content_wrapper ;;
  match contentWrapper with
  | None => ret tt
  | Some _ =>
      enabled <- gets animations ;;
      busy <- gets isAnimating ;;
      if (negb (Core.is_none direction) && enabled && negb busy)%bool
      then animateSlideTransition slide direction
      else updateSlideContent slide
  end.

(** The page runs the callback that was set first; what the callback
    throws is reported and goes no further. *)
Definition fire : M unit :=
  ts <- gets timers ;;
  match ts with
  | [] => ret tt
  | t :: rest =>
      modify (set_timers rest) ;;
      try_catch (run_timer t) (fun _ => ret tt)
  end.

(** The media URL of a slide is absent, falsy or a string. *)
Definition media_url (slide : Value) : Value := opt (get slide "media") "url".

Definition is_string (v : Value) : bool :=
  match v with VStr _ => true | _ => false end.

Definition well_formed_media (slide : Value) : bool :=
  (negb (truthy (media_url slide)) || is_string (media_url slide))%bool.

(** Headline and text of the panel, once set from a slide. *)
Definition titled (slide : Value) (p : Page) : Page :=
  let p1 := match headline p with
            | Some _ =>
                set_headline
                  (Some (or_else (opt (get slide "text") "headline") (VStr ""))) p
            | None => p
            end in
  match text p1 with
  | Some _ => set_text (Some (or_else (opt (get slide "text") "text") (VStr ""))) p1
  | None => p1
  end.

(** At most one media element, then at most one caption. *)
Definition media_shape (els : list Element) : bool :=
  match els with
  | [] | [Iframe _] | [Img _ _]
  | [Iframe _; MediaCaption _] | [Img _ _; MediaCaption _] => true
  | _ => false
  end.

(** A slide with a picture and a caption, one whose media URL is a
    number, and a page with every element. *)
Definition postcard : Value :=
  VObj [("text", VObj [("headline", VStr "Rome"); ("text", VStr "The end.")]);
        ("media", VObj [("url", VStr "rome.JPG"); ("caption", VStr "Forum")]);
        ("background", VObj [("color", VStr "#222"); ("url", VStr "sky.png");
                             ("opacity", VNum (S754_finite false 40 0))])].

Definition plain : Value :=
  VObj [("text", VObj [("headline", VStr "Interlude")])].

Definition snapshot : Value :=
  VObj [("media", VObj [("url", VStr "rome.jpg"); ("caption", VStr "Forum")])].

Definition broken : Value :=
  VObj [("text", VObj [("headline", VStr "Oops")]);
        ("media", VObj [("url", VNum (S754_finite false 7 0))])].

Definition full_page : Page :=
  mkPage (Some (VStr "")) (Some (VStr "")) (Some [])
         (Some (mkStoryContent (VStr "") (VStr "") None))
         (Some (mkWrapper [] false)) true false [].

End Panel.

(* ===================================================================== *)
(** * Data validators and transformers                                    *)
(* ===================================================================== *)

(** [DataValidators] and [DataTransformers.filterSlides] of
    [providers/data-providers.js]. *)

Module Validators.
Import JS Geo.

(** [DataValidators.isValidMediaUrl(url)] *)
Definition isValidMediaUrl (url : Value) : bool :=
  match url with
  | VStr u =>
      if (Panel.includes "youtube.com" u || Panel.includes "youtu.be" u)%bool
      then true
      else
        let l := Panel.lowercase u in
        if (Panel.endsWith ".jpg" l || Panel.endsWith ".jpeg" l
            || Panel.endsWith ".png" l || Panel.endsWith ".gif" l
            || Panel.endsWith ".webp" l)%bool
        then true
        else if (Panel.endsWith ".mp4" l || Panel.endsWith ".webm" l
                 || Panel.endsWith ".ogg" l)%bool
        then true
        else false
  | _ => false
  end.

(** The messages of the validators, by what they report and the index of
    the slide they print. *)
Inductive Problem : Type :=
| NotAnArray
| EmptyStory
| NullSlide (index : nat)
| MissingHeadline (index : nat)
| InvalidLocation (index : nat)
| InvalidMediaUrl (index : nat).

(** [DataValidators.validateSlide(slide, index)] *)
Definition validateSlide (slide : Value) (index : nat) : list Problem :=
  if negb (truthy slide) then [NullSlide index]
  else
    (if (negb (truthy (get slide "text"))
         || negb (truthy (get (get slide "text") "headline")))%bool
     then [MissingHeadline index] else [])
    ++ (if truthy (get slide "location")
        then if negb (truthy (validator_isValidLocation (get slide "location")))
             then [InvalidLocation index] else []
        else [])
    ++ (if (truthy (get slide "media")
            && truthy (get (get slide "media") "url"))%bool
        then if negb (isValidMediaUrl (get (get slide "media") "url"))
             then [InvalidMediaUrl index] else []
        else []).

(** [data.forEach((slide, index) => errors.push(...validateSlide(slide, index)))] *)
Fixpoint validate_from (index : nat) (items : list Value) : list Problem :=
  match items with
  | [] => []
  | slide :: rest => validateSlide slide index ++ validate_from (S index) rest
  end.

(** [DataValidators.validateStoryData(data)] *)
Definition validateStoryData (data : Value) : list Problem :=
  match data with
  | VArr [] => [EmptyStory]
  | VArr items => validate_from O items
  | _ => [NotAnArray]
  end.

(** The criteria of [filterSlides]; the custom filter is given by the
    truth value of what it returns. *)
Record Criteria : Type := mkCriteria {
  validLocationsOnly : bool;
  withMediaOnly : bool;
  customFilter : option (Value -> bool)
}.

(** The callback of [slides.filter]: [None] stands for the TypeError of a
    property read on [null] or [undefined]. *)
Definition keeps (criteria : Criteria) (slide : Value) : option bool :=
  let nullish := (is_null slide || is_undefined slide)%bool in
  if (validLocationsOnly criteria && nullish)%bool then None
  else if (validLocationsOnly criteria
           && negb (truthy (validator_isValidLocation (get slide "location"))))%bool
  then Some false
  else if (withMediaOnly criteria && nullish)%bool then None
  else if (withMediaOnly criteria
           && (negb (truthy (get slide "media"))
               || negb (truthy (get (get slide "media") "url"))))%bool
  then Some false
  else match customFilter criteria with
       | Some f => Some (f slide)
       | None => Some true
       end.

(** [DataTransformers.filterSlides(slides, criteria)] on an array. *)
Fixpoint filterSlides (slides : list Value) (criteria : Criteria)
  : option (list Value) :=
  match slides with
  | [] => Some []
  | slide :: rest =>
      match keeps criteria slide with
      | None => None
      | Some keep =>
          match filterSlides rest criteria with
          | None => None
          | Some out => Some (if keep then slide :: out else out)
          end
      end
  end.

(** A slide that validates, and one with a misspelt coordinate. *)
Definition located : Value :=
  VObj [("text", VObj [("headline", VStr "Rome")]);
        ("location", VObj [("lat", VNum (S754_finite false 42 0));
                           ("lon", VNum (S754_finite false 12 0))]);
        ("media", VObj [("url", VStr "https://youtu.be/abc")])].

Definition unlocated : Value :=
  VObj [("text", VObj [("headline", VStr "Interlude")])].

End Validators.

(* ===================================================================== *)
(** * Data providers                                                      *)
(* ===================================================================== *)

(** [DataProviders.simple] of [providers/data-providers.js] and the class
    [MultilingualDataProvider] of [providers/multilingual-provider.js] on
    the parsed document. *)

Module Loader.
Import JS Eff Eff.Notations.
Import Init (Promise, Fulfilled, Rejected).

(** What [fetch] resolves to: the flag [ok], the status as it prints, and
    what [response.json()] settles to. *)
Record Response : Type := mkResponse {
  ok : bool;
  status : string;
  json : Promise Value
}.

Definition Fetch : Type := string -> Promise Response.

Definition await {S A} (p : Promise A) : Eff.M S A :=
  match p with
  | Fulfilled a => ret a
  | Rejected e => throw e
  end.

Definition nullish (v : Value) : bool := (is_null v || is_undefined v)%bool.

(** [v.k] and [v[k]], a TypeError on [null] and [undefined]; [k] names no
    property of a prototype. *)
Definition prop {S} (v : Value) (k : string) : Eff.M S Value :=
  if nullish v then throw TypeError else ret (get v k).

Definition failed_to_load (url status : string) : Error :=
  PlainError ("Failed to load " ++ url ++ ": " ++ status).

Definition invalid_structure : Error :=
  PlainError "Invalid JSON structure. Expected slides array or storymap.slides.".

(** [DataProviders.simple(config)] *)
Definition simple {S} (fetch : Fetch) (jsonUrl : string) : Eff.M S Value :=
  response <- await (fetch jsonUrl) ;;
  if negb (ok response) then throw (failed_to_load jsonUrl (status response))
  else
    data <- await (json response) ;;
    storymap <- prop data "storymap" ;;
    if (truthy storymap && truthy (get storymap "slides"))%bool
    then ret (get storymap "slides")
    else if truthy (get data "slides") then ret (get data "slides")
    else match data with
         | VArr _ => ret data
         | _ => throw invalid_structure
         end.

(** The network as the engine reads it: the body of whatever response
    arrives. *)
Definition body_of (fetch : Fetch) : Init.Fetch :=
  fun url =>
    match fetch url with
    | Fulfilled response => Fulfilled (json response)
    | Rejected e => Rejected e
    end.

(** ** MultilingualDataProvider *)

(** The provider, the title of the document, the text of the three
    buttons ([None] for a button the page lacks), and what was passed to
    [console.warn] (the language named) and to [console.error]. *)
Record State : Type := mkState {
  currentLanguage : string;
  languages : Value;
  storyData : Value;
  fullData : Value;
  document_title : Value;
  prev_text : option Value;
  next_text : option Value;
  restart_text : option Value;
  warnings : list string;
  errors : list Error
}.

Definition M (A : Type) : Type := Eff.M State A.

(** [new MultilingualDataProvider()] on a page. *)
Definition created (title : Value) (prev next restart : option Value) : State :=
  mkState "en" (VObj []) VNull VNull title prev next restart [] [].

Definition set_currentLanguage (x : string) (p : State) : State :=
  mkState x (languages p) (storyData p) (fullData p) (document_title p)
          (prev_text p) (next_text p) (restart_text p) (warnings p) (errors p).

Definition set_languages (x : Value) (p : State) : State :=
  mkState (currentLanguage p) x (storyData p) (fullData p) (document_title p)
          (prev_text p) (next_text p) (restart_text p) (warnings p) (errors p).

Definition set_storyData (x : Value) (p : State) : State :=
  mkState (currentLanguage p) (languages p) x (fullData p) (document_title p)
          (prev_text p) (next_text p) (restart_text p) (warnings p) (errors p).

Definition set_fullData (x : Value) (p : State) : State :=
  mkState (currentLanguage p) (languages p) (storyData p) x (document_title p)
          (prev_text p) (next_text p) (restart_text p) (warnings p) (errors p).

Definition set_document_title (x : Value) (p : State) : State :=
  mkState (currentLanguage p) (languages p) (storyData p) (fullData p) x
          (prev_text p) (next_text p) (restart_text p) (warnings p) (errors p).

Definition set_button_text (prev next restart : option Value) (p : State) : State :=
  mkState (currentLanguage p) (languages p) (storyData p) (fullData p)
          (document_title p) prev next restart (warnings p) (errors p).

Definition console_warn (language : string) : M unit :=
  modify (fun p =>
    mkState (currentLanguage p) (languages p) (storyData p) (fullData p)
            (document_title p) (prev_text p) (next_text p) (restart_text p)
            (warnings p ++ [language]) (errors p)).

Definition console_error (e : Error) : M unit :=
  modify (fun p =>
    mkState (currentLanguage p) (languages p) (storyData p) (fullData p)
            (document_title p) (prev_text p) (next_text p) (restart_text p)
            (warnings p) (errors p ++ [e])).

Definition invalid_multilingual : Error :=
  PlainError "Invalid multilingual JSON structure. Expected languages and storymaps properties.".

Definition no_slides (language : string) : Error :=
  PlainError ("No slides found for language '" ++ language ++ "'").

(** [config.defaultLanguage || 'en'] *)
Definition requested (defaultLanguage : option string) : string :=
  match defaultLanguage with
  | Some l => if String.eqb l "" then "en" else l
  | None => "en"
  end.

(** [loadData(config)] *)
Definition loadData (fetch : Fetch) (jsonUrl : string)
           (defaultLanguage : option string) : M Value :=
  try_catch
    (response <- await (fetch jsonUrl) ;;
     if negb (ok response) then throw (failed_to_load jsonUrl (status response))
     else
       data <- await (json response) ;;
       modify (set_fullData data) ;;
       languages <- prop data "languages" ;;
       if (negb (truthy languages) || negb (truthy (get data "storymaps")))%bool
       then throw invalid_multilingual
       else
         modify (set_currentLanguage (requested defaultLanguage)) ;;
         when (negb (truthy (get languages (requested defaultLanguage))))
              (console_warn (requested defaultLanguage) ;;
               modify (set_currentLanguage "en")) ;;
         modify (set_languages languages) ;;
         current <- gets currentLanguage ;;
         let languageData := get (get data "storymaps") current in
         if (negb (truthy languageData)
             || negb (truthy (get languageData "storymap"))
             || negb (truthy (get (get languageData "storymap") "slides")))%bool
         then throw (no_slides current)
         else
           modify (set_storyData (get (get languageData "storymap") "slides")) ;;
           title <- prop (get languages current) "title" ;;
           when (truthy title) (modify (set_document_title title)) ;;
           gets storyData)
    (fun error => console_error error ;; throw error).

Definition label (v : Value) (fallback : string) : Value :=
  if truthy v then v else VStr fallback.

Definition set_if_present (v : Value) (button : option Value) : option Value :=
  match button with Some _ => Some v | None => None end.

(** [updateNavButtonText()] *)
Definition updateNavButtonText : M unit :=
  languages <- gets languages ;;
  current <- gets currentLanguage ;;
  currentLangData <- prop languages current ;;
  when (truthy currentLangData)
       (modify (fun p =>
          set_button_text
            (set_if_present (label (get currentLangData "prev") "Previous")
                            (prev_text p))
            (set_if_present (label (get currentLangData "next") "Next")
                            (next_text p))
            (set_if_present (label (get currentLangData "restart") "Restart")
                            (restart_text p))
            p)).

(** [switchLanguage(newLanguage)]: the slides, or [null]. *)
Definition switchLanguage (newLanguage : string) : M Value :=
  fullData <- gets fullData ;;
  if negb (truthy fullData) then console_warn newLanguage ;; ret VNull
  else
    info <- prop (get fullData "languages") newLanguage ;;
    if negb (truthy info) then console_warn newLanguage ;; ret VNull
    else
      languageData <- prop (get fullData "storymaps") newLanguage ;;
      if negb (truthy languageData) then console_warn newLanguage ;; ret VNull
      else
        modify (set_currentLanguage newLanguage) ;;
        slides <- prop (get languageData "storymap") "slides" ;;
        modify (set_storyData slides) ;;
        when (truthy (get info "title"))
             (modify (set_document_title (get info "title"))) ;;
        updateNavButtonText ;;
        gets storyData.

(** [getCurrentLanguageData()] and [getLanguageInfo(langCode)] *)
Definition getLanguageInfo (langCode : string) : M Value :=
  languages <- gets languages ;;
  info <- prop languages langCode ;;
  ret (if truthy info then info else VNull).

Definition getCurrentLanguageData : M Value :=
  current <- gets currentLanguage ;;
  getLanguageInfo current.

(** A story in two languages, one without a list of languages, and a
    network that serves a document. *)
Definition slides_of (headline : string) : Value :=
  VObj [("storymap",
         VObj [("slides",
                VArr [VObj [("text", VObj [("headline", VStr headline)])]])])].

Definition bilingual : Value :=
  VObj [("languages",
         VObj [("en", VObj [("name", VStr "English"); ("title", VStr "Gold");
                            ("next", VStr "Next")]);
               ("es", VObj [("name", VStr "Spanish"); ("title", VStr "Oro");
                            ("prev", VStr "Anterior")])]);
        ("storymaps",
         VObj [("en", slides_of "Gold routes"); ("es", slides_of "Rutas del oro")])].

Definition unlisted : Value :=
  VObj [("storymaps", VObj [("en", slides_of "Gold routes")])].

Definition serving (data : Value) : Fetch :=
  fun _ => Fulfilled (mkResponse true "200" (Fulfilled data)).

Definition on_page : State :=
  created (VStr "") (Some (VStr "<")) (Some (VStr ">")) None.

End Loader.

(* ===================================================================== *)
(** * Configuration                                                       *)
(* ===================================================================== *)

(** The [features] and [styling] objects the constructor of [StoryMap]
    builds, and [getConfig] and [updateConfig]. The order of the
    properties of an object is not observed. *)

Module Config.
Import JS.

Definition Object : Type := list (string * Value).

(** [k in o], for own properties. *)
Fixpoint has (k : string) (o : Object) : bool :=
  match o with
  | [] => false
  | (k', _) :: r => (String.eqb k k' || has k r)%bool
  end.

Definition index_key (n : nat) : string :=
  NilZero.string_of_uint (Nat.to_uint n).

Fixpoint indexed (n : nat) (items : list Value) : Object :=
  match items with
  | [] => []
  | x :: r => (index_key n, x) :: indexed (S n) r
  end.

(** The own enumerable properties a spread copies: those of an object,
    the items of an array and the characters of a string (of ASCII) by
    index, and none of any other value. *)
Definition own (v : Value) : Object :=
  match v with
  | VObj fs => fs
  | VArr items => indexed O items
  | VStr s =>
      indexed O (List.map (fun c => VStr (String c EmptyString))
                          (list_ascii_of_string s))
  | _ => []
  end.

(** The properties of [src] that [seen] lacks, each once. *)
Fixpoint fresh (seen src : Object) : Object :=
  match src with
  | [] => []
  | (k, v) :: r =>
      if has k seen then fresh seen r else (k, v) :: fresh ((k, v) :: seen) r
  end.

(** The object literal [{ ...target, ...source }]: a property of the
    source replaces the one the literal has so far. *)
Definition spread (target : Object) (source : Value) : Object :=
  List.map (fun kv =>
              (fst kv,
               if has (fst kv) (own source) then lookup (fst kv) (own source)
               else snd kv))
           target
  ++ fresh target (own source).

Definition nullish (v : Value) : bool := (is_null v || is_undefined v)%bool.

(** [v?.k] *)
Definition opt (v : Value) (k : string) : Value :=
  if nullish v then VUndefined else get v k.

(** [a || b] *)
Definition or_else (a b : Value) : Value := if truthy a then a else b.

(** [v !== false] *)
Definition is_not_false (v : Value) : Value :=
  VBool (match v with VBool false => false | _ => true end).

Definition num (z : Z) : Value := VNum (App.of_Z z).

(** [this.config.features] as the constructor builds it from
    [config.features]. *)
Definition features_of (features : Value) : Object :=
  spread [("animations", is_not_false (opt features "animations"));
          ("keyboardNavigation", is_not_false (opt features "keyboardNavigation"));
          ("progressBar", is_not_false (opt features "progressBar"))]
         features.

Definition styling_defaults : Object :=
  [("markerRadius", num 10);
   ("markerRadiusActive", num 12);
   ("markerColor", VStr "#888888");
   ("markerColorActive", VStr "#ff0000");
   ("markerStrokeWidth", num 2);
   ("markerStrokeWidthActive", num 3);
   ("markerStrokeColor", VStr "#ffffff");
   ("lineColor", VStr "#000000");
   ("lineColorActive", VStr "#ff0000");
   ("lineWidth", num 2);
   ("lineDasharray", VArr [num 2; num 2])].

(** [this.config.styling] as the constructor builds it from
    [config.styling]. *)
Definition styling_of (styling : Value) : Object :=
  spread (List.map (fun kv => (fst kv, or_else (opt styling (fst kv)) (snd kv)))
                   styling_defaults)
         styling.

(** [config.mapContainer || 'map'] *)
Definition mapContainer_of (mapContainer : Value) : Value :=
  or_else mapContainer (VStr "map").

(** The flags as the engine reads them: [this.config.features.animations]
    and [this.config.features.keyboardNavigation] in a condition. *)
Definition flags (features : Object) : Core.Features :=
  Core.mkFeatures (truthy (lookup "animations" features))
                  (truthy (lookup "keyboardNavigation" features)).

(** [getConfig()] *)
Definition getConfig (config : Object) : Object := spread [] (VObj config).

(** [updateConfig(newConfig)]: the new value of [this.config]. *)
Definition updateConfig (newConfig : Value) (config : Object) : Object :=
  spread (spread [] (VObj config)) newConfig.

(** The flags the constructor gives a default. *)
Definition is_flag (k : string) : bool :=
  existsb (String.eqb k) ["animations"; "keyboardNavigation"; "progressBar"].

End Config.

(* ===================================================================== *)
(** * The example application                                             *)
(* ===================================================================== *)

(** The functions of the single-file example the library was extracted
    from, where they differ from the methods of [StoryMap]: they read the
    global [map] without a test, and test no location. *)

Module Arya.
Import JS Geo Eff Eff.Notations Core.

(** [map.getSource(...)]: a TypeError while [map] is undefined. *)
Definition the_map : M MapSurface :=
  m <- gets map ;;
  match m with
  | Some m => ret m
  | None => throw TypeError
  end.

Definition getPreviouslyActiveMarkerIndex : M (option Z) :=
  m <- the_map ;;
  match active_marker m with
  | Some (f :: _) => ret (Some (slideIndex f))
  | _ => ret None
  end.

Definition moveMarkerToInactive (index : Z) : M unit :=
  m <- the_map ;;
  match active_marker m with
  | None | Some [] => ret tt
  | Some (markerFeature :: _) =>
      on_map (fun m =>
        match inactive_markers m with
        | Some fs => set_inactive (Some (fs ++ [with_isActive false markerFeature])) m
        | None => m
        end) ;;
      on_map (set_active (Some []))
  end.

Definition moveMarkerToActive (index : Z) : M unit :=
  m <- the_map ;;
  match inactive_markers m with
  | None => ret tt
  | Some fs =>
      match findIndex (fun f => slideIndex f =? index) fs with
      | None => ret tt
      | Some markerIndex =>
          match nth_error fs markerIndex with
          | None => ret tt
          | Some markerFeature =>
              on_map (fun m =>
                match active_marker m with
                | Some _ => set_active (Some [with_isActive true markerFeature]) m
                | None => m
                end) ;;
              on_map (set_inactive (Some (splice1 markerIndex fs)))
          end
      end
  end.

Definition updateMarkerColors : M unit :=
  previousActiveIndex <- getPreviouslyActiveMarkerIndex ;;
  cur <- gets currentSlideIndex ;;
  match previousActiveIndex with
  | Some p => when (negb (p =? cur)) (moveMarkerToInactive p)
  | None => ret tt
  end ;;
  if differs previousActiveIndex cur then moveMarkerToActive cur else ret tt.

(** The index the active source holds, if it holds a feature. *)
Definition previous_of (m : MapSurface) : option Z :=
  match active_marker m with
  | Some (f :: _) => Some (slideIndex f)
  | _ => None
  end.

(** [updateMedia(slide)] of the example, on the page of the panel: no
    test for the container, pictures by [endsWith], no caption. *)
Definition updateMedia (slide : Value) : Panel.M unit :=
  mediaContainer <- gets Panel.media ;;
  match mediaContainer with
  | None => throw TypeError
  | Some _ =>
      modify (Panel.set_media (Some [])) ;;
      media <- Panel.prop slide "media" ;;
      let url := get media "url" in
      if (truthy media && truthy url)%bool then
        match url with
        | VStr u =>
            if Panel.includes "youtube.com" u
            then Panel.appendChild
                   (Panel.Iframe (Panel.replace "watch?v=" "embed/" u))
            else if (Panel.endsWith ".jpg" u || Panel.endsWith ".png" u)%bool
            then Panel.appendChild
                   (Panel.Img u (Panel.or_else (get media "caption") (VStr "")))
            else ret tt
        | _ => throw TypeError
        end
      else ret tt
  end.

End Arya.

(* ===================================================================== *)
(** * Geo utilities: proofs                                               *)
(* ===================================================================== *)

Module GeoFacts.
Import JS Geo.

Lemma falsy_has_no_coordinates location k :
  truthy location = false -> parseFloat (get location k) = KNaN.
Proof.
  destruct location; cbn; try reflexivity; discriminate.
Qed.

Lemma nullish_is_not_a_number v :
  isNaN (parseFloat v) = false -> is_null v = false /\ is_undefined v = false.
Proof.
  destruct v; cbn; auto; discriminate.
Qed.

(** The result is the boolean [true] exactly when the condition of an
    [if] takes it as true. *)
Lemma valid_iff location :
  valid location = true <-> isValidLocation location = VBool true.
Proof.
  unfold valid, isValidLocation.
  destruct (truthy location) eqn:T.
  - cbn. split; [intros ->; reflexivity|]. intros H. injection H as H. exact H.
  - rewrite T. split; [discriminate|]. intros ->. cbn in T. discriminate.
Qed.

Lemma isValidLocation_intro location :
  present location = true ->
  isNaN (parseFloat (get location "lat")) = false ->
  isNaN (parseFloat (get location "lon")) = false ->
  isValidLocation location = VBool true.
Proof.
  intros Hp Hlat Hlon. unfold isValidLocation.
  destruct (truthy location) eqn:T.
  - destruct (nullish_is_not_a_number _ Hlat) as [A B].
    destruct (nullish_is_not_a_number _ Hlon) as [C D].
    rewrite A, B, C, D, Hlat, Hlon. reflexivity.
  - rewrite (falsy_has_no_coordinates _ "lat" T) in Hlat. discriminate.
Qed.

(** C5 (amended). For every value [location], [isValidLocation] returns
    the boolean [true] if and only if the location is present (neither
    [null] nor [undefined]) and [parseFloat] of its [lat] and of its [lon]
    is not NaN: each coordinate parses to a finite number or to an
    infinity. Finiteness is not tested. *)
Theorem isValidLocation_iff location :
  isValidLocation location = VBool true <->
  present location = true /\
  isNaN (parseFloat (get location "lat")) = false /\
  isNaN (parseFloat (get location "lon")) = false.
Proof.
  split.
  - unfold isValidLocation. destruct (truthy location) eqn:T.
    + intros H. injection H as H'.
      repeat (apply andb_prop in H'; destruct H' as [H' ?]).
      repeat match goal with
             | H : negb _ = true |- _ => apply negb_true_iff in H
             end.
      repeat split; try assumption.
      destruct location; cbn in T |- *; try reflexivity; discriminate.
    + intros ->. discriminate.
  - intros (Hp & Hlat & Hlon). apply isValidLocation_intro; assumption.
Qed.

(** Finite coordinates are enough. *)
Lemma spec_valid_is_valid location :
  spec_valid location = true -> isValidLocation location = VBool true.
Proof.
  unfold spec_valid. intros H.
  apply andb_prop in H. destruct H as [H Hlon].
  apply andb_prop in H. destruct H as [Hp Hlat].
  apply isValidLocation_intro; [exact Hp| |].
  - destruct (parseFloat (get location "lat")); try discriminate. reflexivity.
  - destruct (parseFloat (get location "lon")); try discriminate. reflexivity.
Qed.

(** C5 fails as stated: the latitude "Infinity" parses to an infinite
    value and the location is valid all the same. *)
Lemma infinite_latitude_is_valid :
  parseFloat (VStr "Infinity") = KInfinite false /\
  isValidLocation (loc (VStr "Infinity") (VStr "0")) = VBool true /\
  spec_valid (loc (VStr "Infinity") (VStr "0")) = false.
Proof. repeat split; reflexivity. Qed.

(** A decimal beyond the largest double parses to Infinity too. *)
Example overflowing_latitude_is_valid :
  parseFloat (VStr "1e999") = KInfinite false /\
  isValidLocation (loc (VStr "1e999") (VNum (S754_zero false))) = VBool true.
Proof. split; vm_compute; reflexivity. Qed.

(** The validator of the data providers lets an infinite number pass as
    well. *)
Example validator_accepts_infinity :
  validator_isValidLocation
    (loc (VNum (S754_infinity false)) (VNum (S754_zero false))) = VBool true.
Proof. reflexivity. Qed.

Example location_examples :
  isValidLocation VNull = VNull /\
  isValidLocation VUndefined = VUndefined /\
  isValidLocation (loc (VStr "51.5") (VStr "-0.12")) = VBool true /\
  isValidLocation (loc (VStr "north") (VStr "-0.12")) = VBool false /\
  isValidLocation (loc VNull (VStr "-0.12")) = VBool false /\
  isValidLocation (VObj [("lat", VStr "51.5")]) = VBool false /\
  isValidLocation (loc (VNum S754_nan) (VStr "1")) = VBool false.
Proof. repeat split; vm_compute; reflexivity. Qed.

Lemma isValidLocation_iff_witness :
  isValidLocation (loc (VStr "51.5") (VStr "-0.12")) = VBool true.
Proof.
  apply (proj2 (isValidLocation_iff (loc (VStr "51.5") (VStr "-0.12")))).
  repeat split; vm_compute; reflexivity.
Defined.

End GeoFacts.


(* ===================================================================== *)
(** * The engine: proofs                                                  *)
(* ===================================================================== *)

Module CoreFacts.
Import JS Geo Eff Eff.Notations Core.

Lemma runs_ret {A} (a : A) s (Q : A -> State -> Prop) :
  Q a s -> runs (ret a) s Q.
Proof. exact (fun H => H). Qed.

Lemma runs_bind {A B} (c : M A) (k : A -> M B) s (Q : B -> State -> Prop) :
  runs c s (fun a s' => runs (k a) s' Q) -> runs (bind c k) s Q.
Proof.
  unfold runs, bind. destruct (c s) as [a s'|e s']; auto.
Qed.

Lemma runs_weaken {A} (c : M A) s (P Q : A -> State -> Prop) :
  runs c s P -> (forall a s', P a s' -> Q a s') -> runs c s Q.
Proof.
  unfold runs. destruct (c s); auto.
Qed.

Lemma runs_seq {A B} (c : M A) (k : A -> M B) s
      (P : A -> State -> Prop) (Q : B -> State -> Prop) :
  runs c s P -> (forall a s', P a s' -> runs (k a) s' Q) -> runs (bind c k) s Q.
Proof.
  intros Hc Hk. apply runs_bind. eapply runs_weaken; eauto.
Qed.

Lemma runs_gets {A} (f : State -> A) s (Q : A -> State -> Prop) :
  Q (f s) s -> runs (gets f) s Q.
Proof. exact (fun H => H). Qed.

Lemma runs_modify (f : State -> State) s (Q : unit -> State -> Prop) :
  Q tt (f s) -> runs (modify f) s Q.
Proof. exact (fun H => H). Qed.

Lemma runs_when (b : bool) (c : M unit) s (Q : unit -> State -> Prop) :
  (b = true -> runs c s Q) -> (b = false -> Q tt s) -> runs (when b c) s Q.
Proof.
  destruct b; intros H1 H2; [apply H1 | apply H2]; reflexivity.
Qed.

Lemma runs_returns {A} (c : M A) s (Q : A -> State -> Prop) :
  runs c s Q -> exists a s', c s = Ret a s' /\ Q a s'.
Proof.
  unfold runs. destruct (c s) as [a s'|e s']; [eauto | tauto].
Qed.

Lemma runs_after (c : M unit) s (Q : unit -> State -> Prop) :
  runs c s Q -> Q tt (after (c s)) /\ returns (c s) = true.
Proof.
  unfold runs. destruct (c s) as [[] s'|e s']; cbn; tauto.
Qed.




(** ** Arrays *)

Lemma findIndex_some {A} (p : A -> bool) l k :
  findIndex p l = Some k -> exists x, nth_error l k = Some x /\ p x = true.
Proof.
  revert k. induction l as [|a l IH]; cbn; intros k H; [discriminate|].
  destruct (p a) eqn:Hp.
  - inversion H; subst. exists a. auto.
  - destruct (findIndex p l) as [j|]; [|discriminate].
    inversion H; subst. cbn. apply IH. reflexivity.
Qed.

Lemma findIndex_none {A} (p : A -> bool) l :
  findIndex p l = None -> forall x, In x l -> p x = false.
Proof.
  induction l as [|a l IH]; cbn; intros H x Hin; [tauto|].
  destruct (p a) eqn:Hp; [discriminate|].
  destruct (findIndex p l); [discriminate|].
  destruct Hin as [->|Hin]; auto.
Qed.

Lemma splice1_perm {A} (l : list A) k x :
  nth_error l k = Some x -> Permutation l (x :: splice1 k l).
Proof.
  revert k. induction l as [|a l IH]; intros [|k] H; cbn in *; try discriminate.
  - inversion H; subst. reflexivity.
  - rewrite (IH _ H) at 1. apply perm_swap.
Qed.

Lemma nth_slide_some sd i :
  0 <= i < Z.of_nat (List.length sd) -> exists sl, nth_slide sd i = Some sl.
Proof.
  intros H. unfold nth_slide.
  destruct (i <? 0) eqn:E; [apply Z.ltb_lt in E; lia|].
  destruct (nth_error sd (Z.to_nat i)) eqn:N; [eauto|].
  apply nth_error_None in N. lia.
Qed.

Lemma nth_slide_none sd i :
  ~ (0 <= i < Z.of_nat (List.length sd)) -> nth_slide sd i = None.
Proof.
  intros H. unfold nth_slide.
  destruct (i <? 0) eqn:E; [reflexivity|].
  apply Z.ltb_ge in E. apply nth_error_None. lia.
Qed.

Lemma in_inactive_features sd : forall i z,
  In z (indices (inactive_features i sd)) <->
  exists j sl, z = Z.of_nat (i + j) /\ nth_error sd j = Some sl /\ valid (location sl) = true.
Proof.
  induction sd as [|a sd IH]; intros i z; cbn.
  - split; [tauto|]. intros (j & sl & _ & H & _). destruct j; discriminate.
  - destruct (valid (location a)) eqn:Hv; cbn; rewrite IH.
    + split.
      * intros [<-|(j & sl & -> & Hn & Hs)].
        -- exists O, a. rewrite Nat.add_0_r. auto.
        -- exists (S j), sl. cbn. split; [f_equal; lia|auto].
      * intros (j & sl & -> & Hn & Hs). destruct j as [|j]; cbn in Hn.
        -- left. f_equal. lia.
        -- right. exists j, sl. split; [f_equal; lia|auto].
    + split.
      * intros (j & sl & -> & Hn & Hs). exists (S j), sl. split; [f_equal; lia|auto].
      * intros (j & sl & -> & Hn & Hs). destruct j as [|j]; cbn in Hn.
        -- inversion Hn; subst. congruence.
        -- exists j, sl. split; [f_equal; lia|auto].
Qed.

Lemma in_valid_indices sd z :
  In z (valid_indices sd) <-> valid_at sd z = true.
Proof.
  unfold valid_indices. rewrite in_inactive_features. unfold valid_at, nth_slide.
  split.
  - intros (j & sl & -> & Hn & Hs). cbn.
    destruct (Z.of_nat j <? 0) eqn:E; [apply Z.ltb_lt in E; lia|].
    rewrite Nat2Z.id, Hn. exact Hs.
  - destruct (z <? 0) eqn:E; [discriminate|]. apply Z.ltb_ge in E.
    destruct (nth_error sd (Z.to_nat z)) as [sl|] eqn:Hn; [|discriminate].
    intros Hs. exists (Z.to_nat z), sl. cbn. split; [lia|auto].
Qed.

Lemma inactive_features_bound sd : forall i z,
  In z (indices (inactive_features i sd)) -> Z.of_nat i <= z.
Proof.
  intros i z H. apply in_inactive_features in H. destruct H as (j & _ & -> & _). lia.
Qed.

Lemma NoDup_inactive_features sd : forall i, NoDup (indices (inactive_features i sd)).
Proof.
  induction sd as [|a sd IH]; intros i; cbn; [constructor|].
  destruct (valid (location a)); cbn; auto.
  constructor; auto.
  intros H. apply inactive_features_bound in H. lia.
Qed.

Lemma NoDup_valid_indices sd : NoDup (valid_indices sd).
Proof. apply NoDup_inactive_features. Qed.


(** ** Markers *)

Ltac unfold_m :=
  unfold runs, bind, gets, modify, ret, when, throw, on_map, on_dom, deref in *.

Lemma indices_app a b : indices (a ++ b) = indices a ++ indices b.
Proof. apply map_app. Qed.

Lemma activate_perm fs k g b :
  nth_error fs k = Some g ->
  Permutation (indices (splice1 k fs ++ [with_isActive b g])) (indices fs).
Proof.
  intros Hg. rewrite indices_app. cbn.
  rewrite <- Permutation_cons_append.
  change (slideIndex g :: indices (splice1 k fs)) with (indices (g :: splice1 k fs)).
  symmetry. apply Permutation_map. apply splice1_perm. exact Hg.
Qed.

(** The effect of [updateMarkerColors] on a map whose marker sources hold
    a permutation of the valid indices with at most one active marker. *)
Lemma updateMarkerColors_runs s sd m :
  storyData s = Some sd -> map s = Some m ->
  0 <= currentSlideIndex s < Z.of_nat (List.length sd) ->
  markers_pre sd m ->
  runs updateMarkerColors s (fun _ s' =>
    exists ia' ac',
      s' = set_map (Some (set_active (Some ac') (set_inactive (Some ia') m))) s /\
      Permutation (indices (ia' ++ ac')) (valid_indices sd) /\
      active_ok sd (currentSlideIndex s) ac').
Proof.
  intros Hsd Hm Hcur (ia & ac & Hia & Hac & Hperm & Hlen).
  destruct s as [ft sd0 cur an m0 ls d ts]; cbn in *; subst sd0 m0.
  destruct m as [ia0 ac0 ll fl ld]; cbn in *; subst ia0 ac0.
  destruct (nth_slide_some sd cur Hcur) as [sl Hsl].
  assert (Hva : valid_at sd cur = valid (location sl))
    by (unfold valid_at; rewrite Hsl; reflexivity).
  unfold updateMarkerColors, getPreviouslyActiveMarkerIndex, storyData_at.
  destruct ac as [|f [|g ac]]; cbn in Hlen; [| |lia].
  - (* nothing active *)
    unfold_m; cbn. rewrite Hsl. cbn.
    destruct (valid (location sl)) eqn:Hv.
    + unfold moveMarkerToActive; unfold_m; cbn.
      rewrite app_nil_r in Hperm.
      destruct (findIndex (fun f => slideIndex f =? cur) ia) as [k|] eqn:Hk.
      * destruct (findIndex_some _ _ _ Hk) as (g & Hg & Hgi).
        rewrite Hg. cbn. apply Z.eqb_eq in Hgi.
        exists (splice1 k ia), [with_isActive true g]. split; [reflexivity|].
        split.
        -- rewrite <- Hperm. apply activate_perm. exact Hg.
        -- cbn. split; [exact Hgi | congruence].
      * exfalso.
        assert (Hin : In cur (indices ia)).
        { eapply Permutation_in; [symmetry; exact Hperm|].
          apply in_valid_indices. congruence. }
        apply in_map_iff in Hin. destruct Hin as (g & Hgi & Hg).
        apply (findIndex_none _ _ Hk) in Hg. cbn in Hg.
        apply Z.eqb_neq in Hg. contradiction.
    + cbn. exists ia, []. split; [reflexivity|]. split; [exact Hperm|].
      cbn. congruence.
  - (* one marker active *)
    unfold_m; cbn.
    destruct (slideIndex f =? cur) eqn:Hf; cbn.
    + apply Z.eqb_eq in Hf.
      exists ia, [f]. split; [reflexivity|]. split; [exact Hperm|].
      cbn. split; [exact Hf|].
      apply in_valid_indices. eapply Permutation_in; [exact Hperm|].
      rewrite indices_app. apply in_or_app. right. cbn. auto.
    + unfold moveMarkerToInactive; unfold_m; cbn. rewrite Hsl. cbn.
      assert (Hperm' : Permutation (indices (ia ++ [with_isActive false f]))
                                   (valid_indices sd)).
      { rewrite <- Hperm. rewrite !indices_app. reflexivity. }
      destruct (valid (location sl)) eqn:Hv.
      * unfold moveMarkerToActive; unfold_m; cbn.
        destruct (findIndex (fun f0 => slideIndex f0 =? cur)
                            (ia ++ [with_isActive false f])) as [k|] eqn:Hk.
        -- destruct (findIndex_some _ _ _ Hk) as (g & Hg & Hgi).
           rewrite Hg. cbn. apply Z.eqb_eq in Hgi.
           exists (splice1 k (ia ++ [with_isActive false f])), [with_isActive true g].
           split; [reflexivity|]. split.
           ++ rewrite <- Hperm'. apply activate_perm. exact Hg.
           ++ cbn. split; [exact Hgi | congruence].
        -- exfalso.
           assert (Hin : In cur (indices (ia ++ [with_isActive false f]))).
           { eapply Permutation_in; [symmetry; exact Hperm'|].
             apply in_valid_indices. congruence. }
           apply in_map_iff in Hin. destruct Hin as (g & Hgi & Hg).
           apply (findIndex_none _ _ Hk) in Hg. cbn in Hg.
           apply Z.eqb_neq in Hg. contradiction.
      * cbn. exists (ia ++ [with_isActive false f]), []. split; [reflexivity|].
        split; [rewrite app_nil_r; exact Hperm'|]. cbn. congruence.
Qed.


Lemma updateMarkerColors_unloaded s sd m :
  storyData s = Some sd -> map s = Some m ->
  0 <= currentSlideIndex s < Z.of_nat (List.length sd) ->
  inactive_markers m = None -> active_marker m = None ->
  runs updateMarkerColors s (fun _ s' => s' = s).
Proof.
  intros Hsd Hm Hcur Hia Hac.
  destruct s as [ft sd0 cur an m0 ls d ts]; cbn in *; subst sd0 m0.
  destruct m as [ia0 ac0 ll fl ld]; cbn in *; subst ia0 ac0.
  destruct (nth_slide_some sd cur Hcur) as [sl Hsl].
  unfold updateMarkerColors, getPreviouslyActiveMarkerIndex, storyData_at.
  unfold_m; cbn. rewrite Hsl. cbn.
  destruct (valid (location sl)); cbn; reflexivity.
Qed.

(** ** Line layers *)

Lemma setPaintProperty_absent i p l :
  ~ In i (List.map fst l) -> setPaintProperty i p l = l.
Proof.
  induction l as [|[j q] l IH]; cbn; intros H; [reflexivity|].
  destruct (Nat.eqb i j) eqn:E.
  - apply Nat.eqb_eq in E. subst j. cbn in H. tauto.
  - f_equal. apply IH. cbn in H. tauto.
Qed.

Lemma setPaintProperty_app i p l1 l2 :
  setPaintProperty i p (l1 ++ l2) = setPaintProperty i p l1 ++ setPaintProperty i p l2.
Proof.
  induction l1 as [|[j q] l1 IH]; cbn; [reflexivity|].
  destruct (Nat.eqb i j); cbn; f_equal; exact IH.
Qed.

Lemma setPaintProperty_keys i p l :
  List.map fst (setPaintProperty i p l) = List.map fst l.
Proof.
  induction l as [|[j q] l IH]; cbn; [reflexivity|].
  destruct (Nat.eqb i j); cbn; f_equal; exact IH.
Qed.

Lemma paint_lines_keys cur ls : forall layers,
  List.map fst (paint_lines cur ls layers) = List.map fst layers.
Proof.
  induction ls as [|l ls IH]; intros layers; cbn; [reflexivity|].
  rewrite IH. apply setPaintProperty_keys.
Qed.

(** Restyling layers that carry the ids of the lines, in order and without
    repetition, gives every layer the paint of its line. *)
Lemma paint_lines_fresh cur ls : forall done todo,
  List.map fst todo = List.map id ls ->
  NoDup (List.map fst done ++ List.map id ls) ->
  paint_lines cur ls (done ++ todo) =
  done ++ List.map (fun l => (id l, paint_for cur l)) ls.
Proof.
  induction ls as [|l ls IH]; intros done todo Hk Hnd; cbn in *.
  - destruct todo; [reflexivity|discriminate].
  - destruct todo as [|[j q] todo]; [discriminate|].
    cbn in Hk. inversion Hk as [[Hj Hk']]; subst j.
    rewrite setPaintProperty_app. cbn. rewrite Nat.eqb_refl.
    assert (Hnd' : NoDup (id l :: List.map fst done ++ List.map id ls)).
    { eapply Permutation_NoDup; [|exact Hnd].
      symmetry. apply Permutation_middle. }
    inversion Hnd' as [|? ? Hnot Hrest]; subst.
    rewrite (setPaintProperty_absent _ _ done)
      by (intros H; apply Hnot; apply in_or_app; auto).
    rewrite (setPaintProperty_absent _ _ todo)
      by (rewrite Hk'; intros H; apply Hnot; apply in_or_app; auto).
    change (done ++ (id l, paint_for cur l) :: todo)
      with (done ++ [(id l, paint_for cur l)] ++ todo).
    rewrite app_assoc. rewrite IH.
    + rewrite <- app_assoc. reflexivity.
    + exact Hk'.
    + rewrite map_app. cbn. rewrite <- app_assoc. cbn. exact Hnd.
Qed.

Lemma paint_lines_all cur ls layers :
  List.map fst layers = List.map id ls ->
  NoDup (List.map id ls) ->
  paint_lines cur ls layers = List.map (fun l => (id l, paint_for cur l)) ls.
Proof.
  intros Hk Hnd. apply (paint_lines_fresh cur ls [] layers Hk). exact Hnd.
Qed.

Lemma expected_lines_ids sd :
  List.map id (expected_lines sd) = segment_sources sd.
Proof.
  unfold expected_lines. rewrite map_map. cbn. apply map_id.
Qed.

Lemma NoDup_segment_sources sd : NoDup (segment_sources sd).
Proof. apply NoDup_filter. apply seq_NoDup. Qed.

Lemma updateLineColors_runs s m :
  map s = Some m ->
  runs updateLineColors s (fun _ s' =>
    s' = set_map (Some (set_line_layers
            (paint_lines (currentSlideIndex s) (lines s) (line_layers m)) m)) s).
Proof.
  intros Hm. unfold updateLineColors. unfold_m. rewrite Hm. cbn. rewrite Hm.
  reflexivity.
Qed.

(** ** The page *)



Lemma updateContent_runs sl direction s :
  runs (updateContent sl direction) s (fun _ s' =>
    page_only s s' /\ lock_effect direction s s').
Proof.
  destruct s as [ft sd cur an m ls d ts].
  destruct d as [cw sh sc pb nb rb pg].
  unfold updateContent, animateSlideTransition, updateSlideContent, on_classList,
    setTimeout, page_only, lock_effect.
  unfold_m; cbn.
  destruct cw as [cl|]; cbn.
  - destruct (negb (is_none direction) && animations ft && negb an) eqn:E; cbn.
    + apply andb_prop in E. destruct E as [E E3].
      apply andb_prop in E. destruct E as [E1 E2].
      apply negb_true_iff in E1, E3. subst an.
      split; [do 3 eexists; split; reflexivity|]. right. auto.
    + split; [do 3 eexists; split; reflexivity|]. left. auto.
  - split; [do 3 eexists; split; reflexivity|]. left. auto.
Qed.

Lemma updateProgress_runs s :
  runs updateProgress s (fun _ s' =>
    exists d', s' = set_dom d' s /\ buttons d' = buttons (dom s)).
Proof.
  destruct s as [ft sd cur an m ls d ts].
  destruct d as [cw sh sc pb nb rb pg].
  unfold updateProgress. unfold_m; cbn.
  destruct pg; [destruct sd|]; cbn; eexists; split; reflexivity.
Qed.

Lemma updateBackground_runs sl s :
  runs (updateBackground sl) s (fun _ s' =>
    exists d', s' = set_dom d' s /\ buttons d' = buttons (dom s)).
Proof.
  destruct s as [ft sd cur an m ls d ts].
  destruct d as [cw sh sc pb nb rb pg].
  unfold updateBackground. unfold_m; cbn.
  destruct sc; cbn; eexists; split; reflexivity.
Qed.

Lemma updateButtonStates_runs s sd :
  storyData s = Some sd ->
  0 <= currentSlideIndex s < Z.of_nat (List.length sd) ->
  runs updateButtonStates s (fun _ s' =>
    exists d', s' = set_dom d' s /\
      buttons_synced (Z.of_nat (List.length sd)) (currentSlideIndex s) d').
Proof.
  intros Hsd Hcur.
  destruct s as [ft sd0 cur an m ls d ts]; cbn in *; subst sd0.
  destruct d as [cw sh sc pb nb rb pg].
  unfold updateButtonStates, storyData_length. unfold_m; cbn.
  eexists. split; [reflexivity|].
  unfold buttons_synced; cbn.
  assert (E0 : negb (0 <? cur) = (cur =? 0)).
  { destruct (0 <? cur) eqn:A, (cur =? 0) eqn:B; try reflexivity;
      rewrite ?Z.ltb_lt, ?Z.ltb_ge, ?Z.eqb_eq, ?Z.eqb_neq in *; lia. }
  repeat split; intros b Hb.
  - destruct pb; cbn in Hb; [|discriminate]. inversion Hb. exact E0.
  - destruct rb; cbn in Hb; [|discriminate]. inversion Hb. exact E0.
  - destruct nb; cbn in Hb; [|discriminate]. inversion Hb.
    destruct (cur <? Z.of_nat (List.length sd) - 1) eqn:A,
             (cur =? Z.of_nat (List.length sd) - 1) eqn:B; try reflexivity;
      rewrite ?Z.ltb_lt, ?Z.ltb_ge, ?Z.eqb_eq, ?Z.eqb_neq in *; lia.
Qed.


(** ** The slide update *)

Lemma storyData_at_runs i s sd :
  storyData s = Some sd ->
  runs (storyData_at i) s (fun a s' => a = nth_slide sd i /\ s' = s).
Proof.
  intros Hsd. unfold storyData_at. unfold_m. rewrite Hsd. auto.
Qed.

Lemma storyData_length_runs s sd :
  storyData s = Some sd ->
  runs storyData_length s (fun a s' => a = Z.of_nat (List.length sd) /\ s' = s).
Proof.
  intros Hsd. unfold storyData_length. unfold_m. rewrite Hsd. auto.
Qed.

Lemma flyToSlide_runs i s sd m :
  storyData s = Some sd -> map s = Some m ->
  runs (flyToSlide i) s (fun _ s' =>
    exists fl, s' = set_map (Some (set_flights fl m)) s).
Proof.
  intros Hsd Hm.
  destruct s as [ft sd0 cur an m0 ls d ts]; cbn in *; subst sd0 m0.
  unfold flyToSlide, storyData_at. unfold_m; cbn.
  destruct m as [ia ac ll fl ld].
  destruct (nth_slide sd i) as [sl|]; cbn.
  - destruct (valid (location sl)); cbn; eexists; reflexivity.
  - exists fl. reflexivity.
Qed.

Lemma fly_when_runs (b : bool) i s sd m :
  storyData s = Some sd -> map s = Some m ->
  runs (when b (flyToSlide i)) s (fun _ s' =>
    exists fl, s' = set_map (Some (set_flights fl m)) s).
Proof.
  intros Hsd Hm. apply runs_when; intros _.
  - eapply flyToSlide_runs; eauto.
  - exists (flights m). destruct s, m; cbn in *; subst; reflexivity.
Qed.

Lemma buttons_synced_ext len cur d d' :
  buttons d' = buttons d -> buttons_synced len cur d -> buttons_synced len cur d'.
Proof.
  unfold buttons, buttons_synced. intros H. inversion H as [[H1 H2 H3]].
  rewrite H1, H2, H3. auto.
Qed.

Lemma valid_line_wanted sd i c nx :
  nth_error sd i = Some c -> nth_error sd (S i) = Some nx ->
  (if truthy (location c) && is_true (get (location c) "line") && valid (location c)
   then valid (location nx) else false) = line_wanted sd i.
Proof.
  intros Hc Hn. unfold line_wanted. rewrite Hc, Hn.
  unfold valid at 1 3, isValidLocation.
  destruct (truthy (location c)) eqn:T; cbn.
  - destruct (is_true (get (location c) "line")); cbn; [|reflexivity].
    match goal with |- (if ?b then _ else _) = _ => destruct b end; reflexivity.
  - rewrite T. rewrite andb_false_r. reflexivity.
Qed.

(** [updateMapElements] restyles every line and moves the markers. *)
Lemma updateMapElements_runs s sd m :
  storyData s = Some sd -> map s = Some m ->
  0 <= currentSlideIndex s < Z.of_nat (List.length sd) ->
  (if loaded m then markers_pre sd m /\ lines_pre sd (lines s) m
   else unloaded m (lines s)) ->
  runs updateMapElements s (fun _ s' =>
    exists m', s' = set_map (Some m') s /\ loaded m' = loaded m /\
      if loaded m then
        markers_ok sd (currentSlideIndex s) m' /\
        lines_ok sd (currentSlideIndex s) (lines s) m'
      else unloaded m' (lines s)).
Proof.
  intros Hsd Hm Hcur H.
  unfold updateMapElements. apply runs_bind, runs_gets. rewrite Hm.
  eapply runs_seq; [apply updateLineColors_runs; exact Hm|].
  intros [] s1 ->.
  destruct s as [ft sd0 cur an m0 ls d ts]; cbn in *; subst sd0 m0.
  destruct m as [ia ac ll fl ld]; cbn in *.
  destruct ld.
  - destruct H as [Hmk [Hls Hkeys]]. cbn in Hkeys.
    eapply runs_weaken.
    + eapply updateMarkerColors_runs; cbn; try reflexivity; [exact Hcur|].
      destruct Hmk as (ia1 & ac1 & E1 & E2 & Hp & Hl).
      exists ia1, ac1. cbn in *. auto.
    + cbn. intros [] s' (ia' & ac' & -> & Hp & Hok).
      eexists. split; [reflexivity|]. cbn. split; [reflexivity|]. split.
      * exists ia', ac'. cbn. auto.
      * split; [exact Hls|]. cbn.
        apply paint_lines_all; [exact Hkeys|].
        rewrite Hls, expected_lines_ids. apply NoDup_segment_sources.
  - unfold unloaded in H. cbn in H.
    destruct H as (Hia & Hac & Hls & Hll). subst ia ac ls ll.
    eapply runs_weaken.
    + eapply updateMarkerColors_unloaded; cbn; try reflexivity. exact Hcur.
    + cbn. intros [] s' ->. eexists. split; [reflexivity|]. cbn.
      unfold unloaded. cbn. auto.
Qed.

(** [updateSlide] restores the invariant once the index is in range. *)
Lemma updateSlide_runs direction s :
  PreInv s ->
  runs (updateSlide direction) s (fun _ s' =>
    Inv s' /\ lock_effect direction s s' /\
    currentSlideIndex s' = currentSlideIndex s /\
    storyData s' = storyData s /\ features s' = features s /\
    lines s' = lines s).
Proof.
  intros (sd & m & Hsd & Hm & Hcur & H).
  destruct s as [ft sd0 cur an m0 ls d ts]; cbn in *; subst sd0 m0.
  destruct (nth_slide_some sd cur Hcur) as [sl Hsl].
  unfold updateSlide. apply runs_bind, runs_gets. cbn.
  eapply runs_seq; [eapply storyData_at_runs; reflexivity|].
  cbn. intros a s0 [-> ->]. rewrite Hsl.
  eapply runs_seq; [apply updateContent_runs|].
  intros [] s1 [(d1 & an1 & ts1 & -> & Hb1) Hlock]. cbn in *.
  eapply runs_seq; [eapply fly_when_runs; reflexivity|].
  cbn. intros [] s2 (fl & ->).
  eapply runs_seq; [apply updateProgress_runs|].
  cbn. intros [] s3 (d3 & -> & Hb3).
  eapply runs_seq; [eapply updateButtonStates_runs; [reflexivity|exact Hcur]|].
  cbn. intros [] s4 (d4 & -> & Hb4).
  eapply runs_seq; [apply updateBackground_runs|].
  cbn. intros [] s5 (d5 & -> & Hb5).
  eapply runs_weaken.
  - eapply updateMapElements_runs; cbn; try reflexivity; [exact Hcur|].
    destruct m as [ia ac ll fl0 ld]; cbn in *. exact H.
  - cbn. intros [] s6 (m' & -> & Hld & Hres). cbn.
    split; [|repeat split; try reflexivity].
    + exists sd, m'. cbn. repeat split; try tauto; try lia.
      destruct m as [ia ac ll fl0 ld]; cbn in *. rewrite Hld.
      destruct ld; [|exact Hres].
      destruct Hres as [Hmk Hln]. split; [exact Hmk|]. split; [exact Hln|].
      eapply buttons_synced_ext; [exact Hb5|exact Hb4].
    + unfold lock_effect in *. cbn in *. exact Hlock.
Qed.


(** ** Building lines and markers *)

Lemma nth_slide_of_nat sd (i : nat) : nth_slide sd (Z.of_nat i) = nth_error sd i.
Proof.
  unfold nth_slide. destruct (Z.of_nat i <? 0) eqn:E.
  - apply Z.ltb_lt in E. lia.
  - rewrite Nat2Z.id. reflexivity.
Qed.


(** The loop of [createAllLines] adds, in slide order, one layer and one
    entry for every pair that qualifies. *)
Lemma createAllLines_from_runs sd n : forall i s m,
  storyData s = Some sd -> map s = Some m ->
  (i + n <= List.length sd - 1)%nat ->
  runs (createAllLines_from n i) s (fun _ s' =>
    s' = set_lines
           (lines s ++ List.map (fun j => mkLine j (Z.of_nat j + 1)) (new_lines sd i n))
           (set_map (Some (set_line_layers
              (line_layers m ++ List.map (fun j => (j, LineColor)) (new_lines sd i n)) m)) s)).
Proof.
  induction n as [|n IH]; intros i s m Hsd Hm Hb.
  - cbn. unfold new_lines. cbn. rewrite !app_nil_r.
    destruct s, m; cbn in *; subst; reflexivity.
  - cbn [createAllLines_from].
    eapply runs_seq; [eapply storyData_at_runs; exact Hsd|].
    cbn. intros a s0 [-> ->].
    eapply runs_seq; [eapply storyData_at_runs; exact Hsd|].
    cbn. intros a s0 [-> ->].
    replace (Z.of_nat i + 1) with (Z.of_nat (S i)) by lia.
    rewrite !nth_slide_of_nat.
    destruct (nth_error sd i) as [c|] eqn:Hc;
      [|apply nth_error_None in Hc; lia].
    destruct (nth_error sd (S i)) as [nx|] eqn:Hn;
      [|apply nth_error_None in Hn; lia].
    pose proof (valid_line_wanted sd i c nx Hc Hn) as Hw.
    unfold new_lines. cbn [seq filter].
    destruct s as [ft sd0 cur an m0 ls d ts]; cbn in Hsd, Hm; subst sd0 m0.
    destruct m as [ia ac ll fl ld].
    cbn [deref]. apply runs_bind, runs_ret.
    destruct (truthy (location c) && is_true (get (location c) "line")
              && valid (location c)) eqn:E1.
    + apply runs_bind. apply runs_bind, runs_ret.
      destruct (valid (location nx)) eqn:E2; rewrite <- Hw.
      * unfold createLineSegment. unfold_m. cbn.
        specialize (IH (S i)
          (mkState ft (Some sd) cur an
             (Some (mkMap ia ac (ll ++ [(i, LineColor)]) fl ld))
             (ls ++ [mkLine i (Z.of_nat i + 1)]) d ts)
          (mkMap ia ac (ll ++ [(i, LineColor)]) fl ld)
          eq_refl eq_refl ltac:(lia)).
        unfold runs in IH.
        destruct (createAllLines_from n (S i) _) as [[] s'|e s']; [|exact IH].
        subst s'. cbn. unfold new_lines. rewrite <- !app_assoc. reflexivity.
      * unfold_m. cbn.
        specialize (IH (S i)
          (mkState ft (Some sd) cur an (Some (mkMap ia ac ll fl ld)) ls d ts)
          (mkMap ia ac ll fl ld) eq_refl eq_refl ltac:(lia)).
        unfold runs in IH.
        destruct (createAllLines_from n (S i) _) as [[] s'|e s']; [|exact IH].
        subst s'. reflexivity.
    + rewrite <- Hw. apply runs_bind, runs_ret.
      specialize (IH (S i)
        (mkState ft (Some sd) cur an (Some (mkMap ia ac ll fl ld)) ls d ts)
        (mkMap ia ac ll fl ld) eq_refl eq_refl ltac:(lia)).
      exact IH.
Qed.

Lemma createAllLines_runs s sd m :
  storyData s = Some sd -> map s = Some m ->
  runs createAllLines s (fun _ s' =>
    s' = set_lines
           (lines s ++ expected_lines sd)
           (set_map (Some (set_line_layers
              (line_layers m ++ List.map (fun j => (j, LineColor)) (segment_sources sd)) m)) s)).
Proof.
  intros Hsd Hm. unfold createAllLines.
  apply runs_bind, runs_gets. apply runs_bind, runs_gets. rewrite Hsd, Hm.
  eapply runs_seq; [eapply storyData_length_runs; exact Hsd|].
  cbn. intros a s0 [-> ->].
  replace (Z.to_nat (Z.of_nat (List.length sd) - 1)) with (List.length sd - 1)%nat by lia.
  eapply runs_weaken; [eapply createAllLines_from_runs; eauto; lia|].
  cbn. intros [] s' ->. reflexivity.
Qed.

Lemma createAllMarkers_runs s sd m :
  storyData s = Some sd -> map s = Some m ->
  0 <= currentSlideIndex s < Z.of_nat (List.length sd) ->
  runs createAllMarkers s (fun _ s' =>
    exists ia' ac',
      s' = set_map (Some (set_active (Some ac') (set_inactive (Some ia') m))) s /\
      Permutation (indices (ia' ++ ac')) (valid_indices sd) /\
      active_ok sd (currentSlideIndex s) ac').
Proof.
  intros Hsd Hm Hcur.
  destruct s as [ft sd0 cur an m0 ls d ts]; cbn in *; subst sd0 m0.
  destruct m as [ia ac ll fl ld].
  destruct (nth_slide_some sd cur Hcur) as [sl Hsl].
  assert (Hva : valid_at sd cur = valid (location sl))
    by (unfold valid_at; rewrite Hsl; reflexivity).
  unfold createAllMarkers, createInactiveMarkers, createActiveMarker, storyData_at.
  unfold_m; cbn. rewrite Hsl. cbn.
  destruct (valid (location sl)) eqn:Hv.
  - unfold moveMarkerToActive; unfold_m; cbn.
    destruct (findIndex (fun f => slideIndex f =? cur) (inactive_features 0 sd))
      as [k|] eqn:Hk.
    + destruct (findIndex_some _ _ _ Hk) as (g & Hg & Hgi).
      rewrite Hg. cbn. apply Z.eqb_eq in Hgi.
      exists (splice1 k (inactive_features 0 sd)), [with_isActive true g].
      split; [reflexivity|]. split.
      * apply activate_perm. exact Hg.
      * cbn. split; [exact Hgi | congruence].
    + exfalso.
      assert (Hin : In cur (valid_indices sd))
        by (apply in_valid_indices; congruence).
      apply in_map_iff in Hin. destruct Hin as (g & Hgi & Hg).
      apply (findIndex_none _ _ Hk) in Hg. cbn in Hg.
      apply Z.eqb_neq in Hg. contradiction.
  - cbn. exists (inactive_features 0 sd), []. split; [reflexivity|].
    split; [rewrite app_nil_r; reflexivity|]. exact Hva.
Qed.

Lemma active_ok_length sd cur ac : active_ok sd cur ac -> (List.length ac <= 1)%nat.
Proof.
  destruct ac as [|f [|g ac]]; cbn; intros H; [lia|lia|contradiction].
Qed.

(** The [load] handler on a fresh map builds lines and markers and
    renders the current slide. *)
Lemma on_load_runs s sd m :
  storyData s = Some sd -> map s = Some m ->
  0 <= currentSlideIndex s < Z.of_nat (List.length sd) ->
  loaded m = true -> unloaded m (lines s) ->
  runs on_load s (fun _ s' =>
    Inv s' /\ lock_effect DNone s s' /\
    currentSlideIndex s' = currentSlideIndex s /\
    storyData s' = storyData s /\ features s' = features s).
Proof.
  intros Hsd Hm Hcur Hld (Hia & Hac & Hls & Hll).
  destruct s as [ft sd0 cur an m0 ls d ts]; cbn in *; subst sd0 m0 ls.
  destruct m as [ia ac ll fl ld]; cbn in *; subst ia ac ll ld.
  unfold on_load.
  eapply runs_seq; [eapply createAllLines_runs; reflexivity|].
  cbn. intros [] s1 ->.
  eapply runs_seq; [eapply createAllMarkers_runs; cbn; try reflexivity; exact Hcur|].
  cbn. intros [] s2 (ia' & ac' & -> & Hp & Hok).
  eapply runs_weaken.
  - apply updateSlide_runs. exists sd. eexists. cbn.
    split; [reflexivity|]. split; [reflexivity|]. split; [exact Hcur|]. cbn.
    split.
    + exists ia', ac'. cbn. repeat split; auto.
      eapply active_ok_length; eauto.
    + split; [reflexivity|]. cbn. rewrite map_map. cbn. rewrite map_id.
      symmetry. apply expected_lines_ids.
  - cbn. intros [] s3 (HI & Hlock & Hc & Hs & Hf & _). tauto.
Qed.


(** ** Every event keeps the invariant *)

Lemma markers_ok_pre sd cur m : markers_ok sd cur m -> markers_pre sd m.
Proof.
  intros (ia & ac & H1 & H2 & H3 & H4). exists ia, ac.
  repeat split; auto. eapply active_ok_length; eauto.
Qed.

Lemma lines_ok_pre sd cur ls m : lines_ok sd cur ls m -> lines_pre sd ls m.
Proof.
  intros [H1 H2]. split; [exact H1|]. rewrite H2, map_map. reflexivity.
Qed.

Lemma Inv_PreInv s i sd :
  Inv s -> storyData s = Some sd -> 0 <= i < Z.of_nat (List.length sd) ->
  PreInv (set_currentSlideIndex i s).
Proof.
  intros (sd' & m & Hsd & Hm & Hcur & H) Hsd' Hi.
  rewrite Hsd in Hsd'. inversion Hsd'; subst sd'.
  exists sd, m. cbn. repeat split; try tauto; try lia.
  destruct (loaded m); [|exact H].
  destruct H as (H1 & H2 & _). split.
  - eapply markers_ok_pre; eauto.
  - eapply lines_ok_pre; eauto.
Qed.

Lemma PreInv_flights s m fl :
  PreInv s -> map s = Some m -> PreInv (set_map (Some (set_flights fl m)) s).
Proof.
  intros (sd & m' & Hsd & Hm & Hcur & H) Hm'.
  rewrite Hm in Hm'. inversion Hm'; subst m'.
  exists sd, (set_flights fl m). cbn. repeat split; try tauto; try lia.
Qed.

Lemma Inv_page s d' an ts :
  Inv s -> buttons d' = buttons (dom s) ->
  Inv (mkState (features s) (storyData s) (currentSlideIndex s) an (map s)
               (lines s) d' ts).
Proof.
  intros (sd & m & Hsd & Hm & Hcur & H) Hb.
  exists sd, m. cbn. repeat split; try tauto; try lia.
  destruct (loaded m); [|exact H].
  destruct H as (H1 & H2 & H3). repeat split; try tauto.
  - apply H2.
  - apply H2.
  - eapply buttons_synced_ext; eauto.
  - eapply buttons_synced_ext; eauto.
  - eapply buttons_synced_ext; eauto.
Qed.



Lemma step_ok_refl direction s : Inv s -> step_ok direction s s.
Proof.
  intros H. split; [exact H|]. split; [left; auto|auto].
Qed.

Lemma updateSlide_at direction s i sd :
  Inv s -> storyData s = Some sd -> 0 <= i < Z.of_nat (List.length sd) ->
  runs (updateSlide direction) (set_currentSlideIndex i s) (fun _ s' =>
    step_ok direction s s' /\ currentSlideIndex s' = i).
Proof.
  intros HI Hsd Hi.
  eapply runs_weaken; [apply updateSlide_runs; eapply Inv_PreInv; eauto|].
  cbn. intros [] s' (HI' & Hlock & Hc & Hs & Hf & _).
  unfold step_ok. destruct s; cbn in *. tauto.
Qed.

Lemma navigatePrevious_runs s :
  Inv s -> runs navigatePrevious s (fun _ s' => step_ok DPrev s s').
Proof.
  intros HI. pose proof HI as (sd & m & Hsd & Hm & Hcur & H).
  unfold navigatePrevious. apply runs_bind, runs_gets. apply runs_bind, runs_gets.
  apply runs_when; intros E; [|apply step_ok_refl; exact HI].
  apply andb_prop in E. destruct E as [E1 E2]. apply Z.ltb_lt in E1.
  apply runs_bind, runs_modify.
  eapply runs_weaken; [eapply updateSlide_at; eauto; lia|].
  cbn. tauto.
Qed.

Lemma navigateNext_runs s :
  Inv s -> runs navigateNext s (fun _ s' => step_ok DNext s s').
Proof.
  intros HI. pose proof HI as (sd & m & Hsd & Hm & Hcur & H).
  unfold navigateNext. apply runs_bind, runs_gets.
  eapply runs_seq; [eapply storyData_length_runs; exact Hsd|].
  cbn. intros a s0 [-> ->]. apply runs_bind, runs_gets.
  apply runs_when; intros E; [|apply step_ok_refl; exact HI].
  apply andb_prop in E. destruct E as [E1 E2]. apply Z.ltb_lt in E1.
  apply runs_bind, runs_modify.
  eapply runs_weaken; [eapply updateSlide_at; eauto; lia|].
  cbn. tauto.
Qed.

Lemma navigateToSlide_runs s i :
  Inv s -> runs (navigateToSlide i) s (fun _ s' => step_ok DNone s s').
Proof.
  intros HI. pose proof HI as (sd & m & Hsd & Hm & Hcur & H).
  unfold navigateToSlide.
  destruct (0 <=? i) eqn:E0; [|apply step_ok_refl; exact HI].
  apply Z.leb_le in E0.
  eapply runs_seq; [eapply storyData_length_runs; exact Hsd|].
  cbn. intros a s0 [-> ->]. apply runs_bind, runs_gets.
  apply runs_when; intros E; [|apply step_ok_refl; exact HI].
  apply andb_prop in E. destruct E as [E1 E2]. apply Z.ltb_lt in E1.
  apply runs_bind, runs_modify.
  eapply runs_weaken; [eapply updateSlide_at; eauto; lia|].
  cbn. tauto.
Qed.

Lemma restart_runs s :
  Inv s -> runs restart s (fun _ s' => step_ok DNone s s').
Proof.
  intros HI. pose proof HI as (sd & m & Hsd & Hm & Hcur & H).
  unfold restart. apply runs_bind, runs_gets.
  apply runs_when; intros E; [|apply step_ok_refl; exact HI].
  apply runs_bind, runs_modify.
  assert (Hpre : PreInv (set_currentSlideIndex 0 s))
    by (eapply Inv_PreInv; eauto; lia).
  apply runs_bind. unfold find_valid. apply runs_bind, runs_gets. cbn.
  rewrite Hsd. apply runs_ret.
  eapply runs_seq with
    (P := fun _ s' => exists fl, s' = set_map (Some (set_flights fl m)) (set_currentSlideIndex 0 s)).
  - destruct (findIndex _ sd).
    + eapply flyToSlide_runs; cbn; eauto.
    + apply runs_ret. exists (flights m).
      destruct s, m; cbn in *; subst; reflexivity.
  - cbn. intros [] s1 (fl & ->).
    eapply runs_weaken.
    + apply updateSlide_runs. apply PreInv_flights; [exact Hpre|exact Hm].
    + cbn. intros [] s' (HI' & Hlock & Hc & Hs & Hf & _).
      unfold step_ok. destruct s; cbn in *. tauto.
Qed.

Lemma run_timer_runs t s :
  runs (run_timer t) s (fun _ s' =>
    page_only s s' /\ (isAnimating s' = true -> isAnimating s = true)).
Proof.
  destruct s as [ft sd cur an m ls d ts].
  destruct d as [cw sh sc pb nb rb pg].
  destruct t as [sl dir|dir]; unfold run_timer, updateSlideContent, on_classList,
    setTimeout, page_only; unfold_m; cbn.
  - split; [do 3 eexists; split; reflexivity|auto].
  - split; [do 3 eexists; split; reflexivity|discriminate].
Qed.


Lemma step_event_ok e s s' :
  e <> TimerFires -> step_ok (direction_of e) s s' -> event_ok e s s'.
Proof.
  intros _ (HI & Hlock & Hs & Hf).
  split; [exact HI|]. split; [exact Hs|]. split; [exact Hf|].
  intros [A B]. destruct Hlock as [[H1 _]|H2]; [congruence|tauto].
Qed.

(** Every event keeps the invariant and returns. *)
Ltac ev_ok :=
  match goal with
  | |- event_ok ?e _ _ => apply (step_event_ok e); [discriminate|]
  | |- step_ok _ _ _ -> event_ok ?e _ _ => apply (step_event_ok e); discriminate
  end.

Lemma dispatch_runs e s :
  Inv s -> runs (dispatch e) s (fun _ s' => event_ok e s s').
Proof.
  intros HI. pose proof HI as (sd & m & Hsd & Hm & Hcur & H).
  destruct e as [| | | |k|layer clicked|i| | |]; unfold dispatch.
  - (* load *)
    apply runs_bind, runs_gets. rewrite Hm.
    destruct (loaded m) eqn:Hld.
    + apply runs_ret. ev_ok; apply step_ok_refl; exact HI.
    + apply runs_bind. unfold on_map. apply runs_modify. rewrite Hm.
      eapply runs_weaken.
      * eapply on_load_runs; cbn; try reflexivity; [exact Hsd|exact Hcur|].
        destruct m; cbn in *. exact H.
      * cbn. intros [] s' (HI' & Hlock & Hc & Hs & Hf).
        ev_ok.
        unfold step_ok. destruct s; cbn in *. tauto.
  - apply runs_bind, runs_gets. destruct (prev_btn (dom s)).
    + eapply runs_weaken; [apply navigatePrevious_runs; exact HI|].
      intros [] s'. ev_ok.
    + apply runs_ret. ev_ok; apply step_ok_refl; exact HI.
  - apply runs_bind, runs_gets. destruct (next_btn (dom s)).
    + eapply runs_weaken; [apply navigateNext_runs; exact HI|].
      intros [] s'. ev_ok.
    + apply runs_ret. ev_ok; apply step_ok_refl; exact HI.
  - apply runs_bind, runs_gets. destruct (restart_btn (dom s)).
    + eapply runs_weaken; [apply restart_runs; exact HI|].
      intros [] s'. ev_ok.
    + apply runs_ret. ev_ok; apply step_ok_refl; exact HI.
  - apply runs_bind, runs_gets. destruct (keyboardNavigation (features s)).
    + destruct k.
      * eapply runs_weaken; [apply navigatePrevious_runs; exact HI|].
        intros [] s'. ev_ok.
      * eapply runs_weaken; [apply navigateNext_runs; exact HI|].
        intros [] s'. ev_ok.
      * apply runs_ret. ev_ok; apply step_ok_refl; exact HI.
    + apply runs_ret. ev_ok; apply step_ok_refl; exact HI.
  - apply runs_bind, runs_gets. rewrite Hm.
    destruct (layer_source layer m).
    + unfold on_marker_click. apply runs_bind, runs_gets. apply runs_bind, runs_gets.
      apply runs_when; intros E.
      * eapply runs_weaken; [apply navigateToSlide_runs; exact HI|].
        intros [] s'. ev_ok.
      * ev_ok; apply step_ok_refl; exact HI.
    + apply runs_ret. ev_ok; apply step_ok_refl; exact HI.
  - eapply runs_weaken; [apply navigateToSlide_runs; exact HI|].
    intros [] s'. ev_ok.
  - eapply runs_weaken; [apply navigateNext_runs; exact HI|].
    intros [] s'. ev_ok.
  - eapply runs_weaken; [apply navigatePrevious_runs; exact HI|].
    intros [] s'. ev_ok.
  - (* timer *)
    apply runs_bind, runs_gets. destruct (timers s) as [|t rest] eqn:Ht.
    + apply runs_ret. split; [exact HI|]. split; [reflexivity|].
      split; [reflexivity|]. intros [A B]. congruence.
    + apply runs_bind, runs_modify.
      eapply runs_weaken; [apply run_timer_runs|].
      cbn. intros [] s' ((d' & an' & ts' & -> & Hb) & Han). cbn in *.
      split; [|split; [reflexivity|split; [reflexivity|]]].
      * apply (Inv_page s d' an' ts' HI Hb).
      * intros [A B]. cbn in B. apply Han in B. congruence.
Qed.

Lemma started_Inv f slides d :
  has_valid_slide slides = true -> Inv (started f slides d).
Proof.
  intros Hv. exists slides, new_map. cbn. repeat split; auto; try lia.
  destruct slides; [discriminate|]. cbn [List.length]. lia.
Qed.

Theorem reachable_Inv s : reachable s -> Inv s.
Proof.
  induction 1 as [f slides d Hv|s e Hr IH].
  - apply started_Inv. exact Hv.
  - pose proof (dispatch_runs e s IH) as Hd.
    apply runs_after in Hd. destruct Hd as [(HI & _) _]. exact HI.
Qed.

Lemma reachable_returns s e : reachable s -> returns (dispatch e s) = true.
Proof.
  intros Hr. pose proof (dispatch_runs e s (reachable_Inv s Hr)) as Hd.
  apply runs_after in Hd. tauto.
Qed.



(** ** The marker partition *)

Lemma markers_created_loaded s :
  Inv s -> markers_created s = true -> map_loaded s = true.
Proof.
  intros (sd & m & Hsd & Hm & Hcur & H). unfold markers_created, map_loaded.
  rewrite Hm. destruct (loaded m); [reflexivity|].
  destruct H as (-> & _). discriminate.
Qed.

Lemma Inv_loaded s :
  Inv s -> map_loaded s = true ->
  exists sd m, storyData s = Some sd /\ map s = Some m /\
    0 <= currentSlideIndex s < Z.of_nat (List.length sd) /\
    markers_ok sd (currentSlideIndex s) m /\
    lines_ok sd (currentSlideIndex s) (lines s) m /\
    buttons_synced (Z.of_nat (List.length sd)) (currentSlideIndex s) (dom s).
Proof.
  intros (sd & m & Hsd & Hm & Hcur & H). unfold map_loaded. rewrite Hm.
  intros Hl. rewrite Hl in H. exists sd, m. tauto.
Qed.

Lemma NoDup_app_disjoint {A} (l1 l2 : list A) x :
  NoDup (l1 ++ l2) -> In x l1 -> ~ In x l2.
Proof.
  induction l1 as [|a l1 IH]; cbn; intros Hnd Hin; [contradiction|].
  inversion Hnd as [|? ? Hna Hnd']; subst.
  destruct Hin as [->|Hin]; [|auto].
  intros H. apply Hna. apply in_or_app. auto.
Qed.


(** The active member is the current slide. *)
Lemma active_is_current s :
  reachable s -> markers_created s = true ->
  activeSet s = if current_valid s then [currentSlideIndex s] else [].
Proof.
  intros Hr Hc. pose proof (reachable_Inv s Hr) as HI.
  destruct (Inv_loaded s HI (markers_created_loaded s HI Hc))
    as (sd & m & Hsd & Hm & Hcur & (ia & ac & Hia & Hac & Hp & Hok) & _).
  unfold activeSet, current_valid, slide_valid.
  rewrite Hm, Hsd, Hac. cbn [source_indices].
  destruct ac as [|f [|g ac]]; cbn in Hok |- *.
  - rewrite Hok. reflexivity.
  - destruct Hok as [-> ->]. reflexivity.
  - contradiction.
Qed.

(** ** The busy guard *)


Lemma busy_dropped s e sd :
  storyData s = Some sd -> isAnimating s = true -> is_navigation e = true ->
  dispatch e s = Ret tt s.
Proof.
  intros Hsd Hb He.
  destruct s as [ft sd0 cur an m ls d ts]; cbn in Hsd, Hb; subst sd0 an.
  destruct e as [| | | |k|layer clicked|i| | |]; try discriminate;
    unfold dispatch, goToSlide, next, previous, navigatePrevious, navigateNext,
      restart, navigateToSlide, on_marker_click, storyData_length;
    unfold_m; cbn -[andb];
    repeat (match goal with
            | |- context [match ?x with _ => _ end] =>
                lazymatch x with
                | andb _ _ => fail
                | _ => destruct x
                end
            end; cbn -[andb]);
    rewrite ?andb_false_r; reflexivity.
Qed.

(** C2. In every reachable state with [isAnimating] true, every
    navigation request (button click, arrow key, marker click, goToSlide,
    next, previous) returns without an error and leaves the whole state as
    it was: the index, the markers, the lines, and the pending timers, so
    nothing is queued. *)
Theorem busy_requests_dropped s e :
  reachable s -> isAnimating s = true -> is_navigation e = true ->
  dispatch e s = Ret tt s.
Proof.
  intros Hr Hb He. destruct (reachable_Inv s Hr) as (sd & m & Hsd & _).
  eapply busy_dropped; eauto.
Qed.


(** ** Boundaries *)

Lemma buttons_synced_gating len cur d :
  buttons_synced len cur d -> gating len cur d.
Proof.
  intros (Hp & Hrs & Hn). split; [|split]; intros b E.
  - rewrite (Hp b E), Z.eqb_eq. tauto.
  - rewrite (Hrs b E), Z.eqb_eq. tauto.
  - rewrite (Hn b E), Z.eqb_eq. tauto.
Qed.


(** ** Path segments *)

Lemma in_expected_lines sd i t :
  In (mkLine i t) (expected_lines sd) <->
  t = Z.of_nat i + 1 /\ line_wanted sd i = true.
Proof.
  unfold expected_lines, segment_sources. rewrite in_map_iff. split.
  - intros (j & E & Hj). inversion E; subst. apply filter_In in Hj. tauto.
  - intros [-> Hw]. exists i. split; [reflexivity|]. apply filter_In.
    split; [|exact Hw]. apply in_seq. unfold line_wanted in Hw.
    destruct (nth_error sd i) eqn:A; [|discriminate].
    destruct (nth_error sd (S i)) eqn:B; [|discriminate].
    assert (S i < List.length sd)%nat by (apply nth_error_Some; congruence).
    lia.
Qed.

Lemma paint_of_map cur ls l :
  NoDup (List.map id ls) -> In l ls ->
  paint_of (id l) (List.map (fun x => (id x, paint_for cur x)) ls)
  = Some (paint_for cur l).
Proof.
  induction ls as [|x ls IH]; cbn; intros Hnd Hin; [contradiction|].
  inversion Hnd as [|? ? Hna Hnd']; subst.
  destruct Hin as [->|Hin].
  - rewrite Nat.eqb_refl. reflexivity.
  - destruct (Nat.eqb (id l) (id x)) eqn:E.
    + apply Nat.eqb_eq in E. exfalso. apply Hna. rewrite <- E.
      apply in_map. exact Hin.
    + apply IH; assumption.
Qed.

Lemma one_line_per_target ls l1 l2 :
  NoDup (List.map id ls) ->
  (forall l, In l ls -> targetSlideIndex l = Z.of_nat (id l) + 1) ->
  In l1 ls -> In l2 ls -> targetSlideIndex l1 = targetSlideIndex l2 -> l1 = l2.
Proof.
  intros Hnd Ht H1 H2 E.
  rewrite (Ht _ H1), (Ht _ H2) in E.
  assert (Hid : id l1 = id l2) by lia.
  destruct l1 as [i1 t1], l2 as [i2 t2]. cbn in *. subst i2.
  pose proof (Ht _ H1) as A. pose proof (Ht _ H2) as B. cbn in A, B.
  congruence.
Qed.

Lemma expected_lines_target sd l :
  In l (expected_lines sd) -> targetSlideIndex l = Z.of_nat (id l) + 1.
Proof.
  unfold expected_lines. rewrite in_map_iff. intros (j & <- & _). reflexivity.
Qed.


(** ** Deactivation *)

(** C6 (amended). [moveMarkerToInactive(index)] never reads [index]: it
    behaves the same for every index; it is a no-op when no marker is
    active; and when a marker is active it returns, empties the active set
    and appends the index of that marker to the inactive set, whatever
    [index] is. *)
Theorem moveMarkerToInactive_ignores_index index s :
  (forall j, moveMarkerToInactive j s = moveMarkerToInactive index s) /\
  (activeSet s = [] -> moveMarkerToInactive index s = Ret tt s) /\
  (forall m ia f rest,
     map s = Some m -> inactive_markers m = Some ia ->
     active_marker m = Some (f :: rest) ->
     returns (moveMarkerToInactive index s) = true /\
     activeSet (after (moveMarkerToInactive index s)) = [] /\
     inactiveSet (after (moveMarkerToInactive index s))
     = inactiveSet s ++ [slideIndex f]).
Proof.
  split; [reflexivity|]. split.
  - unfold activeSet, moveMarkerToInactive. unfold_m.
    destruct (map s) as [m|]; [|reflexivity].
    destruct (active_marker m) as [[|f rest]|]; cbn; [reflexivity|discriminate|reflexivity].
  - intros m ia f rest Hm Hia Hac.
    destruct s as [ft sd cur an m0 ls d ts]; cbn in Hm; subst m0.
    destruct m as [ia0 ac0 ll fl ld]; cbn in Hia, Hac; subst ia0 ac0.
    unfold moveMarkerToInactive, activeSet, inactiveSet. unfold_m. cbn.
    split; [reflexivity|]. split; [reflexivity|].
    unfold indices. rewrite map_app. reflexivity.
Qed.

(** ** Round trip *)


Lemma valid_at_range sd i : valid_at sd i = true -> 0 <= i < Z.of_nat (List.length sd).
Proof.
  unfold valid_at. intros H.
  destruct (Z_lt_dec i 0) as [A|A]; [rewrite nth_slide_none in H by lia; discriminate|].
  destruct (Z_lt_dec i (Z.of_nat (List.length sd))) as [B|B]; [lia|].
  rewrite nth_slide_none in H by lia. discriminate.
Qed.

Lemma transitionTo_runs s sd m i :
  storyData s = Some sd -> map s = Some m -> markers_pre sd m ->
  valid_at sd i = true ->
  runs (transitionTo i) s (fun _ s' =>
    exists ia' g,
      s' = set_map (Some (set_active (Some [g]) (set_inactive (Some ia') m)))
                   (set_currentSlideIndex i s) /\
      slideIndex g = i /\
      Permutation (indices ia' ++ [i]) (valid_indices sd)).
Proof.
  intros Hsd Hm Hpre Hv. unfold transitionTo. apply runs_bind, runs_modify.
  eapply runs_weaken.
  - eapply updateMarkerColors_runs; cbn; eauto. apply valid_at_range. exact Hv.
  - cbn. intros [] s' (ia' & ac' & -> & Hp & Hok).
    destruct ac' as [|g [|h ac']]; cbn in Hok.
    + congruence.
    + destruct Hok as [Hg _]. exists ia', g. split; [reflexivity|].
      split; [exact Hg|]. rewrite indices_app in Hp. cbn in Hp. rewrite Hg in Hp.
      exact Hp.
    + contradiction.
Qed.

(** C9. In a reachable state with markers, where [a] is the active
    member and [b] is inactive, the marker update of a move to [b] followed
    by that of a move back to [a] both return, make [b] and then [a] the
    one active member, and leave the inactive set with the same indices as
    before. *)
Theorem transition_round_trip s a b :
  reachable s -> markers_created s = true ->
  activeSet s = [a] -> In b (inactiveSet s) ->
  returns (transitionTo b s) = true /\
  returns (transitionTo a (after (transitionTo b s))) = true /\
  activeSet (after (transitionTo b s)) = [b] /\
  activeSet (after (transitionTo a (after (transitionTo b s)))) = [a] /\
  Permutation (inactiveSet (after (transitionTo a (after (transitionTo b s)))))
              (inactiveSet s).
Proof.
  intros Hr Hc Ha Hb. pose proof (reachable_Inv s Hr) as HI.
  destruct (Inv_loaded s HI (markers_created_loaded s HI Hc))
    as (sd & m & Hsd & Hm & Hcur & Hmk & _).
  pose proof (markers_ok_pre _ _ _ Hmk) as Hpre.
  destruct Hmk as (ia & ac & Hia & Hac & Hp & Hok).
  unfold activeSet, inactiveSet in Ha, Hb |- *. rewrite Hm in Ha, Hb.
  rewrite Hac in Ha. rewrite Hia in Hb. cbn in Ha, Hb.
  assert (Hva : valid_at sd a = true).
  { apply in_valid_indices. eapply Permutation_in; [exact Hp|].
    rewrite indices_app, Ha. apply in_or_app. right. cbn. auto. }
  assert (Hvb : valid_at sd b = true).
  { apply in_valid_indices. eapply Permutation_in; [exact Hp|].
    rewrite indices_app. apply in_or_app. left. exact Hb. }
  pose proof (transitionTo_runs s sd m b Hsd Hm Hpre Hvb) as H1.
  apply runs_after in H1. destruct H1 as [(ia1 & g & E1 & Hg & Hp1) R1].
  rewrite E1.
  set (m1 := set_active (Some [g]) (set_inactive (Some ia1) m)) in *.
  set (s1 := set_map (Some m1) (set_currentSlideIndex b s)) in *.
  assert (Hpre1 : markers_pre sd m1).
  { exists ia1, [g]. cbn. repeat split; auto.
    rewrite indices_app. cbn. rewrite Hg. exact Hp1. }
  pose proof (transitionTo_runs s1 sd m1 a Hsd eq_refl Hpre1 Hva) as H2.
  apply runs_after in H2. destruct H2 as [(ia2 & h & E2 & Hh & Hp2) R2].
  rewrite E2.
  split; [exact R1|]. split; [exact R2|].
  cbn. rewrite Hm, Hia. cbn.
  rewrite Hg, Hh. split; [reflexivity|]. split; [reflexivity|].
  apply Permutation_app_inv_r with (l := [a]).
  rewrite Hp2. rewrite <- Hp. rewrite indices_app, Ha. reflexivity.
Qed.


(** ** Calls that leave the busy flag and the timers alone *)


Lemma quiet_ret {A} (a : A) : quiet (ret a).
Proof. intros s. split; reflexivity. Qed.

Lemma quiet_throw {A} e : quiet (@throw State A e).
Proof. intros s. split; reflexivity. Qed.

Lemma quiet_gets {A} (f : State -> A) : quiet (gets f).
Proof. intros s. split; reflexivity. Qed.

Lemma quiet_bind {A B} (c : M A) (k : A -> M B) :
  quiet c -> (forall a, quiet (k a)) -> quiet (bind c k).
Proof.
  intros Hc Hk s. unfold bind. specialize (Hc s).
  destruct (c s) as [a s'|e s']; cbn in *; [|exact Hc].
  destruct (Hk a s') as [H1 H2]. destruct Hc as [H3 H4]. split; congruence.
Qed.

Lemma quiet_when (b : bool) (c : M unit) : quiet c -> quiet (when b c).
Proof. destruct b; [auto|intros _; apply quiet_ret]. Qed.

Lemma quiet_modify (f : State -> State) :
  (forall s, isAnimating (f s) = isAnimating s /\ timers (f s) = timers s) ->
  quiet (modify f).
Proof. intros H s. apply H. Qed.

Lemma quiet_on_map f : quiet (on_map f).
Proof.
  apply quiet_modify. intros s. destruct (map s); split; reflexivity.
Qed.

Lemma quiet_on_dom f : quiet (on_dom f).
Proof. apply quiet_modify. intros s. split; reflexivity. Qed.

Lemma quiet_set_index i : quiet (modify (set_currentSlideIndex i)).
Proof. apply quiet_modify. intros s. split; reflexivity. Qed.

Lemma quiet_set_lines f : quiet (modify (fun s => set_lines (f s) s)).
Proof. apply quiet_modify. intros s. split; reflexivity. Qed.

Create HintDb quiet.

Ltac quiet_step :=
  first
    [ solve [auto 1 with quiet nocore]
    | apply quiet_ret | apply quiet_throw | apply quiet_gets
    | apply quiet_on_map | apply quiet_on_dom | apply quiet_set_index
    | apply quiet_set_lines
    | apply quiet_when
    | apply quiet_bind; [|intros ?]
    | match goal with
      | |- quiet (match ?x with _ => _ end) => destruct x
      end ].

Ltac quiet_auto := repeat quiet_step; auto.

Lemma quiet_storyData_at i : quiet (storyData_at i).
Proof. unfold storyData_at. quiet_auto. Qed.
#[local] Hint Resolve quiet_storyData_at : quiet.

Lemma quiet_storyData_length : quiet storyData_length.
Proof. unfold storyData_length. quiet_auto. Qed.
#[local] Hint Resolve quiet_storyData_length : quiet.

Lemma quiet_deref o : quiet (deref o).
Proof. unfold deref. quiet_auto. Qed.
#[local] Hint Resolve quiet_deref : quiet.

Lemma quiet_flyToSlide i : quiet (flyToSlide i).
Proof. unfold flyToSlide. quiet_auto. Qed.
#[local] Hint Resolve quiet_flyToSlide : quiet.

Lemma quiet_updateProgress : quiet updateProgress.
Proof. unfold updateProgress. quiet_auto. Qed.
#[local] Hint Resolve quiet_updateProgress : quiet.

Lemma quiet_updateButtonStates : quiet updateButtonStates.
Proof. unfold updateButtonStates. quiet_auto. Qed.
#[local] Hint Resolve quiet_updateButtonStates : quiet.

Lemma quiet_updateBackground sl : quiet (updateBackground sl).
Proof. unfold updateBackground. quiet_auto. Qed.
#[local] Hint Resolve quiet_updateBackground : quiet.

Lemma quiet_updateLineColors : quiet updateLineColors.
Proof. unfold updateLineColors. quiet_auto. Qed.
#[local] Hint Resolve quiet_updateLineColors : quiet.

Lemma quiet_moveMarkerToInactive i : quiet (moveMarkerToInactive i).
Proof. unfold moveMarkerToInactive. quiet_auto. Qed.
#[local] Hint Resolve quiet_moveMarkerToInactive : quiet.

Lemma quiet_moveMarkerToActive i : quiet (moveMarkerToActive i).
Proof. unfold moveMarkerToActive. quiet_auto. Qed.
#[local] Hint Resolve quiet_moveMarkerToActive : quiet.

Lemma quiet_updateMarkerColors : quiet updateMarkerColors.
Proof.
  unfold updateMarkerColors, getPreviouslyActiveMarkerIndex.
  quiet_auto.
Qed.
#[local] Hint Resolve quiet_updateMarkerColors : quiet.

Lemma quiet_updateMapElements : quiet updateMapElements.
Proof.
  unfold updateMapElements.
  quiet_auto. 
Qed.
#[local] Hint Resolve quiet_updateMapElements : quiet.

(** Without a direction the content is swapped at once. *)
Lemma quiet_updateContent sl : quiet (updateContent sl DNone).
Proof.
  unfold updateContent, updateSlideContent. cbn [is_none negb andb].
  quiet_auto.
Qed.
#[local] Hint Resolve quiet_updateContent : quiet.

Lemma quiet_updateSlide : quiet (updateSlide DNone).
Proof.
  unfold updateSlide.
  quiet_auto.
Qed.
#[local] Hint Resolve quiet_updateSlide : quiet.

Lemma quiet_navigateToSlide i : quiet (navigateToSlide i).
Proof.
  unfold navigateToSlide.
  quiet_auto.
Qed.
#[local] Hint Resolve quiet_navigateToSlide : quiet.

Lemma quiet_restart : quiet restart.
Proof.
  unfold restart, find_valid.
  quiet_auto.
Qed.
#[local] Hint Resolve quiet_restart : quiet.


Lemma quiet_jump e : is_jump e = true -> quiet (dispatch e).
Proof.
  destruct e; try discriminate; intros _;
    unfold dispatch, on_marker_click, goToSlide; quiet_auto.
Qed.

Lemma navigateToSlide_accepts s i sd :
  Inv s -> storyData s = Some sd -> isAnimating s = false ->
  0 <= i < Z.of_nat (List.length sd) ->
  runs (navigateToSlide i) s (fun _ s' =>
    currentSlideIndex s' = i /\ storyData s' = storyData s).
Proof.
  intros HI Hsd Hb Hi. unfold navigateToSlide.
  destruct (0 <=? i) eqn:E0; [|apply Z.leb_gt in E0; lia].
  eapply runs_seq; [eapply storyData_length_runs; exact Hsd|].
  cbn. intros a s0 [-> ->]. apply runs_bind, runs_gets. rewrite Hb.
  destruct (i <? Z.of_nat (List.length sd)) eqn:E1; [|apply Z.ltb_ge in E1; lia].
  cbn [andb negb when]. apply runs_bind, runs_modify.
  eapply runs_weaken; [eapply updateSlide_at; eauto|].
  cbn. intros [] s' [(_ & _ & Hs & _) Hc]. auto.
Qed.

Lemma last_cons_default {A} (l : list A) : forall x d d',
  last (x :: l) d = last (x :: l) d'.
Proof.
  induction l as [|y l IH]; intros x d d'; [reflexivity|].
  change (last (y :: l) d = last (y :: l) d'). apply IH.
Qed.

Lemma jumps_accepted targets : forall s,
  reachable s -> isAnimating s = false ->
  Forall (fun t => 0 <= t < story_length s) targets ->
  isAnimating (run (List.map CallGoToSlide targets) s) = false /\
  currentSlideIndex (run (List.map CallGoToSlide targets) s)
  = last targets (currentSlideIndex s).
Proof.
  induction targets as [|t targets IH]; intros s Hr Hb Hall; cbn [List.map run].
  - auto.
  - inversion Hall as [|? ? Ht Hall']; subst.
    pose proof (reachable_Inv s Hr) as HI.
    pose proof HI as (sd & m & Hsd & _).
    unfold story_length in Ht, Hall'. rewrite Hsd in Ht, Hall'.
    pose proof (navigateToSlide_accepts s t sd HI Hsd Hb Ht) as Hn.
    apply runs_after in Hn. destruct Hn as [[Hc Hs] _].
    destruct (quiet_navigateToSlide t s) as [Hq _].
    change (dispatch (CallGoToSlide t) s) with (navigateToSlide t s).
    destruct (IH (after (navigateToSlide t s))) as [H1 H2].
    + apply (reach_event s (CallGoToSlide t)). exact Hr.
    + congruence.
    + unfold story_length. rewrite Hs, Hsd. exact Hall'.
    + split; [exact H1|]. rewrite H2, Hc.
      destruct targets as [|z targets]; [reflexivity|].
      change (last (z :: targets) t = last (z :: targets) (currentSlideIndex s)).
      apply last_cons_default.
Qed.

Lemma jumps_stay_idle es : forall s,
  forallb is_jump es = true -> isAnimating (run es s) = isAnimating s.
Proof.
  induction es as [|e es IH]; intros s H; cbn in *; [reflexivity|].
  apply andb_prop in H. destruct H as [He Hes].
  rewrite (IH _ Hes). apply quiet_jump. exact He.
Qed.


(** ** Concrete runs *)

Import Demo.

Lemma reachable_run es : forall s, reachable s -> reachable (run es s).
Proof.
  induction es as [|e es IH]; intros s Hr; cbn; [exact Hr|].
  apply IH. apply reach_event. exact Hr.
Qed.

Lemma reachable_startedA : reachable startedA.
Proof. apply reach_started. reflexivity. Qed.

Lemma reachable_startedB : reachable startedB.
Proof. apply reach_started. reflexivity. Qed.


Lemma busy_requests_dropped_witness :
  isAnimating movingA = true /\ dispatch ClickPrev movingA = Ret tt movingA.
Proof.
  split; [reflexivity|].
  apply (busy_requests_dropped movingA ClickPrev).
  - apply reachable_run. exact reachable_startedA.
  - reflexivity.
  - reflexivity.
Defined.

(** C6 fails as stated: with slide 0 active, deactivating index 7 empties
    the active set and puts slide 0 back among the inactive ones. *)
Lemma deactivate_moves_whatever_index :
  activeSet loadedA = [0] /\ inactiveSet loadedA = [1; 2] /\
  activeSet (after (moveMarkerToInactive 7 loadedA)) = [] /\
  inactiveSet (after (moveMarkerToInactive 7 loadedA)) = [1; 2; 0].
Proof. repeat split; vm_compute; reflexivity. Qed.

Lemma moveMarkerToInactive_ignores_index_witness :
  moveMarkerToInactive 7 startedA = Ret tt startedA /\
  returns (moveMarkerToInactive 7 handmade) = true /\
  activeSet (after (moveMarkerToInactive 7 handmade)) = [] /\
  inactiveSet (after (moveMarkerToInactive 7 handmade)) = inactiveSet handmade ++ [0].
Proof.
  split.
  - destruct (moveMarkerToInactive_ignores_index 7 startedA) as (_ & H & _).
    exact (H eq_refl).
  - destruct (moveMarkerToInactive_ignores_index 7 handmade) as (_ & _ & H).
    exact (H handmade_map [marker 1 false; marker 2 false] (marker 0 true) []
             eq_refl eq_refl eq_refl).
Defined.



Lemma transition_round_trip_witness :
  activeSet (after (transitionTo 0 (after (transitionTo 2 loadedA)))) = [0] /\
  Permutation
    (inactiveSet (after (transitionTo 0 (after (transitionTo 2 loadedA)))))
    (inactiveSet loadedA).
Proof.
  destruct (transition_round_trip loadedA 0 2) as (_ & _ & _ & H1 & H2).
  - apply reachable_run. exact reachable_startedA.
  - reflexivity.
  - reflexivity.
  - vm_compute. right. left. reflexivity.
  - split; assumption.
Defined.


(** ** The scenarios of the specification *)

(** Scenario A *)
Example scenario_A :
  lines loadedA = [mkLine 0 1] /\
  layers_of (run [MapLoad; CallGoToSlide 1] startedA) = [(0%nat, LineColorActive)] /\
  layers_of (run [MapLoad; CallGoToSlide 1; CallGoToSlide 2] startedA)
  = [(0%nat, LineColor)].
Proof. repeat split; vm_compute; reflexivity. Qed.

(** Scenario B *)
Example scenario_B :
  activeSet (run [MapLoad; CallGoToSlide 1] startedB) = [] /\
  flights_of (run [MapLoad; CallGoToSlide 1] startedB) = flights_of loadedB /\
  activeSet (run [MapLoad; CallGoToSlide 1; CallGoToSlide 2] startedB) = [2].
Proof. repeat split; vm_compute; reflexivity. Qed.

(** Scenario D *)
Example scenario_D :
  currentSlideIndex movingA = 1 /\ isAnimating movingA = true /\
  run [ClickPrev] movingA = movingA /\
  isAnimating (run [TimerFires; TimerFires] movingA) = false /\
  currentSlideIndex (run [TimerFires; TimerFires; ClickPrev] movingA) = 0.
Proof. repeat split; vm_compute; reflexivity. Qed.

End CoreFacts.

(* ===================================================================== *)
(** * Language switch: proofs                                             *)
(* ===================================================================== *)

Module LangFacts.
Import JS Core.

Lemma agree_upto_21 : App.agree_upto 21 = true.
Proof. vm_compute. reflexivity. Qed.

Lemma agree_upto_spec N :
  App.agree_upto N = true ->
  forall i L L', (i < L <= N)%nat -> (1 <= L' <= N)%nat -> App.agrees i L L' = true.
Proof.
  unfold App.agree_upto. intros H i L L' Hi HL'.
  apply (proj1 (forallb_forall _ _)) with (x := L) in H; [|apply in_seq; lia].
  apply (proj1 (forallb_forall _ _)) with (x := L') in H; [|apply in_seq; lia].
  apply (proj1 (forallb_forall _ _)) with (x := i) in H; [|apply in_seq; lia].
  exact H.
Qed.

Lemma agrees_small i L L' :
  (i < L <= 21)%nat -> (1 <= L' <= 21)%nat -> App.agrees i L L' = true.
Proof. exact (agree_upto_spec 21 agree_upto_21 i L L'). Qed.

Lemma assoc_eqb_neq (a b : string) : a <> b -> String.eqb a b = false.
Proof. intros H. apply String.eqb_neq. exact H. Qed.



(** In binary64 the ratio of 15 over 22, times 22, falls below 15. *)
Example rounding_moves_back :
  App.index_value (App.newSlideIndex (App.of_Z 15) 22 22) = Some 14 /\
  ratio_index 15 22 22 = 15.
Proof. split; vm_compute; reflexivity. Qed.


End LangFacts.

(* ===================================================================== *)
(** * Initialisation: proofs                                              *)
(* ===================================================================== *)

Module InitFacts.
Import JS Geo Eff Eff.Notations Init.

Ltac unfold_eff :=
  unfold bind, gets, modify, ret, throw, when, try_catch, await, prop in *.

(** A read that fails leaves the object as it was. *)
Lemma select_slides_state data i :
  after (select_slides data i) = i.
Proof.
  unfold select_slides. unfold_eff.
  destruct (nullish data); cbn; [reflexivity|].
  destruct (truthy _); cbn; [reflexivity|].
  destruct (truthy _); reflexivity.
Qed.

(** [loadStoryData] assigns [this.storyData] last: when it throws, the
    object is untouched; when it returns, only [storyData] has changed. *)
Lemma loadStoryData_effect fetch i :
  match loadStoryData fetch i with
  | Ret _ i' => exists v, i' = set_storyData v i
  | Throw _ i' => i' = i
  end.
Proof.
  unfold loadStoryData. unfold_eff.
  destruct (dataLoader (config i)) as [[v|e]|]; cbn; [eauto|reflexivity|].
  destruct (jsonUrl (config i)) as [url|]; cbn; [|reflexivity].
  destruct (negb (url =? "")%string); cbn; [|reflexivity].
  destruct (fetch url) as [[data|e]|e]; cbn; try reflexivity.
  pose proof (select_slides_state data i) as H.
  destruct (select_slides data i) as [v i'|e i']; cbn in H; subst i'; eauto.
Qed.

Lemma find_valid_effect items : forall i,
  after (find_valid items i) = i.
Proof.
  induction items as [|slide rest IH]; intros i; cbn; [reflexivity|].
  unfold_eff. destruct (nullish slide); cbn; [reflexivity|].
  destruct (valid _); cbn; [reflexivity|apply IH].
Qed.

Lemma first_valid_effect sd (i : Instance) :
  after (match sd with
         | VArr items => find_valid items
         | _ => throw TypeError
         end i) = i.
Proof.
  destruct sd; try reflexivity. apply find_valid_effect.
Qed.

(** [initializeMap] sets [this.map] last. *)
Lemma initializeMap_effect i :
  match initializeMap i with
  | Ret _ i' => exists slide, i' = set_map (Some slide) i
  | Throw _ i' => i' = i
  end.
Proof.
  unfold initializeMap. unfold bind at 1. unfold gets at 1. cbn beta iota.
  unfold bind at 1.
  pose proof (first_valid_effect (storyData i) i) as H.
  match type of H with
  | after ?o = _ => destruct o as [[slide|] s'|e s']
  end; cbn in H; subst s'; unfold_eff; cbn; try reflexivity.
  destruct (mapInitializer (config i) || given (mapProvider (config i)))%bool;
    cbn; [eauto|reflexivity].
Qed.



(** A document without slides loads, and [initializeMap] fails on it. *)
Example malformed_schema :
  let fetch : Fetch := fun _ => Fulfilled (Fulfilled (VObj [("title", VStr "x")])) in
  initialize fetch (fresh from_url)
  = Ret tt (mkInstance from_url (VObj [("title", VStr "x")]) None false [TypeError]).
Proof. reflexivity. Qed.

Example well_formed_story :
  let slide := VObj [("location", loc (VStr "1") (VStr "2"))] in
  let fetch : Fetch :=
    fun _ => Fulfilled (Fulfilled (VObj [("storymap", VObj [("slides", VArr [slide])])])) in
  initialize fetch (fresh from_url)
  = Ret tt (mkInstance from_url (VArr [slide]) (Some slide) true []).
Proof. vm_compute. reflexivity. Qed.


End InitFacts.

(* ===================================================================== *)
(** * The engine seen from outside: proofs                                *)
(* ===================================================================== *)

Module ViewFacts.
Import JS Geo Eff Eff.Notations Core View CoreFacts.

(** ** Calls that leave a view alone *)

Lemma frames_ret {V A} (v : State -> V) (a : A) : frames v (ret a).
Proof. intros s. reflexivity. Qed.

Lemma frames_throw {V A} (v : State -> V) e : frames v (@throw State A e).
Proof. intros s. reflexivity. Qed.

Lemma frames_gets {V A} (v : State -> V) (f : State -> A) : frames v (gets f).
Proof. intros s. reflexivity. Qed.

Lemma frames_bind {V A B} (v : State -> V) (c : M A) (k : A -> M B) :
  frames v c -> (forall a, frames v (k a)) -> frames v (bind c k).
Proof.
  intros Hc Hk s. unfold bind. specialize (Hc s).
  destruct (c s) as [a s'|e s']; cbn in *; [|exact Hc].
  rewrite (Hk a s'). exact Hc.
Qed.

Lemma frames_when {V} (v : State -> V) (b : bool) (c : M unit) :
  frames v c -> frames v (when b c).
Proof. destruct b; [auto|intros _; apply frames_ret]. Qed.

Lemma frames_modify {V} (v : State -> V) (f : State -> State) :
  (forall s, v (f s) = v s) -> frames v (modify f).
Proof. intros H s. apply H. Qed.

Ltac frames_field :=
  intros [ft sd cur an [[ia ac ll fl ld]|] ls [cw sh sc pb nb rb pg] ts]; cbn;
  repeat (match goal with
          | |- context [match ?x with _ => _ end] => destruct x; cbn
          end);
  reflexivity.

Create HintDb frames.

Ltac frames_step :=
  first
    [ solve [auto 1 with frames nocore]
    | apply frames_ret | apply frames_throw | apply frames_gets
    | apply frames_when
    | apply frames_bind; [|intros ?]
    | apply frames_modify; frames_field
    | match goal with
      | |- frames _ (match ?x with _ => _ end) => destruct x
      end ].

Ltac frames_auto := unfold on_map, on_dom; repeat frames_step.

Lemma frames_updateButtonStates : frames tail_view updateButtonStates.
Proof. unfold updateButtonStates, storyData_length. frames_auto. Qed.

Lemma frames_updateBackground sl : frames tail_view (updateBackground sl).
Proof. unfold updateBackground. frames_auto. Qed.

Lemma frames_updateLineColors : frames tail_view updateLineColors.
Proof. unfold updateLineColors. frames_auto. Qed.

Lemma frames_moveMarkerToInactive i : frames tail_view (moveMarkerToInactive i).
Proof. unfold moveMarkerToInactive. frames_auto. Qed.

Lemma frames_moveMarkerToActive i : frames tail_view (moveMarkerToActive i).
Proof. unfold moveMarkerToActive. frames_auto. Qed.

Lemma frames_updateMarkerColors : frames tail_view updateMarkerColors.
Proof.
  pose proof frames_moveMarkerToInactive. pose proof frames_moveMarkerToActive.
  unfold updateMarkerColors, getPreviouslyActiveMarkerIndex, storyData_at, deref.
  frames_auto; auto.
Qed.

Lemma frames_updateMapElements : frames tail_view updateMapElements.
Proof.
  pose proof frames_updateLineColors. pose proof frames_updateMarkerColors.
  unfold updateMapElements. frames_auto; auto.
Qed.

Lemma frames_tail sl :
  frames tail_view
    (bind updateButtonStates
       (fun _ => bind (updateBackground sl) (fun _ => updateMapElements))).
Proof.
  apply frames_bind; [apply frames_updateButtonStates|]. intros _.
  apply frames_bind; [apply frames_updateBackground|]. intros _.
  apply frames_updateMapElements.
Qed.

Lemma tail_view_inv s s' :
  tail_view s' = tail_view s ->
  base s' = base s /\ panel s' = panel s /\ flights_of s' = flights_of s /\
  progress_of s' = progress_of s.
Proof. unfold tail_view. intros H. repeat split; congruence. Qed.

(** ** The effect of [updateSlide] *)

Lemma bind_ret_eq {A B} (c : M A) (k : A -> M B) s a s1 :
  c s = Ret a s1 -> bind c k s = k a s1.
Proof. intros H. unfold bind. rewrite H. reflexivity. Qed.

Lemma updateSlide_unfold d s sd sl :
  storyData s = Some sd -> nth_slide sd (currentSlideIndex s) = Some sl ->
  updateSlide d s
  = bind (updateContent sl d)
      (fun _ => bind (when (valid (location sl)) (flyToSlide (currentSlideIndex s)))
      (fun _ => bind updateProgress
      (fun _ => bind updateButtonStates
      (fun _ => bind (updateBackground sl) (fun _ => updateMapElements))))) s.
Proof.
  intros Hsd Hsl. unfold updateSlide, storyData_at.
  unfold bind at 1. unfold gets at 1. unfold bind at 1. unfold bind at 1.
  unfold gets at 1. rewrite Hsd. unfold ret at 1. rewrite Hsl. reflexivity.
Qed.

Lemma updateContent_effect sl d s :
  exists s1, updateContent sl d s = Ret tt s1 /\ content_step sl d s s1.
Proof.
  destruct s as [ft sd cur an m ls [cw sh sc pb nb rb pg] ts].
  unfold updateContent, animateSlideTransition, updateSlideContent,
    on_classList, setTimeout, content_step. unfold_m. cbn.
  destruct cw as [cl|]; cbn.
  - destruct (negb (is_none d) && animations ft && negb an); cbn;
      eexists; (split; [reflexivity|]); cbn; repeat split; discriminate.
  - eexists. split; [reflexivity|]. cbn. repeat split.
Qed.

(** The camera step. *)
Lemma fly_effect (b : bool) i s sd :
  storyData s = Some sd ->
  exists s2, when b (flyToSlide i) s = Ret tt s2 /\
    base s2 = base s /\ panel s2 = panel s /\ progress_of s2 = progress_of s /\
    flights_of s2 =
      match map s with
      | Some _ => if b && valid_at sd i then i :: flights_of s else flights_of s
      | None => []
      end.
Proof.
  intros Hsd.
  destruct s as [ft sd0 cur an m ls dm ts]; cbn in *; subst sd0.
  destruct b; cbn [when andb].
  - unfold flyToSlide, storyData_at, valid_at. unfold_m. cbn.
    destruct (nth_slide sd i) as [sl|]; cbn.
    + destruct m as [m|]; cbn.
      * destruct (valid (location sl)); cbn; eexists; (split; [reflexivity|]);
          cbn; repeat split.
      * eexists. split; [reflexivity|]. cbn. repeat split.
    + eexists. split; [reflexivity|]. destruct m; cbn; repeat split.
  - eexists. split; [reflexivity|]. destruct m; cbn; repeat split.
Qed.

Lemma progress_effect s sd :
  storyData s = Some sd ->
  exists s3, updateProgress s = Ret tt s3 /\
    base s3 = base s /\ panel s3 = panel s /\ flights_of s3 = flights_of s /\
    progress_of s3 =
      match progress_of s with
      | Some _ => Some (Some (currentSlideIndex s + 1, Z.of_nat (List.length sd)))
      | None => None
      end.
Proof.
  intros Hsd.
  destruct s as [ft sd0 cur an m ls [cw sh sc pb nb rb pg] ts]; cbn in *; subst sd0.
  unfold updateProgress. unfold_m. cbn.
  destruct pg; cbn; eexists; (split; [reflexivity|]); cbn; repeat split.
Qed.

(** What [updateSlide] does to the story, the panel, the camera and the
    progress text, on a slide that exists. *)
Lemma updateSlide_effect d s sd sl :
  storyData s = Some sd -> nth_slide sd (currentSlideIndex s) = Some sl ->
  exists s1,
    content_step sl d s s1 /\
    base (after (updateSlide d s)) = base s /\
    panel (after (updateSlide d s)) = panel s1 /\
    flights_of (after (updateSlide d s)) =
      match map s with
      | Some _ => if valid (location sl)
                  then currentSlideIndex s :: flights_of s else flights_of s
      | None => []
      end /\
    progress_of (after (updateSlide d s)) =
      match progress_of s with
      | Some _ => Some (Some (currentSlideIndex s + 1, Z.of_nat (List.length sd)))
      | None => None
      end.
Proof.
  intros Hsd Hsl. rewrite (updateSlide_unfold d s sd sl Hsd Hsl).
  destruct (updateContent_effect sl d s) as (s1 & E1 & C1).
  pose proof C1 as (B1 & M1 & L1 & P1 & _).
  assert (Hsd1 : storyData s1 = Some sd)
    by (unfold base in B1; injection B1 as -> _ _ _; exact Hsd).
  assert (Hc1 : currentSlideIndex s1 = currentSlideIndex s)
    by (unfold base in B1; injection B1 as _ -> _ _; reflexivity).
  destruct (fly_effect (valid (location sl)) (currentSlideIndex s) s1 sd Hsd1)
    as (s2 & E2 & B2 & N2 & P2 & F2).
  assert (Hsd2 : storyData s2 = Some sd)
    by (unfold base in B2; injection B2 as -> _ _ _; exact Hsd1).
  destruct (progress_effect s2 sd Hsd2) as (s3 & E3 & B3 & N3 & F3 & P3).
  rewrite (bind_ret_eq _ _ _ _ _ E1), (bind_ret_eq _ _ _ _ _ E2),
    (bind_ret_eq _ _ _ _ _ E3).
  destruct (tail_view_inv _ _ (frames_tail sl s3)) as (Hb & Hp & Hf & Hg).
  exists s1. split; [exact C1|].
  rewrite Hb, Hp, Hf, Hg, B3, N3, F3, P3, B2, N2, F2, P2, B1, P1.
  assert (Hc2 : currentSlideIndex s2 = currentSlideIndex s)
    by (unfold base in B2; injection B2 as _ -> _ _; exact Hc1).
  rewrite Hc2, M1.
  unfold valid_at. rewrite Hsl.
  assert (Hf1 : flights_of s1 = flights_of s) by (unfold flights_of; rewrite M1; reflexivity).
  rewrite Hf1. rewrite andb_diag. repeat split; reflexivity.
Qed.

(** ** The shape of a request *)

Lemma moved_renders e d i s sd :
  Inv s -> storyData s = Some sd -> 0 <= i < Z.of_nat (List.length sd) ->
  isAnimating s = false ->
  d = direction_of e -> e <> MapLoad -> e <> TimerFires ->
  dispatch e s = bind (modify (set_currentSlideIndex i)) (fun _ => updateSlide d) s ->
  exists s1, renders e s s1.
Proof.
  intros HI Hsd Hi Hb -> Hl Ht He.
  exists (set_currentSlideIndex i s). split; [eapply Inv_PreInv; eauto|].
  split; [exact He|]. split; [repeat split|].
  destruct e; try congruence; split; auto.
Qed.

Lemma navigatePrevious_shape s :
  navigatePrevious s = Ret tt s \/
  (0 < currentSlideIndex s /\ isAnimating s = false /\
   navigatePrevious s
   = bind (modify (set_currentSlideIndex (currentSlideIndex s - 1)))
          (fun _ => updateSlide DPrev) s).
Proof.
  destruct (0 <? currentSlideIndex s) eqn:E, (isAnimating s) eqn:Hb;
    try (left; unfold navigatePrevious, bind, gets; rewrite E, Hb; reflexivity).
  right. apply Z.ltb_lt in E. split; [exact E|]. split; [reflexivity|].
  unfold navigatePrevious, bind, gets, modify.
  rewrite (proj2 (Z.ltb_lt _ _) E), Hb. reflexivity.
Qed.

Lemma navigateNext_shape s sd :
  storyData s = Some sd ->
  navigateNext s = Ret tt s \/
  (currentSlideIndex s < Z.of_nat (List.length sd) - 1 /\ isAnimating s = false /\
   navigateNext s
   = bind (modify (set_currentSlideIndex (currentSlideIndex s + 1)))
          (fun _ => updateSlide DNext) s).
Proof.
  intros Hsd.
  destruct (currentSlideIndex s <? Z.of_nat (List.length sd) - 1) eqn:E,
           (isAnimating s) eqn:Hb;
    try (left; unfold navigateNext, storyData_length, bind, gets;
         rewrite Hsd; cbn; rewrite E, Hb; reflexivity).
  right. split; [apply Z.ltb_lt; exact E|]. split; [reflexivity|].
  unfold navigateNext, storyData_length, bind, gets, modify.
  rewrite Hsd. cbn. rewrite E, Hb. reflexivity.
Qed.

Lemma navigateToSlide_shape i s sd :
  storyData s = Some sd ->
  navigateToSlide i s = Ret tt s \/
  (0 <= i < Z.of_nat (List.length sd) /\ isAnimating s = false /\
   navigateToSlide i s
   = bind (modify (set_currentSlideIndex i)) (fun _ => updateSlide DNone) s).
Proof.
  intros Hsd. unfold navigateToSlide.
  destruct (0 <=? i) eqn:E0; [|left; reflexivity].
  destruct (i <? Z.of_nat (List.length sd)) eqn:E, (isAnimating s) eqn:Hb;
    try (left; unfold storyData_length, bind, gets;
         rewrite Hsd; cbn; rewrite E, Hb; reflexivity).
  right. apply Z.ltb_lt in E. apply Z.leb_le in E0.
  split; [lia|]. split; [reflexivity|].
  unfold storyData_length, bind, gets, modify.
  rewrite Hsd. cbn. rewrite (proj2 (Z.ltb_lt _ _) E), Hb. reflexivity.
Qed.

Lemma restart_unfold s sd :
  storyData s = Some sd -> isAnimating s = false ->
  restart s
  = bind (match findIndex (fun sl => valid (location sl)) sd with
          | Some k => flyToSlide (Z.of_nat k)
          | None => ret tt
          end)
         (fun _ => updateSlide DNone) (set_currentSlideIndex 0 s).
Proof.
  intros Hsd Hb. destruct s as [ft sd0 cur an m ls d ts]; cbn in Hsd, Hb; subst.
  reflexivity.
Qed.

Lemma restart_renders s :
  Inv s ->
  restart s = Ret tt s \/
  exists s1, PreInv s1 /\ restart s = updateSlide DNone s1 /\ same_page s s1 /\
             isAnimating s = false /\ map_loaded s1 = map_loaded s.
Proof.
  intros HI. pose proof HI as (sd & m & Hsd & Hm & Hcur & H).
  destruct (isAnimating s) eqn:Hb.
  - left. unfold restart, bind, gets. rewrite Hb. reflexivity.
  - right. rewrite (restart_unfold s sd Hsd Hb).
    assert (Hpre : PreInv (set_currentSlideIndex 0 s))
      by (eapply Inv_PreInv; eauto; lia).
    destruct (findIndex _ sd) as [k|].
    + destruct (runs_returns _ _ _
          (flyToSlide_runs (Z.of_nat k) (set_currentSlideIndex 0 s) sd m Hsd Hm))
        as ([] & s1 & E & fl & ->).
      rewrite (bind_ret_eq _ _ _ _ _ E).
      eexists. split; [apply PreInv_flights; [exact Hpre|exact Hm]|].
      split; [reflexivity|]. split; [repeat split|]. split; [reflexivity|].
      unfold map_loaded. cbn. rewrite Hm. reflexivity.
    + eexists. split; [exact Hpre|]. split; [reflexivity|].
      split; [repeat split|]. split; [reflexivity|]. reflexivity.
Qed.

Lemma load_unfold s m :
  map s = Some m -> loaded m = false ->
  dispatch MapLoad s = on_load (set_map (Some (set_loaded true m)) s).
Proof.
  intros Hm Hld. destruct s as [ft sd0 cur an m0 ls d ts]; cbn in Hm; subst m0.
  unfold dispatch, bind, gets, on_map, modify. cbn. rewrite Hld. reflexivity.
Qed.

Lemma load_renders s :
  Inv s ->
  dispatch MapLoad s = Ret tt s \/ exists s1, renders MapLoad s s1.
Proof.
  intros HI. pose proof HI as (sd & m & Hsd & Hm & Hcur & H).
  destruct (loaded m) eqn:Hld.
  - left. unfold dispatch, bind, gets. rewrite Hm, Hld. reflexivity.
  - right. unfold renders. rewrite (load_unfold s m Hm Hld).
    destruct H as (Hia & Hac & Hls & Hll).
    destruct s as [ft sd0 cur an m0 ls d ts]; cbn in *; subst sd0 m0 ls.
    destruct m as [ia ac ll fl ld]; cbn in *; subst ia ac ll ld.
    unfold on_load.
    match goal with |- context [bind createAllLines _ ?s0] => set (s0' := s0) end.
    destruct (runs_returns _ _ _
        (createAllLines_runs s0' sd _ eq_refl eq_refl)) as ([] & sA & EA & ->).
    rewrite (bind_ret_eq _ _ _ _ _ EA).
    match goal with |- context [bind createAllMarkers _ ?s0] => set (sA' := s0) end.
    destruct (runs_returns _ _ _
        (createAllMarkers_runs sA' sd _ eq_refl eq_refl Hcur))
      as ([] & sB & EB & ia' & ac' & -> & Hp & Hok).
    rewrite (bind_ret_eq _ _ _ _ _ EB).
    eexists. split; [|split; [reflexivity|]].
    + exists sd. eexists. cbn.
      split; [reflexivity|]. split; [reflexivity|]. split; [exact Hcur|]. cbn.
      split.
      * exists ia', ac'. cbn. repeat split; auto.
        eapply active_ok_length; eauto.
      * split; [reflexivity|]. cbn. rewrite map_map. cbn. rewrite map_id.
        symmetry. apply expected_lines_ids.
    + split; [repeat split|]. cbn. auto.
Qed.

Lemma dispatch_shape e s :
  Inv s -> e <> TimerFires ->
  dispatch e s = Ret tt s \/ exists s1, renders e s s1.
Proof.
  intros HI Ht. pose proof HI as (sd & m & Hsd & Hm & Hcur & H).
  assert (Hprev : forall e', direction_of e' = DPrev -> e' <> MapLoad ->
             e' <> TimerFires -> dispatch e' s = navigatePrevious s ->
             dispatch e' s = Ret tt s \/ exists s1, renders e' s s1).
  { intros e' Hd H1 H2 He.
    destruct (navigatePrevious_shape s) as [E|(Hlt & Hb & E)];
      [left; rewrite He; exact E|right].
    eapply moved_renders with (i := currentSlideIndex s - 1) (d := DPrev);
      eauto; try lia. rewrite He; exact E. }
  assert (Hnext : forall e', direction_of e' = DNext -> e' <> MapLoad ->
             e' <> TimerFires -> dispatch e' s = navigateNext s ->
             dispatch e' s = Ret tt s \/ exists s1, renders e' s s1).
  { intros e' Hd H1 H2 He.
    destruct (navigateNext_shape s sd Hsd) as [E|(Hlt & Hb & E)];
      [left; rewrite He; exact E|right].
    eapply moved_renders with (i := currentSlideIndex s + 1) (d := DNext);
      eauto; try lia. rewrite He; exact E. }
  assert (Hjump : forall e' i, direction_of e' = DNone -> e' <> MapLoad ->
             e' <> TimerFires -> dispatch e' s = navigateToSlide i s ->
             dispatch e' s = Ret tt s \/ exists s1, renders e' s s1).
  { intros e' i Hd H1 H2 He.
    destruct (navigateToSlide_shape i s sd Hsd) as [E|(Hlt & Hb & E)];
      [left; rewrite He; exact E|right].
    eapply moved_renders with (i := i) (d := DNone); eauto. rewrite He; exact E. }
  destruct e as [| | | |k|layer clicked|i| | |].
  - apply load_renders. exact HI.
  - destruct (prev_btn (dom s)) eqn:Eb.
    + apply Hprev; try reflexivity; try discriminate.
      unfold dispatch, bind, gets. rewrite Eb. reflexivity.
    + left. unfold dispatch, bind, gets. rewrite Eb. reflexivity.
  - destruct (next_btn (dom s)) eqn:Eb.
    + apply Hnext; try reflexivity; try discriminate.
      unfold dispatch, bind, gets. rewrite Eb. reflexivity.
    + left. unfold dispatch, bind, gets. rewrite Eb. reflexivity.
  - destruct (restart_btn (dom s)) eqn:Eb.
    + assert (Ed : dispatch ClickRestart s = restart s)
        by (unfold dispatch, bind, gets; rewrite Eb; reflexivity).
      destruct (restart_renders s HI) as [E|(s1 & Hp & E & Hsp & Hb & Hl)].
      * left. rewrite Ed. exact E.
      * right. exists s1. split; [exact Hp|].
        split; [rewrite Ed; exact E|]. split; [exact Hsp|]. split; assumption.
    + left. unfold dispatch, bind, gets. rewrite Eb. reflexivity.
  - destruct (keyboardNavigation (features s)) eqn:Ek.
    + destruct k.
      * apply Hprev; try reflexivity; try discriminate.
        unfold dispatch, bind, gets. rewrite Ek. reflexivity.
      * apply Hnext; try reflexivity; try discriminate.
        unfold dispatch, bind, gets. rewrite Ek. reflexivity.
      * left. unfold dispatch, bind, gets. rewrite Ek. reflexivity.
    + left. unfold dispatch, bind, gets. rewrite Ek. reflexivity.
  - destruct (layer_source layer m) eqn:El.
    + destruct (negb (clicked =? currentSlideIndex s) && negb (isAnimating s)) eqn:Eg.
      * apply (Hjump _ clicked); try reflexivity; try discriminate.
        unfold dispatch, on_marker_click, bind, gets. rewrite Hm, El, Eg. reflexivity.
      * left. unfold dispatch, on_marker_click, bind, gets.
        rewrite Hm, El, Eg. reflexivity.
    + left. unfold dispatch, bind, gets. rewrite Hm, El. reflexivity.
  - apply (Hjump _ i); try reflexivity; discriminate.
  - apply Hnext; try reflexivity; discriminate.
  - apply Hprev; try reflexivity; discriminate.
  - congruence.
Qed.

(** ** The animation and the panel *)

Lemma base_inv s s' :
  base s' = base s ->
  storyData s' = storyData s /\ currentSlideIndex s' = currentSlideIndex s /\
  features s' = features s /\ map_loaded s' = map_loaded s.
Proof. unfold base. intros H. repeat split; congruence. Qed.

Lemma panel_inv s s' :
  panel s' = panel s ->
  content_wrapper (dom s') = content_wrapper (dom s) /\
  shown (dom s') = shown (dom s) /\
  isAnimating s' = isAnimating s /\ timers s' = timers s.
Proof. unfold panel. intros H. repeat split; congruence. Qed.

Lemma timer_unfold s :
  dispatch TimerFires s
  = match timers s with
    | [] => Ret tt s
    | t :: rest => run_timer t (set_timers rest s)
    end.
Proof.
  unfold dispatch, bind, gets, modify. destruct (timers s); reflexivity.
Qed.

Lemma panel_ok_lock s : panel_ok s -> lock_ok s.
Proof.
  unfold panel_ok, lock_ok. destruct (timers s) as [|[sl d|d] [|t ts]]; tauto.
Qed.

Lemma panel_ok_timer s : panel_ok s -> panel_ok (after (dispatch TimerFires s)).
Proof.
  rewrite timer_unfold.
  destruct s as [ft sd cur an m ls [cw sh sc pb nb rb pg] ts].
  unfold panel_ok, current_slide, map_loaded. cbn.
  destruct ts as [|[sl d|d] [|t ts]]; cbn; try tauto.
  intros [H1 H2]. split; [exact H1|]. symmetry. exact H2.
Qed.

(** A rendered slide leaves the panel and the pending callback in
    agreement with the index. *)
Lemma panel_ok_render e s s1 :
  panel_ok s -> renders e s s1 ->
  panel_ok (after (dispatch e s)).
Proof.
  intros Hp (Hpre & -> & (Hf & Hs & Ha & Hd & Ht) & He).
  destruct Hpre as (sd & m & Hsd & Hm & Hcur & _).
  destruct (nth_slide_some sd _ Hcur) as [sl Hsl].
  destruct (updateSlide_effect (direction_of e) s1 sd sl Hsd Hsl)
    as (s1' & (B1 & _ & _ & _ & C) & B & P & _).
  apply base_inv in B. destruct B as (Bs & Bc & _ & Bl).
  apply panel_inv in P. destruct P as (Pw & Ps & Pa & Pt).
  assert (Hcs : current_slide (after (updateSlide (direction_of e) s1)) = Some sl).
  { unfold current_slide. rewrite Bs, Bc, Hsd. exact Hsl. }
  unfold panel_ok in *. rewrite Hcs, Pt, Pa, Ps, Pw.
  rewrite Hd in C. rewrite Ha, Ht in C.
  destruct (content_wrapper (dom s)) as [cl|] eqn:Ew.
  - destruct C as (Hw & C).
    destruct (negb (is_none (direction_of e)) && animations (features s1)
              && negb (isAnimating s)) eqn:Eg.
    + destruct C as (C1 & C2 & C3). rewrite C1, C2.
      apply andb_prop in Eg. destruct Eg as [_ Eg].
      apply negb_true_iff in Eg. rewrite Eg in Hp.
      destruct (timers s) as [|[sl0 d0|d0] [|t ts]]; cbn; try tauto;
        destruct Hp; discriminate.
    + destruct C as (C1 & C2 & C3). rewrite C1, C2, C3.
      destruct (timers s) as [|[sl0 d0|d0] [|t ts]]; try tauto.
      destruct e; destruct He as (He1 & He2);
        try (destruct Hp; congruence).
      destruct Hp as [Hp1 Hp2]. split; [exact Hp1|]. rewrite <- Hp2.
      unfold current_slide. rewrite <- Hs, <- He1, Hsd, Hsl. reflexivity.
  - apply panel_inv in C. destruct C as (C0 & C1 & C2 & C3).
    rewrite C0, C1, C2, C3, Hd, Ew, Ha, Ht.
    assert (Hidle : isAnimating s = false ->
              match timers s with
              | [] => isAnimating s = false /\
                      (map_loaded (after (updateSlide (direction_of e) s1)) = true ->
                       @None (list string) <> None -> shown (dom s) = Some sl)
              | [ExitDone sl0 _] => isAnimating s = true /\ Some sl = Some sl0
              | [EntranceDone _] => isAnimating s = true /\ shown (dom s) = Some sl
              | _ => False
              end).
    { intros Hb. destruct (timers s) as [|[sl0 d0|d0] [|t ts]];
        try contradiction; try (destruct Hp; congruence).
      split; [exact Hb|]. intros _ Hw. congruence. }
    destruct e; destruct He as (He1 & He2); try (apply Hidle; exact He1).
    assert (Hc0 : current_slide s = Some sl)
      by (unfold current_slide; rewrite <- Hs, <- He1, Hsd; exact Hsl).
    rewrite <- Hc0.
    destruct (timers s) as [|[sl0 d0|d0] [|t ts]]; try contradiction.
    + destruct Hp as [Hp1 _]. split; [exact Hp1|]. intros _ Hw. congruence.
    + destruct Hp as [Hp1 Hp2]. split; [exact Hp1|]. congruence.
    + exact Hp.
Qed.

Lemma panel_ok_event e s :
  Inv s -> panel_ok s -> panel_ok (after (dispatch e s)).
Proof.
  intros HI Hp. destruct e;
    try (apply panel_ok_timer; exact Hp);
    match goal with
    | |- panel_ok (after (dispatch ?e s)) =>
        destruct (dispatch_shape e s HI) as [E|[s1 Hr]];
        [discriminate
        |rewrite E; exact Hp
        |exact (panel_ok_render e s s1 Hp Hr)]
    end.
Qed.

Lemma reachable_panel_ok s : reachable s -> panel_ok s.
Proof.
  induction 1 as [f slides d Hv|s e Hr IH].
  - unfold panel_ok, started. cbn. split; [reflexivity|]. discriminate.
  - apply panel_ok_event; [apply reachable_Inv; exact Hr|exact IH].
Qed.

(** X1. On a story whose slides the content panel renders without an
    exception (the engine state keeps location and headline of a slide,
    and its content update returns), in every reachable state at most one
    callback of the animation is pending, and [isAnimating] is set exactly
    while one is: the flag is never left set without a callback that will
    clear it, and never cleared while one is pending. *)
Theorem one_animation_in_flight s :
  reachable s ->
  (List.length (timers s) <= 1)%nat /\
  (isAnimating s = true <-> timers s <> []).
Proof.
  intros Hr. pose proof (panel_ok_lock s (reachable_panel_ok s Hr)) as H.
  unfold lock_ok in H. destruct (timers s) as [|t [|t' ts]]; cbn.
  - split; [lia|]. rewrite H. split; [discriminate|congruence].
  - split; [lia|]. rewrite H. split; [discriminate|reflexivity].
  - contradiction.
Qed.

(** X2. On a story whose slides the content panel renders without an
    exception, an animation ends: from a reachable state that is
    animating, the two timer callbacks leave the engine idle with no
    callback pending, on the same slide, and the panel shows that
    slide. *)
Theorem animation_completes s :
  reachable s -> isAnimating s = true ->
  isAnimating (run [TimerFires; TimerFires] s) = false /\
  timers (run [TimerFires; TimerFires] s) = [] /\
  getCurrentSlide (run [TimerFires; TimerFires] s) = getCurrentSlide s /\
  shown (dom (run [TimerFires; TimerFires] s)) = current_slide s.
Proof.
  intros Hr Hb. pose proof (reachable_panel_ok s Hr) as H.
  unfold run. rewrite !timer_unfold.
  destruct s as [ft sd cur an m ls [cw sh sc pb nb rb pg] ts].
  unfold panel_ok, current_slide in *. cbn in *. subst an.
  destruct ts as [|[sl d|d] [|t ts]]; cbn in *.
  - destruct H. discriminate.
  - destruct H as [_ H]. repeat split. symmetry. exact H.
  - contradiction.
  - destruct H as [_ H]. repeat split. exact H.
  - contradiction.
Qed.


Lemma progress_ok_timer s :
  progress_of (after (dispatch TimerFires s)) = progress_of s /\
  base (after (dispatch TimerFires s)) = base s.
Proof.
  rewrite timer_unfold.
  destruct s as [ft sd cur an m ls [cw sh sc pb nb rb pg] ts].
  destruct ts as [|[sl d|d] ts]; split; reflexivity.
Qed.

Lemma progress_ok_eq s s' :
  progress_of s' = progress_of s -> base s' = base s ->
  progress_ok s -> progress_ok s'.
Proof.
  intros Hp Hb H x Hx. apply base_inv in Hb. destruct Hb as (Hs & Hc & _).
  unfold getCurrentSlide, getTotalSlides. rewrite Hs, Hc. apply H. congruence.
Qed.

Lemma reachable_progress_ok s :
  reachable s -> map_loaded s = true -> progress_ok s.
Proof.
  induction 1 as [f slides d Hv|s e Hr IH]; [discriminate|].
  intros Hl. pose proof (reachable_Inv s Hr) as HI.
  assert (Hsame : dispatch e s = Ret tt s -> progress_ok (after (dispatch e s))).
  { intros E. rewrite E in *. apply IH. exact Hl. }
  assert (Hrend : forall s1, renders e s s1 -> progress_ok (after (dispatch e s))).
  { intros s1 (Hpre & E & _). rewrite E.
    destruct Hpre as (sd & m & Hsd & Hm & Hcur & _).
    destruct (nth_slide_some sd _ Hcur) as [sl Hsl].
    destruct (updateSlide_effect (direction_of e) s1 sd sl Hsd Hsl)
      as (s1' & _ & B & _ & _ & P).
    apply base_inv in B. destruct B as (Bs & Bc & _).
    intros x Hx. rewrite P in Hx.
    unfold getCurrentSlide, getTotalSlides. rewrite Bs, Bc, Hsd.
    destruct (progress_of s1); [congruence|discriminate]. }
  destruct e;
    try (match goal with
         | |- progress_ok (after (dispatch ?e s)) =>
             destruct (dispatch_shape e s HI) as [E|[s1 Hr1]];
             [discriminate|apply Hsame; exact E|apply (Hrend s1); exact Hr1]
         end).
  destruct (progress_ok_timer s) as [Hp Hb].
  apply (progress_ok_eq s _ Hp Hb). apply IH.
  apply base_inv in Hb. destruct Hb as (_ & _ & _ & Hb). congruence.
Qed.


Lemma run_fixed es : forall s slides f,
  reachable s -> storyData s = Some slides -> features s = f ->
  reachable (run es s) /\ storyData (run es s) = Some slides /\
  features (run es s) = f.
Proof.
  induction es as [|e es IH]; intros s slides f Hr Hs Hf; cbn [run]; [auto|].
  pose proof (dispatch_runs e s (reachable_Inv s Hr)) as Hd.
  apply runs_after in Hd. destruct Hd as [(_ & Hs' & Hf' & _) _].
  apply IH; [apply reach_event; exact Hr|congruence|congruence].
Qed.


(** ** The camera *)

Lemma updateSlide_camera d s m :
  map s = Some m ->
  flights_of (after (updateSlide d s))
  = if current_valid s then currentSlideIndex s :: flights m else flights m.
Proof.
  intros Hm. unfold current_valid, slide_valid, valid_at.
  destruct (storyData s) as [sd|] eqn:Hsd.
  - destruct (nth_slide sd (currentSlideIndex s)) as [sl|] eqn:Hsl.
    + destruct (updateSlide_effect d s sd sl Hsd Hsl) as (s1 & _ & _ & _ & F & _).
      rewrite F, Hm. unfold flights_of. rewrite Hm. reflexivity.
    + unfold updateSlide, storyData_at, bind, gets. rewrite Hsd. cbn.
      rewrite Hsl. cbn. unfold flights_of. rewrite Hm. reflexivity.
  - unfold updateSlide, storyData_at, bind, gets. rewrite Hsd. cbn.
    unfold flights_of. rewrite Hm. reflexivity.
Qed.

(** An idle engine accepts a request that is in range. *)
Lemma navigateToSlide_accepted i s sd :
  storyData s = Some sd -> isAnimating s = false ->
  0 <= i < Z.of_nat (List.length sd) ->
  navigateToSlide i s = updateSlide DNone (set_currentSlideIndex i s).
Proof.
  intros Hsd Hb Hi. unfold navigateToSlide.
  rewrite (proj2 (Z.leb_le 0 i)) by lia.
  unfold storyData_length, bind, gets, modify. rewrite Hsd. cbn. rewrite Hb.
  rewrite (proj2 (Z.ltb_lt i _)) by lia. reflexivity.
Qed.

Lemma navigateNext_accepted s sd :
  storyData s = Some sd -> isAnimating s = false ->
  currentSlideIndex s < Z.of_nat (List.length sd) - 1 ->
  navigateNext s = updateSlide DNext (set_currentSlideIndex (currentSlideIndex s + 1) s).
Proof.
  intros Hsd Hb Hi.
  unfold navigateNext, storyData_length, bind, gets, modify. rewrite Hsd. cbn.
  rewrite Hb. rewrite (proj2 (Z.ltb_lt _ _)) by lia. reflexivity.
Qed.

Lemma navigatePrevious_accepted s :
  isAnimating s = false -> 0 < currentSlideIndex s ->
  navigatePrevious s
  = updateSlide DPrev (set_currentSlideIndex (currentSlideIndex s - 1) s).
Proof.
  intros Hb Hi.
  unfold navigatePrevious, bind, gets, modify.
  rewrite Hb. rewrite (proj2 (Z.ltb_lt _ _)) by lia. reflexivity.
Qed.

Lemma updateSlide_index d s sd :
  storyData s = Some sd ->
  currentSlideIndex (after (updateSlide d s)) = currentSlideIndex s.
Proof.
  intros Hsd. destruct (nth_slide sd (currentSlideIndex s)) as [sl|] eqn:Hsl.
  - destruct (updateSlide_effect d s sd sl Hsd Hsl) as (s1 & _ & B & _).
    apply base_inv in B. tauto.
  - unfold updateSlide, storyData_at, bind, gets. rewrite Hsd. cbn.
    rewrite Hsl. reflexivity.
Qed.


Lemma findIndex_first {A} (p : A -> bool) x l :
  p x = true -> findIndex p (x :: l) = Some O.
Proof. intros H. cbn. rewrite H. reflexivity. Qed.

Lemma findIndex_valid_at sd k :
  findIndex (fun sl => valid (location sl)) sd = Some k ->
  valid_at sd (Z.of_nat k) = true.
Proof.
  intros H. destruct (findIndex_some _ _ _ H) as (x & Hx & Hv).
  unfold valid_at. rewrite nth_slide_of_nat, Hx. exact Hv.
Qed.

(** X7. [restart] puts the index on the first slide and leaves the camera
    on the first slide that has a valid location: the flight to that slide
    is the last one issued, also when the first slide itself has no valid
    location. *)
Theorem restart_flies_to_first_valid s sd m k :
  storyData s = Some sd -> map s = Some m -> isAnimating s = false ->
  findIndex (fun sl => valid (location sl)) sd = Some k ->
  getCurrentSlide (after (restart s)) = 0 /\
  hd_error (flights_of (after (restart s))) = Some (Z.of_nat k) /\
  (valid_at sd 0 = false ->
   flights_of (after (restart s)) = Z.of_nat k :: flights m).
Proof.
  intros Hsd Hm Hb Hk. rewrite (restart_unfold s sd Hsd Hb), Hk.
  pose proof (findIndex_valid_at sd k Hk) as Hv.
  destruct (fly_effect true (Z.of_nat k) (set_currentSlideIndex 0 s) sd Hsd)
    as (s2 & E & B & _ & _ & F).
  cbn [when] in E. rewrite (bind_ret_eq _ _ _ _ _ E).
  cbn [map set_currentSlideIndex] in F. rewrite Hm, Hv in F. cbn [andb] in F.
  apply base_inv in B. destruct B as (Bs & Bc & _ & _).
  cbn in Bs, Bc.
  assert (Hm2 : exists m2, map s2 = Some m2 /\ flights m2 = Z.of_nat k :: flights m).
  { unfold flights_of in F. cbn in F. rewrite Hm in F.
    destruct (map s2) as [m2|]; [eauto|discriminate]. }
  destruct Hm2 as (m2 & Hm2 & Hf2).
  assert (Hsd2 : storyData s2 = Some sd) by congruence.
  unfold getCurrentSlide.
  rewrite (updateSlide_index DNone s2 sd Hsd2).
  rewrite (updateSlide_camera DNone s2 m2 Hm2).
  unfold current_valid, slide_valid. rewrite Hsd2, Bc, Hf2.
  split; [reflexivity|].
  destruct (valid_at sd 0) eqn:H0.
  - split; [|discriminate]. cbn. f_equal.
    unfold valid_at, nth_slide in H0. cbn in H0.
    destruct sd as [|sl0 sd']; [discriminate|]. cbn in H0.
    rewrite (findIndex_first _ sl0 sd' H0) in Hk. injection Hk as <-. reflexivity.
  - split; [reflexivity|]. intros _. reflexivity.
Qed.

(** ** Requests on an idle engine *)

Lemma updateSlide_busy d s sd sl :
  storyData s = Some sd -> nth_slide sd (currentSlideIndex s) = Some sl ->
  isAnimating s = false ->
  isAnimating (after (updateSlide d s))
  = match content_wrapper (dom s) with
    | Some _ => negb (is_none d) && animations (features s)
    | None => false
    end.
Proof.
  intros Hsd Hsl Hb.
  destruct (updateSlide_effect d s sd sl Hsd Hsl) as (s1 & (_ & _ & _ & _ & C) & _ & P & _).
  apply panel_inv in P. destruct P as (_ & _ & -> & _).
  destruct (content_wrapper (dom s)).
  - destruct C as [_ C]. rewrite Hb in C. rewrite andb_true_r in C.
    destruct (negb (is_none d) && animations (features s)); tauto.
  - apply panel_inv in C. destruct C as (_ & _ & C & _). congruence.
Qed.

(** X8. An idle engine accepts a step in range: [next] and [previous]
    move the index by one. A [previous] issued right after an accepted
    [next] undoes it only if no animation was started: with animations
    enabled and a content wrapper on the page the second request is
    dropped and the index stays one ahead. *)
Theorem next_then_previous s sd :
  storyData s = Some sd -> isAnimating s = false ->
  0 <= currentSlideIndex s < Z.of_nat (List.length sd) - 1 ->
  getCurrentSlide (after (next s)) = currentSlideIndex s + 1 /\
  getCurrentSlide (after (previous (after (next s))))
  = match content_wrapper (dom s) with
    | Some _ => if animations (features s)
                then currentSlideIndex s + 1 else currentSlideIndex s
    | None => currentSlideIndex s
    end.
Proof.
  intros Hsd Hb Hi. unfold next, previous, getCurrentSlide.
  rewrite (navigateNext_accepted s sd Hsd Hb) by lia.
  set (s1 := set_currentSlideIndex (currentSlideIndex s + 1) s).
  assert (Hi1 : 0 <= currentSlideIndex s1 < Z.of_nat (List.length sd))
    by (cbn; lia).
  destruct (nth_slide_some sd _ Hi1) as [sl Hsl].
  pose proof (updateSlide_index DNext s1 sd Hsd) as Hc.
  pose proof (updateSlide_busy DNext s1 sd sl Hsd Hsl Hb) as Ha.
  destruct (updateSlide_effect DNext s1 sd sl Hsd Hsl) as (_ & _ & B & _).
  apply base_inv in B. destruct B as (Bs & _).
  cbn [currentSlideIndex s1 set_currentSlideIndex dom features is_none negb andb]
    in Hc, Ha.
  set (s2 := after (updateSlide DNext s1)) in *.
  split; [exact Hc|].
  assert (Hsd2 : storyData s2 = Some sd) by (rewrite Bs; exact Hsd).
  destruct (content_wrapper (dom s)) as [cl|].
  - destruct (animations (features s)).
    + unfold navigatePrevious, bind, gets. rewrite Ha.
      rewrite andb_false_r. cbn. exact Hc.
    + rewrite (navigatePrevious_accepted s2 Ha) by lia.
      rewrite (updateSlide_index DPrev (set_currentSlideIndex (currentSlideIndex s2 - 1) s2) sd Hsd2).
      cbn. lia.
  - rewrite (navigatePrevious_accepted s2 Ha) by lia.
    rewrite (updateSlide_index DPrev (set_currentSlideIndex (currentSlideIndex s2 - 1) s2) sd Hsd2).
      cbn. lia.
Qed.

(** ** The map elements are up to date *)

Lemma set_line_layers_same m : set_line_layers (line_layers m) m = m.
Proof. destruct m; reflexivity. Qed.

Lemma set_map_same s m : map s = Some m -> set_map (Some m) s = s.
Proof. destruct s; cbn; intros ->; reflexivity. Qed.

Lemma updateLineColors_synced s m :
  map s = Some m ->
  NoDup (List.map id (lines s)) ->
  line_layers m = List.map (fun l => (id l, paint_for (currentSlideIndex s) l)) (lines s) ->
  updateLineColors s = Ret tt s.
Proof.
  intros Hm Hnd Hll.
  destruct (runs_returns _ _ _ (updateLineColors_runs s m Hm)) as ([] & s' & E & ->).
  rewrite E. f_equal.
  rewrite paint_lines_all.
  - rewrite <- Hll, set_line_layers_same. apply set_map_same. exact Hm.
  - rewrite Hll, map_map. reflexivity.
  - exact Hnd.
Qed.

Lemma updateMarkerColors_synced s sd m :
  storyData s = Some sd -> map s = Some m ->
  0 <= currentSlideIndex s < Z.of_nat (List.length sd) ->
  markers_ok sd (currentSlideIndex s) m ->
  updateMarkerColors s = Ret tt s.
Proof.
  intros Hsd Hm Hcur (ia & ac & Hia & Hac & _ & Hok).
  destruct (nth_slide_some sd _ Hcur) as [sl Hsl].
  unfold active_ok, valid_at in Hok. rewrite Hsl in Hok.
  destruct s as [ft sd0 cur an m0 ls d ts]; cbn in *; subst sd0 m0.
  destruct m as [ia0 ac0 ll fl ld]; cbn in *; subst ia0 ac0.
  unfold updateMarkerColors, getPreviouslyActiveMarkerIndex, storyData_at, deref.
  unfold bind, gets, when, ret. cbn.
  destruct ac as [|f [|g ac]]; cbn.
  - rewrite Hsl. cbn. rewrite Hok. reflexivity.
  - destruct Hok as [-> _]. rewrite Z.eqb_refl. reflexivity.
  - contradiction.
Qed.


(** ** Activating a marker *)

Lemma findIndex_in {A} (p : A -> bool) l x :
  In x l -> p x = true -> exists k, findIndex p l = Some k.
Proof.
  intros Hin Hp. destruct (findIndex p l) as [k|] eqn:E; [eauto|].
  rewrite (findIndex_none p l E x Hin) in Hp. discriminate.
Qed.

Lemma indices_splice k fs g :
  nth_error fs k = Some g ->
  Permutation (slideIndex g :: indices (splice1 k fs)) (indices fs).
Proof.
  intros H. symmetry.
  apply (Permutation_map slideIndex (splice1_perm fs k g H)).
Qed.

Lemma moveMarkerToActive_absent index s :
  ~ In index (inactiveSet s) -> moveMarkerToActive index s = Ret tt s.
Proof.
  intros Hn. unfold moveMarkerToActive, bind, gets. unfold inactiveSet in Hn.
  destruct (map s) as [m|]; [|reflexivity].
  destruct (storyData s); [|reflexivity].
  destruct (inactive_markers m) as [ia|]; [|reflexivity]. cbn in Hn.
  destruct (findIndex _ ia) as [k|] eqn:E; [|reflexivity].
  destruct (findIndex_some _ _ _ E) as (g & Hg & Hi).
  apply Z.eqb_eq in Hi. exfalso. apply Hn. rewrite <- Hi.
  apply in_map. eapply nth_error_In. exact Hg.
Qed.

(** X10. [moveMarkerToActive(index)] does nothing when no inactive
    marker carries the index. Otherwise it takes the first such marker out
    of the inactive source and makes it the only feature of the active
    source, flagged active; whatever the active source held before is
    overwritten, not moved back, so afterwards the two sources together
    hold exactly the markers the inactive source held. *)
Theorem moveMarkerToActive_spec index s :
  (~ In index (inactiveSet s) -> moveMarkerToActive index s = Ret tt s) /\
  (forall sd m ia ac,
     storyData s = Some sd -> map s = Some m ->
     inactive_markers m = Some ia -> active_marker m = Some ac ->
     In index (indices ia) ->
     returns (moveMarkerToActive index s) = true /\
     activeSet (after (moveMarkerToActive index s)) = [index] /\
     Permutation (activeSet (after (moveMarkerToActive index s))
                  ++ inactiveSet (after (moveMarkerToActive index s)))
                 (inactiveSet s) /\
     (forall m' fs, map (after (moveMarkerToActive index s)) = Some m' ->
        active_marker m' = Some fs -> Forall (fun f => isActive f = true) fs)).
Proof.
  split; [apply moveMarkerToActive_absent|].
  - intros sd m ia ac Hsd Hm Hia Hac Hin.
    apply in_map_iff in Hin. destruct Hin as (x & Hx & Hin).
    destruct (findIndex_in (fun f => slideIndex f =? index) ia x Hin) as [k E];
      [apply Z.eqb_eq; exact Hx|].
    destruct (findIndex_some _ _ _ E) as (g & Hg & Hi). apply Z.eqb_eq in Hi.
    destruct s as [ft sd0 cur an m0 ls d ts]; cbn in Hsd, Hm; subst sd0 m0.
    destruct m as [ia0 ac0 ll fl ld]; cbn in Hia, Hac; subst ia0 ac0.
    unfold moveMarkerToActive, bind, gets, on_map, modify, activeSet, inactiveSet.
    cbn. rewrite E, Hg. cbn. rewrite Hi.
    split; [reflexivity|]. split; [reflexivity|]. split.
    + rewrite <- Hi. apply indices_splice. exact Hg.
    + intros m' fs Hm' Hfs. injection Hm' as <-. cbn in Hfs. injection Hfs as <-.
      constructor; [reflexivity|constructor].
Qed.

(** ** Repainting the lines *)

Lemma setPaintProperty_map i p l :
  setPaintProperty i p l
  = List.map (fun jq => (fst jq, if Nat.eqb i (fst jq) then p else snd jq)) l.
Proof.
  induction l as [|[j q] l IH]; cbn; [reflexivity|].
  rewrite IH. destruct (Nat.eqb i j); reflexivity.
Qed.

Lemma paint_lines_map cur ls : forall layers,
  paint_lines cur ls layers
  = List.map (fun jq => (fst jq, fold_left (repaint cur (fst jq)) ls (snd jq))) layers.
Proof.
  induction ls as [|l ls IH]; intros layers; cbn.
  - rewrite <- (map_id layers) at 1. apply map_ext. intros [j q]. reflexivity.
  - rewrite IH, setPaintProperty_map, map_map. apply map_ext.
    intros [j q]. reflexivity.
Qed.

Lemma repaint_twice cur j ls : forall q,
  fold_left (repaint cur j) ls (fold_left (repaint cur j) ls q)
  = fold_left (repaint cur j) ls q.
Proof.
  induction ls as [|l ls IH] using rev_ind; intros q; [reflexivity|].
  rewrite !fold_left_app. cbn [fold_left].
  assert (R : forall q', repaint cur j q' l
                         = if Nat.eqb (id l) j then paint_for cur l else q')
    by reflexivity.
  rewrite !R. destruct (Nat.eqb (id l) j); [reflexivity|apply IH].
Qed.

Lemma paint_lines_twice cur ls layers :
  paint_lines cur ls (paint_lines cur ls layers) = paint_lines cur ls layers.
Proof.
  rewrite !paint_lines_map, map_map. apply map_ext. intros [j q]. cbn.
  rewrite repaint_twice. reflexivity.
Qed.

(** X11. [updateLineColors] is idempotent from every state: a second
    call leaves every layer with the colour the first call gave it, also
    when several entries of [this.lines] name the same layer. *)
Theorem updateLineColors_idempotent s :
  updateLineColors (after (updateLineColors s))
  = Ret tt (after (updateLineColors s)).
Proof.
  destruct s as [ft sd cur an [m|] ls d ts]; [|reflexivity].
  unfold updateLineColors, bind, gets, on_map, modify. cbn.
  rewrite paint_lines_twice. reflexivity.
Qed.

(** ** Concrete runs *)

Import Demo.

Lemma reachable_loadedA : reachable loadedA.
Proof. apply reachable_run. exact reachable_startedA. Qed.

Lemma reachable_movingA : reachable movingA.
Proof. apply reachable_run. exact reachable_startedA. Qed.

Lemma one_animation_in_flight_witness :
  (List.length (timers movingA) <= 1)%nat /\
  (isAnimating movingA = true <-> timers movingA <> []).
Proof. apply (one_animation_in_flight movingA). exact reachable_movingA. Defined.

Lemma animation_completes_witness :
  isAnimating (run [TimerFires; TimerFires] movingA) = false /\
  timers (run [TimerFires; TimerFires] movingA) = [] /\
  getCurrentSlide (run [TimerFires; TimerFires] movingA) = getCurrentSlide movingA /\
  shown (dom (run [TimerFires; TimerFires] movingA)) = current_slide movingA.
Proof.
  apply (animation_completes movingA); [exact reachable_movingA|reflexivity].
Defined.





Lemma restart_flies_to_first_valid_witness :
  getCurrentSlide (after (restart at_rome)) = 0 /\
  hd_error (flights_of (after (restart at_rome))) = Some 1.
Proof.
  assert (Hm : exists m, map at_rome = Some m)
    by (vm_compute; eexists; reflexivity).
  destruct Hm as [m Hm].
  destruct (restart_flies_to_first_valid at_rome tour m 1 eq_refl Hm eq_refl eq_refl)
    as (H1 & H2 & _).
  split; [exact H1|exact H2].
Defined.

Lemma next_then_previous_witness :
  getCurrentSlide (after (next handmade)) = 1 /\
  getCurrentSlide (after (previous (after (next handmade)))) = 1.
Proof.
  apply (next_then_previous handmade storyA); [reflexivity|reflexivity|cbn; lia].
Defined.


Lemma moveMarkerToActive_spec_witness :
  moveMarkerToActive 7 handmade = Ret tt handmade /\
  activeSet (after (moveMarkerToActive 2 handmade)) = [2] /\
  Permutation (activeSet (after (moveMarkerToActive 2 handmade))
               ++ inactiveSet (after (moveMarkerToActive 2 handmade)))
              (inactiveSet handmade).
Proof.
  split.
  - apply (proj1 (moveMarkerToActive_spec 7 handmade)).
    vm_compute. intros [H|[H|[]]]; discriminate.
  - destruct (proj2 (moveMarkerToActive_spec 2 handmade) storyA handmade_map
                [marker 1 false; marker 2 false] [marker 0 true]
                eq_refl eq_refl eq_refl eq_refl) as (_ & H1 & H2 & _).
    + vm_compute. right. left. reflexivity.
    + split; assumption.
Defined.

End ViewFacts.

(* ===================================================================== *)
(** * The content panel: proofs                                           *)
(* ===================================================================== *)

Module PanelFacts.
Import JS Eff Eff.Notations Panel.

Ltac unfold_p :=
  unfold bind, gets, modify, ret, when, throw, try_catch in *.

Lemma bind_ret {A B} (c : M A) (k : A -> M B) p a p1 :
  c p = Ret a p1 -> bind c k p = k a p1.
Proof. intros H. unfold bind. rewrite H. reflexivity. Qed.

(** [updateMedia] on a page with a media container. *)
Lemma not_nullish_prop slide k (p : Page) :
  nullish slide = false -> prop slide k p = Ret (get slide k) p.
Proof. intros H. unfold prop. rewrite H. reflexivity. Qed.

Lemma malformed_is_not_nullish slide :
  well_formed_media slide = false -> nullish slide = false.
Proof.
  unfold well_formed_media, media_url. destruct slide; try reflexivity;
    cbn; discriminate.
Qed.

Lemma updateMedia_unfold slide p els :
  nullish slide = false ->
  media p = Some els ->
  updateMedia slide p
  = (if truthy (media_url slide) then
       match media_url slide with
       | VStr u =>
           if includes "youtube.com" u
           then embedYouTube u (get (get slide "media") "caption")
           else if image_pattern u
           then embedImage u (get (get slide "media") "caption")
           else ret tt
       | _ => throw TypeError
       end
     else ret tt) (set_media (Some []) p).
Proof.
  intros Hn Hm. unfold updateMedia, media_url.
  unfold bind at 1. unfold gets at 1. rewrite Hm.
  unfold bind at 1. unfold modify at 1.
  rewrite (bind_ret _ _ _ _ _ (not_nullish_prop slide "media" _ Hn)).
  reflexivity.
Qed.

(** It returns on a media URL that is absent, falsy or a string, and
    throws otherwise, the container emptied. *)
Lemma updateMedia_outcome slide p els :
  nullish slide = false ->
  media p = Some els ->
  if well_formed_media slide
  then exists els', updateMedia slide p = Ret tt (set_media (Some els') p) /\
                    media_shape els' = true
  else updateMedia slide p = Throw TypeError (set_media (Some []) p).
Proof.
  intros Hn Hm. rewrite (updateMedia_unfold slide p els Hn Hm).
  unfold well_formed_media.
  destruct (truthy (media_url slide)) eqn:Et; cbn [negb orb].
  - destruct (media_url slide) as [| |b|n|u|items|fs] eqn:Eu;
      cbn in Et; try discriminate; cbn [is_string]; try reflexivity.
    destruct p as [h t m sc cw an ia ts].
    destruct (includes "youtube.com" u).
    + unfold embedYouTube, append_caption, appendChild. unfold_p. cbn.
      destruct (truthy _); cbn; eexists; split; reflexivity.
    + destruct (image_pattern u).
      * unfold embedImage, append_caption, appendChild. unfold_p. cbn.
        destruct (truthy (get (get slide "media") "caption")); cbn;
          eexists; split; reflexivity.
      * eexists. split; reflexivity.
  - destruct p as [h t m sc cw an ia ts]. eexists. split; reflexivity.
Qed.

Lemma updateMedia_no_container slide p :
  media p = None -> updateMedia slide p = Ret tt p.
Proof.
  intros Hm. unfold updateMedia, bind, gets. rewrite Hm. reflexivity.
Qed.

Lemma updateSlideContent_unfold slide p :
  nullish slide = false ->
  updateSlideContent slide p = updateMedia slide (titled slide p).
Proof.
  intros Hn. unfold updateSlideContent, titled, prop. rewrite Hn.
  destruct p as [h t m sc cw an ia ts]. unfold bind, gets, modify, ret. cbn.
  destruct h, t; reflexivity.
Qed.

Lemma titled_frame slide p :
  media (titled slide p) = media p /\
  story_content (titled slide p) = story_content p /\
  content_wrapper (titled slide p) = content_wrapper p /\
  animations (titled slide p) = animations p /\
  isAnimating (titled slide p) = isAnimating p /\
  timers (titled slide p) = timers p.
Proof.
  unfold titled. destruct p as [h t m sc cw an ia ts]; cbn.
  destruct h; cbn; destruct t; cbn; repeat split.
Qed.

Lemma content_update_outcome_aux slide p :
  nullish slide = false ->
  (media p = None \/ well_formed_media slide = true ->
   returns (updateSlideContent slide p) = true) /\
  (media p <> None -> well_formed_media slide = false ->
   updateSlideContent slide p
   = Throw TypeError (set_media (Some []) (titled slide p))).
Proof.
  intros Hn. rewrite (updateSlideContent_unfold slide p Hn).
  destruct (titled_frame slide p) as (Hm & _).
  destruct (media p) as [els|] eqn:E.
  - pose proof (updateMedia_outcome slide (titled slide p) els Hn Hm) as H.
    destruct (well_formed_media slide); split.
    + intros _. destruct H as (els' & -> & _). reflexivity.
    + discriminate.
    + intros [H0|H0]; discriminate.
    + intros _ _. exact H.
  - rewrite (updateMedia_no_container slide _ Hm). split; [reflexivity|].
    intros H. contradiction.
Qed.

(** X12. On a slide that is not [null] or [undefined],
    [updateSlideContent] returns when the page has no media container or
    the media URL of the slide is absent, falsy or a string. On any other
    URL (a number, [true], an array, an object) it throws a TypeError
    once headline and text are set and the media container is emptied. *)
Theorem content_update_outcome slide p :
  nullish slide = false ->
  (media p = None \/ well_formed_media slide = true ->
   returns (updateSlideContent slide p) = true) /\
  (media p <> None -> well_formed_media slide = false ->
   updateSlideContent slide p
   = Throw TypeError (set_media (Some []) (titled slide p))).
Proof. exact (content_update_outcome_aux slide p). Qed.

(** X13. After [updateMedia] the media container holds what the slide
    gives and nothing of what it held before: two pages that both have
    the container end with the same children, whether the call returns
    or throws; and the children are at most one iframe or image followed
    by at most one caption. *)
Theorem media_is_never_stale slide p q :
  media p <> None -> media q <> None ->
  media (after (updateMedia slide p)) = media (after (updateMedia slide q)) /\
  exists els, media (after (updateMedia slide p)) = Some els /\
              media_shape els = true.
Proof.
  intros Hp Hq.
  destruct (media p) as [ep|] eqn:Ep; [|contradiction].
  destruct (media q) as [eq|] eqn:Eq; [|contradiction].
  destruct (nullish slide) eqn:Hn.
  - unfold updateMedia, prop, bind, gets, modify, throw. rewrite Ep, Eq, Hn.
    destruct p, q. cbn. split; [reflexivity|]. exists []. split; reflexivity.
  - rewrite (updateMedia_unfold slide p ep Hn Ep),
      (updateMedia_unfold slide q eq Hn Eq).
    destruct p as [h t m sc cw an ia ts], q as [h' t' m' sc' cw' an' ia' ts'].
    unfold set_media. cbn [headline text media story_content content_wrapper
      animations isAnimating timers].
    destruct (truthy (media_url slide)).
    + destruct (media_url slide) as [| |b|n|u|items|fs];
        try (split; [reflexivity|exists []; split; reflexivity]).
      destruct (includes "youtube.com" u).
      * unfold embedYouTube, append_caption, appendChild. unfold_p. cbn.
        destruct (truthy _); cbn;
          (split; [reflexivity|eexists; split; reflexivity]).
      * destruct (image_pattern u).
        -- unfold embedImage, append_caption, appendChild. unfold_p. cbn.
           destruct (truthy (get (get slide "media") "caption")); cbn;
             (split; [reflexivity|eexists; split; reflexivity]).
        -- split; [reflexivity|exists []; split; reflexivity].
    + split; [reflexivity|exists []; split; reflexivity].
Qed.

(** ** The animation on a parsed slide *)

Lemma bind_throw {A B} (c : M A) (k : A -> M B) p e p1 :
  c p = Throw e p1 -> bind c k p = Throw e p1.
Proof. intros H. unfold bind. rewrite H. reflexivity. Qed.

Lemma updateSlideContent_malformed slide p els :
  media p = Some els -> well_formed_media slide = false ->
  updateSlideContent slide p
  = Throw TypeError (set_media (Some []) (titled slide p)).
Proof.
  intros Hm Hw.
  apply (proj2 (content_update_outcome_aux slide p
                  (malformed_is_not_nullish slide Hw))); [|exact Hw].
  rewrite Hm. discriminate.
Qed.

Lemma updateSlideContent_well_formed slide p :
  nullish slide = false ->
  media p = None \/ well_formed_media slide = true ->
  exists els, updateSlideContent slide p
              = Ret tt (set_media els (titled slide p)).
Proof.
  intros Hn H. rewrite (updateSlideContent_unfold slide p Hn).
  destruct (titled_frame slide p) as (Hm & _).
  destruct (media p) as [els|] eqn:E.
  - destruct H as [H|H]; [discriminate|].
    pose proof (updateMedia_outcome slide (titled slide p) els Hn Hm) as Ho.
    rewrite H in Ho. destruct Ho as (els' & -> & _). eauto.
  - rewrite (updateMedia_no_container slide _ Hm). exists None.
    destruct (titled slide p); cbn in *; subst; reflexivity.
Qed.

Lemma class_round_trip c l :
  ~ In c l -> Core.class_remove c (Core.class_add c l) = l.
Proof.
  intros Hn. unfold Core.class_add, Core.class_remove.
  assert (Hf : forall l', ~ In c l' ->
            filter (fun x => negb (String.eqb c x)) l' = l').
  { induction l' as [|x l' IH]; intros H; cbn; [reflexivity|].
    destruct (String.eqb_spec c x) as [->|Hne]; cbn.
    - exfalso. apply H. left. reflexivity.
    - f_equal. apply IH. intros Hin. apply H. right. exact Hin. }
  destruct (existsb (String.eqb c) l) eqn:E.
  - apply existsb_exists in E. destruct E as (x & Hx & Hc).
    apply String.eqb_eq in Hc. subst x. contradiction.
  - rewrite filter_app, (Hf l Hn). cbn. rewrite String.eqb_refl. cbn.
    apply app_nil_r.
Qed.

Lemma fire_exit slide d rest p :
  timers p = ExitDone slide d :: rest ->
  fire p
  = try_catch
      (bind (updateSlideContent slide)
         (fun _ => bind (on_classList (Core.class_add (Core.inClass d)))
         (fun _ => setTimeout (EntranceDone d))))
      (fun _ => ret tt)
      (after (on_classList (Core.class_remove (Core.outClass d))
                           (set_timers rest p))).
Proof.
  intros H. unfold fire, run_timer, on_classList.
  unfold bind at 1. unfold gets at 1. rewrite H. reflexivity.
Qed.

Lemma fire_entrance d rest p :
  timers p = EntranceDone d :: rest ->
  fire p
  = Ret tt (set_isAnimating false
              (after (on_classList (Core.class_remove (Core.inClass d))
                                   (set_timers rest p)))).
Proof.
  intros H. unfold fire, run_timer, on_classList.
  unfold bind at 1. unfold gets at 1. rewrite H. reflexivity.
Qed.

(** The directional move on an idle page that has a content wrapper. *)
Lemma updateContent_starts slide d p w :
  content_wrapper p = Some w ->
  animations p = true -> isAnimating p = false -> Core.is_none d = false ->
  updateContent slide d p
  = Ret tt (mkPage (headline p) (text p) (media p) (story_content p)
              (Some (mkWrapper (Core.class_add (Core.outClass d) (classList w))
                               (raised w)))
              true true (timers p ++ [ExitDone slide d])).
Proof.
  intros Hw Ha Hb Hd.
  destruct p as [h t m sc cw an ia ts]; cbn in Hw, Ha, Hb; subst.
  unfold updateContent, animateSlideTransition, on_classList, setTimeout.
  unfold bind, gets, modify. cbn. rewrite Hd. reflexivity.
Qed.

(** X14. A slide whose media URL is neither falsy nor a string leaves
    the engine locked: the directional move sets [isAnimating] and
    schedules the exit callback; the callback throws in the content
    update, before it schedules the entrance callback; so the flag stays
    set with no callback pending, and nothing that fires later clears
    it. *)
Theorem malformed_media_locks_the_panel slide d p w els :
  content_wrapper p = Some w -> media p = Some els ->
  animations p = true -> isAnimating p = false -> timers p = [] ->
  Core.is_none d = false -> well_formed_media slide = false ->
  isAnimating (after (updateContent slide d p)) = true /\
  timers (after (updateContent slide d p)) = [ExitDone slide d] /\
  isAnimating (after (fire (after (updateContent slide d p)))) = true /\
  timers (after (fire (after (updateContent slide d p)))) = [] /\
  fire (after (fire (after (updateContent slide d p))))
  = Ret tt (after (fire (after (updateContent slide d p)))).
Proof.
  intros Hw Hm Ha Hb Ht Hd Hbad.
  rewrite (updateContent_starts slide d p w Hw Ha Hb Hd), Ht. cbn [after app].
  split; [reflexivity|]. split; [reflexivity|].
  match goal with
  | |- context [fire (mkPage ?a ?b ?c ?e ?f ?g ?h ?i)] =>
      rewrite (fire_exit slide d [] (mkPage a b c e f g h i) eq_refl)
  end.
  unfold on_classList, modify, try_catch. cbn [after content_wrapper set_timers
    headline text media story_content animations isAnimating timers
    set_content_wrapper classList raised].
  match goal with
  | |- context [bind (updateSlideContent slide) ?k ?q] =>
      rewrite (bind_throw (updateSlideContent slide) k q TypeError
                 (set_media (Some []) (titled slide q))
                 (updateSlideContent_malformed slide q els Hm Hbad))
  end.
  unfold ret. cbn [after].
  match goal with
  | |- context [titled slide ?q] =>
      destruct (titled_frame slide q) as (_ & _ & _ & _ & Hi & Hts);
      set (q' := titled slide q) in *
  end.
  cbn in Hi, Hts.
  assert (Hi' : isAnimating (set_media (Some []) q') = true) by exact Hi.
  assert (Ht' : timers (set_media (Some []) q') = []) by exact Hts.
  split; [exact Hi'|]. split; [exact Ht'|].
  unfold fire, bind, gets. rewrite Ht'. reflexivity.
Qed.

Lemma fire_exit_returns slide d p :
  timers p = [ExitDone slide d] ->
  nullish slide = false ->
  media p = None \/ well_formed_media slide = true ->
  exists els,
    fire p
    = Ret tt
        (set_timers [EntranceDone d]
           (after (on_classList (Core.class_add (Core.inClass d))
              (set_media els
                 (titled slide
                    (after (on_classList (Core.class_remove (Core.outClass d))
                                         (set_timers [] p)))))))).
Proof.
  intros Ht Hn Hok. rewrite (fire_exit slide d [] p Ht). unfold try_catch.
  match goal with
  | |- context [bind (updateSlideContent slide) ?k ?q] =>
      assert (Hq : media q = None \/ well_formed_media slide = true)
        by (destruct Hok as [H|H]; [left|right; exact H];
            destruct p as [h t m sc [w|] an ia ts]; exact H);
      destruct (updateSlideContent_well_formed slide q Hn Hq) as [els E];
      rewrite (bind_ret (updateSlideContent slide) k q tt _ E)
  end.
  exists els. unfold on_classList, setTimeout, bind, modify. cbn [after].
  f_equal.
  match goal with
  | |- context [titled slide ?q] =>
      destruct (titled_frame slide q) as (_ & _ & _ & _ & _ & Hts);
      set (q' := titled slide q) in *
  end.
  destruct p as [h t m sc cw an ia ts]. cbn in Ht. subst ts.
  destruct q' as [h' t' m' sc' cw' an' ia' ts']. cbn in Hts.
  destruct cw; cbn in Hts; subst ts'; destruct cw'; reflexivity.
Qed.

(** X15. On a slide that is not [null] or [undefined] and whose media
    URL is absent, falsy or a string, the animation of a directional move
    completes: after the two callbacks the engine is idle with no callback
    pending, headline and text are those of the slide, and the class list
    of the content wrapper is the one it had if it held neither animation
    class. *)
Theorem animation_completes_on_well_formed_media slide d p w :
  content_wrapper p = Some w ->
  animations p = true -> isAnimating p = false -> timers p = [] ->
  Core.is_none d = false -> nullish slide = false ->
  media p = None \/ well_formed_media slide = true ->
  isAnimating (after (fire (after (fire (after (updateContent slide d p))))))
  = false /\
  timers (after (fire (after (fire (after (updateContent slide d p)))))) = [] /\
  headline (after (fire (after (fire (after (updateContent slide d p))))))
  = headline (titled slide p) /\
  text (after (fire (after (fire (after (updateContent slide d p))))))
  = text (titled slide p) /\
  (~ In (Core.outClass d) (classList w) -> ~ In (Core.inClass d) (classList w) ->
   content_wrapper (after (fire (after (fire (after (updateContent slide d p))))))
   = Some w).
Proof.
  intros Hw Ha Hb Ht Hd Hn Hok.
  rewrite (updateContent_starts slide d p w Hw Ha Hb Hd), Ht. cbn [after app].
  match goal with
  | |- context [fire (mkPage ?a ?b ?c ?e ?f ?g ?h ?i)] =>
      destruct (fire_exit_returns slide d (mkPage a b c e f g h i) eq_refl Hn Hok)
        as [els E]
  end.
  rewrite E. cbn [after].
  match goal with
  | |- context [fire (set_timers [EntranceDone d] ?q)] =>
      rewrite (fire_entrance d [] (set_timers [EntranceDone d] q) eq_refl)
  end.
  cbn [after].
  destruct p as [h t m sc cw an ia ts]; cbn in Hw, Ha, Hb, Ht; subst.
  destruct w as [cl r].
  assert (Hcl : ~ In (Core.outClass d) cl -> ~ In (Core.inClass d) cl ->
            Core.class_remove (Core.inClass d)
              (Core.class_add (Core.inClass d)
                 (Core.class_remove (Core.outClass d)
                    (Core.class_add (Core.outClass d) cl))) = cl).
  { intros H1 H2. rewrite (class_round_trip _ _ H1). apply class_round_trip, H2. }
  unfold titled, on_classList, modify.
  destruct h, t; cbn -[Core.class_remove Core.class_add];
    (split; [reflexivity|]); (split; [reflexivity|]); (split; [reflexivity|]);
    (split; [reflexivity|]); intros H1 H2; rewrite (Hcl H1 H2); reflexivity.
Qed.

(** ** The background *)

Lemma falsy_has_no_url (background : Value) :
  truthy background = false -> get background "url" = VUndefined.
Proof. destruct background; cbn; try reflexivity; discriminate. Qed.

(** X16. [updateBackground] never hides the image overlay: on a slide
    (not [null] or [undefined]) without a background image it resets
    colour and image of the story content and leaves the overlay as it
    is, so an image set by an earlier slide stays on display; on a slide
    with one it shows that image in the overlay, creating the overlay if
    there is none. *)
Theorem background_overlay_is_never_hidden slide p c :
  nullish slide = false ->
  story_content p = Some c ->
  returns (updateBackground slide p) = true /\
  exists c', story_content (after (updateBackground slide p)) = Some c' /\
    backgroundImage c' = VStr "" /\
    backgroundColor c'
    = or_else (get (get slide "background") "color") (VStr "") /\
    overlay c'
    = if truthy (get (get slide "background") "url")
      then Some (mkOverlay (Some (get (get slide "background") "url")) true
                   (if is_undefined (get (get slide "background") "opacity")
                    then Opaque
                    else Percent (get (get slide "background") "opacity")))
      else overlay c.
Proof.
  intros Hn Hc. destruct p as [h t m sc cw an ia ts]; cbn in Hc; subst sc.
  unfold updateBackground, setBackgroundImage, or_else, prop.
  unfold bind, gets, modify, when, ret. cbn. rewrite Hn.
  destruct (truthy (get slide "background")) eqn:Eb; cbn.
  - destruct (truthy (get (get slide "background") "color")); cbn;
      destruct (truthy (get (get slide "background") "url")); cbn;
      destruct cw; cbn;
      (split; [reflexivity|]); eexists; (split; [reflexivity|]); cbn;
      repeat split.
  - rewrite (falsy_has_no_url _ Eb). cbn.
    assert (Ec : get (get slide "background") "color" = VUndefined)
      by (destruct (get slide "background"); cbn in *; try reflexivity; discriminate).
    rewrite Ec. cbn. split; [reflexivity|]. eexists. split; [reflexivity|].
    repeat split.
Qed.

(** ** Concrete slides *)

Lemma content_update_outcome_witness :
  returns (updateSlideContent postcard full_page) = true /\
  updateSlideContent broken full_page
  = Throw TypeError (set_media (Some []) (titled broken full_page)).
Proof.
  split.
  - apply (proj1 (content_update_outcome postcard full_page eq_refl)).
    right. reflexivity.
  - apply (proj2 (content_update_outcome broken full_page eq_refl));
      [discriminate|reflexivity].
Defined.

Lemma media_is_never_stale_witness :
  media (after (updateMedia postcard full_page))
  = media (after (updateMedia postcard
                    (set_media (Some [Iframe "old"]) full_page))).
Proof.
  apply (media_is_never_stale postcard full_page
           (set_media (Some [Iframe "old"]) full_page)); discriminate.
Defined.

Lemma malformed_media_locks_the_panel_witness :
  isAnimating (after (fire (after (updateContent broken Core.DNext full_page))))
  = true /\
  timers (after (fire (after (updateContent broken Core.DNext full_page)))) = [].
Proof.
  destruct (malformed_media_locks_the_panel broken Core.DNext full_page
              (mkWrapper [] false) [] eq_refl eq_refl eq_refl eq_refl eq_refl
              eq_refl eq_refl) as (_ & _ & H1 & H2 & _).
  split; assumption.
Defined.

Lemma animation_completes_on_well_formed_media_witness :
  isAnimating
    (after (fire (after (fire (after (updateContent postcard Core.DNext full_page))))))
  = false /\
  content_wrapper
    (after (fire (after (fire (after (updateContent postcard Core.DNext full_page))))))
  = Some (mkWrapper [] false).
Proof.
  destruct (animation_completes_on_well_formed_media postcard Core.DNext full_page
              (mkWrapper [] false) eq_refl eq_refl eq_refl eq_refl eq_refl
              eq_refl (or_intror eq_refl)) as (H1 & _ & _ & _ & H2).
  split; [exact H1|]. apply H2; intros [].
Defined.

Lemma background_overlay_is_never_hidden_witness :
  exists c',
    story_content (after (updateBackground plain (after (updateBackground postcard full_page))))
    = Some c' /\
    overlay c'
    = Some (mkOverlay (Some (VStr "sky.png")) true
              (Percent (VNum (S754_finite false 40 0)))).
Proof.
  destruct (background_overlay_is_never_hidden plain
              (after (updateBackground postcard full_page))
              (mkStoryContent (VStr "") (VStr "#222")
                 (Some (mkOverlay (Some (VStr "sky.png")) true
                          (Percent (VNum (S754_finite false 40 0))))))
              eq_refl eq_refl) as (_ & c' & H1 & _ & _ & H2).
  exists c'. split; [exact H1|exact H2].
Defined.

End PanelFacts.

(* ===================================================================== *)
(** * Data validators: proofs                                             *)
(* ===================================================================== *)

Module ValidatorFacts.
Import JS Geo Eff Validators.

Lemma validator_valid location :
  truthy (validator_isValidLocation location) = true -> valid location = true.
Proof.
  unfold validator_isValidLocation, valid, isValidLocation.
  destruct (truthy location) eqn:Et; [|congruence].
  cbn. intros H. apply andb_prop in H. destruct H as [H1 H2].
  unfold is_number_not_nan in H1, H2.
  destruct (get location "lat") as [| | |n1| | |]; try discriminate.
  destruct (get location "lon") as [| | |n2| | |]; try discriminate.
  cbn. rewrite H1, H2. reflexivity.
Qed.

Lemma filterSlides_valid criteria : forall slides out,
  validLocationsOnly criteria = true ->
  filterSlides slides criteria = Some out ->
  Forall (fun slide => valid (get slide "location") = true) out /\
  (forall slide, In slide out -> In slide slides).
Proof.
  induction slides as [|slide rest IH]; intros out Hc H; cbn in H.
  - injection H as <-. split; [constructor|auto].
  - destruct (keeps criteria slide) as [keep|] eqn:Ek; [|discriminate].
    destruct (filterSlides rest criteria) as [out'|] eqn:Er; [|discriminate].
    injection H as <-. destruct (IH out' Hc eq_refl) as [H1 H2].
    destruct keep.
    + split.
      * constructor; [|exact H1]. apply validator_valid.
        unfold keeps in Ek. rewrite Hc in Ek. cbn [andb] in Ek.
        destruct (is_null slide || is_undefined slide)%bool; [discriminate|].
        destruct (truthy (validator_isValidLocation (get slide "location")));
          [reflexivity|discriminate].
      * intros x [->|Hx]; [left; reflexivity|right; auto].
    + split; [exact H1|]. intros x Hx. right. auto.
Qed.

(** X17. Every location [DataValidators.isValidLocation] accepts, the
    engine accepts too, so the slides that
    [filterSlides(slides, {validLocationsOnly: true})] keeps all have a
    location the engine gives a marker; the converse fails, since the
    engine also takes coordinates written as strings. *)
Theorem validated_locations_are_valid :
  (forall location,
     truthy (validator_isValidLocation location) = true ->
     valid location = true) /\
  (forall criteria slides out,
     validLocationsOnly criteria = true ->
     filterSlides slides criteria = Some out ->
     Forall (fun slide => valid (get slide "location") = true) out /\
     (forall slide, In slide out -> In slide slides)) /\
  (valid (loc (VStr "51.5") (VStr "-0.12")) = true /\
   truthy (validator_isValidLocation (loc (VStr "51.5") (VStr "-0.12"))) = false).
Proof.
  split; [exact validator_valid|]. split; [|split; reflexivity].
  intros criteria slides out. apply filterSlides_valid.
Qed.

(** ** Media URLs *)

(** X18. Every URL the engine renders (a YouTube link as an iframe, a
    picture as an image) is one [DataValidators.isValidMediaUrl] accepts.
    The validator accepts more: what it accepts and the engine renders
    as nothing is a [youtu.be] link, a [.webp] picture or a video
    file. *)
Theorem rendered_media_is_valid u :
  (Panel.includes "youtube.com" u || Panel.image_pattern u = true ->
   isValidMediaUrl (VStr u) = true) /\
  (isValidMediaUrl (VStr u) = true ->
   Panel.includes "youtube.com" u || Panel.image_pattern u = false ->
   (Panel.includes "youtu.be" u
    || Panel.endsWith ".webp" (Panel.lowercase u)
    || Panel.endsWith ".mp4" (Panel.lowercase u)
    || Panel.endsWith ".webm" (Panel.lowercase u)
    || Panel.endsWith ".ogg" (Panel.lowercase u))%bool = true).
Proof.
  unfold isValidMediaUrl, Panel.image_pattern.
  destruct (Panel.includes "youtube.com" u);
    destruct (Panel.includes "youtu.be" u);
    destruct (Panel.endsWith ".jpg" (Panel.lowercase u));
    destruct (Panel.endsWith ".jpeg" (Panel.lowercase u));
    destruct (Panel.endsWith ".png" (Panel.lowercase u));
    destruct (Panel.endsWith ".gif" (Panel.lowercase u));
    destruct (Panel.endsWith ".webp" (Panel.lowercase u));
    destruct (Panel.endsWith ".mp4" (Panel.lowercase u));
    destruct (Panel.endsWith ".webm" (Panel.lowercase u));
    destruct (Panel.endsWith ".ogg" (Panel.lowercase u));
    cbn; split; intros; try reflexivity; try discriminate; auto.
Qed.

(** ** A validated slide renders *)

Lemma validateSlide_ok slide index :
  validateSlide slide index = [] ->
  truthy slide = true /\
  (truthy (get slide "location") = true ->
   truthy (validator_isValidLocation (get slide "location")) = true) /\
  Panel.well_formed_media slide = true.
Proof.
  unfold validateSlide. destruct (truthy slide) eqn:Es; cbn [negb]; [|discriminate].
  intros H. apply app_eq_nil in H. destruct H as [_ H].
  apply app_eq_nil in H. destruct H as [Hl Hm].
  split; [reflexivity|]. split.
  - intros Ht. rewrite Ht in Hl.
    destruct (truthy (validator_isValidLocation _)); [reflexivity|discriminate].
  - unfold Panel.well_formed_media, Panel.media_url, Panel.opt, Panel.nullish.
    destruct (truthy (get slide "media")) eqn:Em; cbn [andb] in Hm.
    + assert (Hn : (is_null (get slide "media") || is_undefined (get slide "media"))%bool = false)
        by (destruct (get slide "media"); cbn in *; try reflexivity; discriminate).
      rewrite Hn.
      destruct (truthy (get (get slide "media") "url")) eqn:Eu; [|reflexivity].
      destruct (isValidMediaUrl (get (get slide "media") "url")) eqn:Ev;
        [|discriminate].
      destruct (get (get slide "media") "url"); cbn in Ev; try discriminate.
      reflexivity.
    + assert (Hu : (if (is_null (get slide "media") || is_undefined (get slide "media"))%bool
                    then VUndefined else get (get slide "media") "url") = VUndefined)
        by (destruct (get slide "media"); cbn in *; try reflexivity; discriminate).
      rewrite Hu. reflexivity.
Qed.

(** X19. A slide [DataValidators.validateSlide] finds no fault with is
    one the content panel renders without an exception, on every page:
    its media URL is absent or a string. *)
Theorem validated_slide_renders slide index p :
  validateSlide slide index = [] ->
  returns (Panel.updateSlideContent slide p) = true /\
  Panel.isAnimating (after (Panel.updateSlideContent slide p)) = Panel.isAnimating p /\
  Panel.timers (after (Panel.updateSlideContent slide p)) = Panel.timers p.
Proof.
  intros H. destruct (validateSlide_ok slide index H) as (Ht & _ & Hw).
  assert (Hn : Panel.nullish slide = false)
    by (destruct slide; cbn in *; try reflexivity; discriminate).
  destruct (PanelFacts.updateSlideContent_well_formed slide p Hn (or_intror Hw))
    as [els ->].
  cbn. destruct (PanelFacts.titled_frame slide p) as (_ & _ & _ & _ & Hi & Hts).
  repeat split; assumption.
Qed.

(** ** A validated story initialises *)

Lemma validate_from_ok items : forall k,
  validate_from k items = [] ->
  Forall (fun slide => exists j, validateSlide slide j = []) items.
Proof.
  induction items as [|slide rest IH]; intros k H; [constructor|].
  cbn in H. apply app_eq_nil in H. destruct H as [H1 H2].
  constructor; [eauto|eapply IH; eauto].
Qed.

Lemma falsy_location_is_invalid location :
  truthy location = false -> valid location = false.
Proof.
  intros H. unfold valid, isValidLocation. rewrite H. exact H.
Qed.

Lemma find_valid_validated items (i : Init.Instance) :
  Forall (fun slide => exists j, validateSlide slide j = []) items ->
  Init.find_valid items i
  = Ret (List.find (fun slide => truthy (get slide "location")) items) i.
Proof.
  induction 1 as [|slide rest [j Hj] _ IH]; [reflexivity|].
  destruct (validateSlide_ok slide j Hj) as (Ht & Hl & _).
  cbn. unfold bind, Init.prop, Init.nullish.
  assert (Hn : (is_null slide || is_undefined slide)%bool = false)
    by (destruct slide; cbn in *; try reflexivity; discriminate).
  rewrite Hn. unfold ret.
  destruct (truthy (get slide "location")) eqn:El.
  - rewrite (validator_valid _ (Hl eq_refl)). reflexivity.
  - rewrite (falsy_location_is_invalid _ El). exact IH.
Qed.


(** ** Concrete slides *)

Lemma validated_locations_are_valid_witness :
  valid (get located "location") = true /\
  filterSlides [located; unlocated] (mkCriteria true false None) = Some [located].
Proof.
  split.
  - apply (proj1 validated_locations_are_valid). reflexivity.
  - reflexivity.
Defined.

Lemma rendered_media_is_valid_witness :
  isValidMediaUrl (VStr "https://www.youtube.com/watch?v=abc") = true.
Proof.
  apply (proj1 (rendered_media_is_valid "https://www.youtube.com/watch?v=abc")).
  reflexivity.
Defined.

Lemma validated_slide_renders_witness :
  returns (Panel.updateSlideContent located Panel.full_page) = true /\
  Panel.isAnimating (after (Panel.updateSlideContent located Panel.full_page))
  = false /\
  Panel.timers (after (Panel.updateSlideContent located Panel.full_page)) = [].
Proof.
  apply (validated_slide_renders located 0 Panel.full_page). reflexivity.
Defined.


End ValidatorFacts.

(* ===================================================================== *)
(** * Data providers: proofs                                              *)
(* ===================================================================== *)

Module LoaderFacts.
Import JS Eff Eff.Notations Loader.
Import Init (Promise, Fulfilled, Rejected).

Ltac unfold_l :=
  unfold try_catch, await, prop, bind, gets, modify, when, ret, throw in *.

Lemma truthy_get v k : truthy (get v k) = true -> exists fs, v = VObj fs.
Proof. destruct v; cbn; try discriminate. eauto. Qed.

Lemma truthy_not_nullish v : truthy v = true -> nullish v = false.
Proof. destruct v; cbn; try reflexivity; discriminate. Qed.

(** X21. Whenever [DataProviders.simple] returns slides, the built-in
    loader of the engine stores the same value for the same URL. The
    provider is the stricter of the two: on a response that is not [ok]
    it throws, while the engine reads the body all the same. *)
Theorem simple_agrees_with_builtin_loader {S : Type} fetch url (i : Init.Instance) :
  Init.dataLoader (Init.config i) = None ->
  Init.jsonUrl (Init.config i) = Some url -> url <> "" ->
  (forall (s s' : S) v,
     simple fetch url s = Ret v s' ->
     Init.loadStoryData (body_of fetch) i = Ret tt (Init.set_storyData v i)) /\
  (forall (s : S) r,
     fetch url = Fulfilled r -> ok r = false ->
     simple fetch url s = Throw (failed_to_load url (status r)) s /\
     Init.loadStoryData (body_of fetch) i
     = Init.loadStoryData (body_of (fun _ => Fulfilled (mkResponse true (status r) (json r)))) i).
Proof.
  intros Hd Hu Hne.
  assert (Hg : Init.given (Some url) = true).
  { unfold Init.given. destruct (String.eqb_spec url ""); [contradiction|reflexivity]. }
  split.
  - intros s s' v.
    unfold Init.loadStoryData. unfold bind at 1. unfold gets at 1.
    rewrite Hd, Hu, Hg. unfold body_of, simple.
    unfold bind, Init.await, Init.select_slides, Init.prop. unfold_l.
    destruct (fetch url) as [r|e]; [|discriminate].
    destruct (ok r); cbv beta iota delta [negb]; [|discriminate].
    destruct (json r) as [data|e]; [|discriminate].
    change (Init.nullish data) with (nullish data).
    destruct (nullish data) eqn:En; [discriminate|].
    destruct (truthy (get data "storymap")) eqn:Es; cbn [andb].
    + change (Init.nullish (get data "storymap"))
        with (nullish (get data "storymap")).
      rewrite (truthy_not_nullish _ Es).
      destruct (truthy (get (get data "storymap") "slides")).
      * intros H. inversion H; subst. reflexivity.
      * destruct (truthy (get data "slides"));
          [intros H; inversion H; subst; reflexivity|].
        destruct data; discriminate.
    + assert (Ea : truthy (if Init.nullish (get data "storymap") then VUndefined
                           else get (get data "storymap") "slides") = false).
      { destruct (get data "storymap"); cbn in *; try reflexivity; discriminate. }
      rewrite Ea.
      destruct (truthy (get data "slides"));
        [intros H; inversion H; subst; reflexivity|].
      destruct data; try discriminate. intros H. inversion H; subst. reflexivity.
  - intros s r Hf Hok. split.
    + unfold simple. unfold_l. rewrite Hf, Hok. reflexivity.
    + assert (E : forall f,
                Init.loadStoryData f i
                = bind (Init.await (f url))
                    (fun response => bind (Init.await response)
                    (fun data => bind (Init.select_slides data)
                    (fun slides => modify (Init.set_storyData slides)))) i).
      { intros f. unfold Init.loadStoryData. unfold bind at 1. unfold gets at 1.
        rewrite Hd, Hu, Hg. reflexivity. }
      rewrite !E. unfold body_of. rewrite Hf. reflexivity.
Qed.

(** ** MultilingualDataProvider *)

(** X22. [loadData] reports every failure and passes it on: when it
    throws, the error thrown is the one entry it has added to the console
    errors; when it returns, nothing was logged, the slides returned are
    the truthy [storyData] of the provider, taken from the document it
    stored, and the current language is the one asked for or ["en"]. *)
Theorem loadData_logs_and_rethrows fetch url defaultLanguage p :
  match loadData fetch url defaultLanguage p with
  | Ret v p' =>
      errors p' = errors p /\ storyData p' = v /\ truthy v = true /\
      (currentLanguage p' = requested defaultLanguage \/ currentLanguage p' = "en") /\
      languages p' = get (fullData p') "languages" /\
      v = get (get (get (get (fullData p') "storymaps") (currentLanguage p'))
                   "storymap") "slides"
  | Throw e p' => errors p' = errors p ++ [e]
  end.
Proof.
  destruct p as [cl ls sd fd dt pt nt rt ws es].
  unfold loadData, console_error, console_warn. unfold_l.
  destruct (fetch url) as [r|e]; [|reflexivity].
  destruct (ok r); cbv beta iota delta [negb]; [|reflexivity].
  destruct (json r) as [data|e]; [|reflexivity].
  cbn.
  destruct (nullish data); cbn; [reflexivity|].
  destruct (truthy (get data "languages")); cbn; [|reflexivity].
  destruct (truthy (get data "storymaps")); cbn; [|reflexivity].
  destruct (truthy (get (get data "languages") (requested defaultLanguage)));
    cbn.
  - destruct (truthy (get (get data "storymaps") (requested defaultLanguage)));
      cbn; [|reflexivity].
    destruct (truthy (get (get (get data "storymaps") (requested defaultLanguage))
                          "storymap")); cbn; [|reflexivity].
    destruct (truthy (get (get (get (get data "storymaps")
                (requested defaultLanguage)) "storymap") "slides")) eqn:Es;
      cbn; [|reflexivity].
    destruct (nullish (get (get data "languages") (requested defaultLanguage)));
      cbn; [reflexivity|].
    destruct (truthy (get (get (get data "languages") (requested defaultLanguage))
                          "title")); cbn; repeat split; auto.
  - destruct (truthy (get (get data "storymaps") "en")); cbn; [|reflexivity].
    destruct (truthy (get (get (get data "storymaps") "en") "storymap"));
      cbn; [|reflexivity].
    destruct (truthy (get (get (get (get data "storymaps") "en") "storymap")
                          "slides")) eqn:Es; cbn; [|reflexivity].
    destruct (nullish (get (get data "languages") "en")); cbn; [reflexivity|].
    destruct (truthy (get (get (get data "languages") "en") "title")); cbn;
      repeat split; auto.
Qed.

(** The language [loadData] settles on. *)
Lemma truthy_chain v k : truthy (get v k) = true -> truthy v = true.
Proof. destruct v; cbn; try discriminate. reflexivity. Qed.


(** X24. A document without a [languages] property makes [loadData] fail
    with the structure error, yet the provider keeps the document; from
    then on [switchLanguage] throws a TypeError for every language, where
    a provider that has loaded nothing returns [null]. *)
Theorem load_without_languages_breaks_switching fetch url defaultLanguage p r data :
  fetch url = Fulfilled r -> ok r = true -> json r = Fulfilled data ->
  truthy data = true -> get data "languages" = VUndefined ->
  exists p',
    loadData fetch url defaultLanguage p = Throw invalid_multilingual p' /\
    fullData p' = data /\ storyData p' = storyData p /\
    currentLanguage p' = currentLanguage p /\
    (forall language, switchLanguage language p' = Throw TypeError p') /\
    (fullData p = VNull ->
     forall language, returns (switchLanguage language p) = true).
Proof.
  intros Hf Hok Hj Ht Hl.
  destruct p as [cl ls sd fd dt pt nt rt ws es].
  unfold loadData, console_error, console_warn. unfold_l.
  rewrite Hf, Hok. cbv beta iota delta [negb]. rewrite Hj.
  rewrite (truthy_not_nullish _ Ht). rewrite Hl. cbn.
  eexists. split; [reflexivity|]. cbn. repeat split.
  - intros language. unfold switchLanguage. unfold_l. cbn. rewrite Ht, Hl. reflexivity.
  - intros -> language. reflexivity.
Qed.


(** ** Concrete documents *)

Lemma simple_agrees_with_builtin_loader_witness :
  Init.loadStoryData (body_of (serving (VObj [("slides", VArr [VNull])])))
                     (Init.fresh Init.from_url)
  = Ret tt (Init.set_storyData (VArr [VNull]) (Init.fresh Init.from_url)).
Proof.
  apply (proj1 (@simple_agrees_with_builtin_loader unit
                  (serving (VObj [("slides", VArr [VNull])])) "story.json"
                  (Init.fresh Init.from_url) eq_refl eq_refl
                  ltac:(discriminate)) tt tt (VArr [VNull])).
  reflexivity.
Defined.


Lemma load_without_languages_breaks_switching_witness :
  exists p',
    loadData (serving unlisted) "story.json" None on_page
    = Throw invalid_multilingual p' /\
    switchLanguage "en" p' = Throw TypeError p' /\
    returns (switchLanguage "en" on_page) = true.
Proof.
  destruct (load_without_languages_breaks_switching (serving unlisted) "story.json"
              None on_page (mkResponse true "200" (Fulfilled unlisted)) unlisted
              eq_refl eq_refl eq_refl eq_refl eq_refl)
    as (p' & H1 & _ & _ & _ & H2 & H3).
  exists p'. split; [exact H1|]. split; [apply H2|apply H3; reflexivity].
Defined.


End LoaderFacts.

(* ===================================================================== *)
(** * Configuration: proofs                                               *)
(* ===================================================================== *)

Module ConfigFacts.
Import JS Config.

Lemma lookup_absent k o : has k o = false -> lookup k o = VUndefined.
Proof.
  induction o as [|[k' v] o IH]; cbn; [reflexivity|].
  destruct (String.eqb k k'); cbn; [discriminate|exact IH].
Qed.

Lemma lookup_app k o1 o2 :
  lookup k (o1 ++ o2) = if has k o1 then lookup k o1 else lookup k o2.
Proof.
  induction o1 as [|[k' v] o1 IH]; cbn; [reflexivity|].
  destruct (String.eqb k k'); cbn; [reflexivity|exact IH].
Qed.

Lemma has_map k (f : string * Value -> Value) o :
  has k (List.map (fun kv => (fst kv, f kv)) o) = has k o.
Proof.
  induction o as [|[k' v] o IH]; cbn; [reflexivity|]. rewrite IH. reflexivity.
Qed.

Lemma lookup_fresh k src : forall seen,
  lookup k (fresh seen src) = if has k seen then VUndefined else lookup k src.
Proof.
  induction src as [|[k' v] src IH]; intros seen; cbn.
  - destruct (has k seen); reflexivity.
  - destruct (has k' seen) eqn:Hs.
    + rewrite IH. destruct (String.eqb_spec k k') as [->|Hne].
      * rewrite Hs. reflexivity.
      * reflexivity.
    + cbn. rewrite IH. cbn.
      destruct (String.eqb_spec k k') as [->|Hne]; cbn.
      * rewrite Hs. reflexivity.
      * reflexivity.
Qed.

Lemma has_fresh k src : forall seen,
  has k (fresh seen src) = (negb (has k seen) && has k src)%bool.
Proof.
  induction src as [|[k' v] src IH]; intros seen; cbn.
  - rewrite andb_false_r. reflexivity.
  - destruct (has k' seen) eqn:Hs.
    + rewrite IH. destruct (String.eqb_spec k k') as [->|Hne]; cbn.
      * rewrite Hs. reflexivity.
      * reflexivity.
    + cbn. rewrite IH. cbn.
      destruct (String.eqb_spec k k') as [->|Hne]; cbn.
      * rewrite Hs. reflexivity.
      * reflexivity.
Qed.

Lemma lookup_override k src target :
  has k target = true ->
  lookup k (List.map (fun kv => (fst kv, if has (fst kv) src
                                         then lookup (fst kv) src else snd kv))
                     target)
  = if has k src then lookup k src else lookup k target.
Proof.
  induction target as [|[k' v] target IH]; cbn; [discriminate|].
  destruct (String.eqb_spec k k') as [->|Hne]; cbn; [reflexivity|exact IH].
Qed.

(** A property of a spread is the one of the source, if the source has
    it, and the one of the target otherwise. *)
Lemma lookup_spread k target source :
  lookup k (spread target source)
  = if has k (own source) then lookup k (own source) else lookup k target.
Proof.
  unfold spread. rewrite lookup_app, has_map, lookup_fresh.
  destruct (has k target) eqn:Ht.
  - apply lookup_override. exact Ht.
  - rewrite (lookup_absent _ _ Ht).
    destruct (has k (own source)) eqn:Hs; [reflexivity|].
    apply lookup_absent. exact Hs.
Qed.

Lemma absent_is_undefined v k : has k (own v) = false -> opt v k = VUndefined.
Proof.
  unfold opt. destruct (nullish v); [reflexivity|].
  destruct v; cbn; try reflexivity. apply lookup_absent.
Qed.

Lemma lookup_defaulted styling k o :
  opt styling k = VUndefined ->
  lookup k (List.map (fun kv => (fst kv, or_else (opt styling (fst kv)) (snd kv))) o)
  = lookup k o.
Proof.
  intros H. induction o as [|[k' v] o IH]; cbn; [reflexivity|].
  destruct (String.eqb_spec k k') as [->|Hne]; [|exact IH].
  rewrite H. reflexivity.
Qed.

(** X26. The constructor lets every own property of [config.features]
    and of [config.styling] through unchanged and fills in its default
    only for a property that is absent: the tests [!== false] and [||]
    it applies first decide nothing. So animations are off exactly when
    [config.features] has an own property [animations] that is falsy
    ([null] and 0 as well as [false]), and a marker radius of 0 stays 0. *)
Theorem explicit_settings_override_defaults :
  (forall features k,
     lookup k (features_of features)
     = if has k (own features) then lookup k (own features)
       else if is_flag k then VBool true else VUndefined) /\
  (forall features,
     Core.animations (flags (features_of features))
     = if has "animations" (own features)
       then truthy (lookup "animations" (own features)) else true) /\
  (forall styling k,
     lookup k (styling_of styling)
     = if has k (own styling) then lookup k (own styling)
       else lookup k styling_defaults).
Proof.
  assert (F : forall features k,
     lookup k (features_of features)
     = if has k (own features) then lookup k (own features)
       else if is_flag k then VBool true else VUndefined).
  { intros features k. unfold features_of. rewrite lookup_spread.
    destruct (has k (own features)) eqn:Hk; [reflexivity|].
    unfold is_flag. cbn.
    destruct (String.eqb_spec k "animations") as [->|];
      [rewrite (absent_is_undefined _ _ Hk); reflexivity|].
    destruct (String.eqb_spec k "keyboardNavigation") as [->|];
      [rewrite (absent_is_undefined _ _ Hk); reflexivity|].
    destruct (String.eqb_spec k "progressBar") as [->|];
      [rewrite (absent_is_undefined _ _ Hk); reflexivity|].
    reflexivity. }
  split; [exact F|]. split.
  - intros features. unfold flags. cbn [Core.animations]. rewrite F.
    destruct (has "animations" (own features)); reflexivity.
  - intros styling k. unfold styling_of. rewrite lookup_spread.
    destruct (has k (own styling)) eqn:Hk; [reflexivity|].
    apply lookup_defaulted. apply absent_is_undefined. exact Hk.
Qed.

(** X27. [updateConfig] merges one level deep: a property of the new
    configuration replaces the whole property of the old one, so a new
    [features] object is taken as it is, without the defaults of the
    constructor, and a flag it leaves out reads as off; every other
    property stays, and [getConfig] returns them all unchanged. *)
Theorem updateConfig_is_shallow :
  (forall newConfig config k,
     lookup k (updateConfig newConfig config)
     = if has k (own newConfig) then lookup k (own newConfig)
       else lookup k config) /\
  (forall config k, lookup k (getConfig config) = lookup k config) /\
  (forall config features,
     get (lookup "features" (updateConfig (VObj [("features", VObj features)]) config))
         "keyboardNavigation"
     = lookup "keyboardNavigation" features).
Proof.
  assert (G : forall config k, lookup k (getConfig config) = lookup k config).
  { intros config k. unfold getConfig. rewrite lookup_spread. cbn.
    destruct (has k config) eqn:H; [reflexivity|].
    symmetry. apply lookup_absent. exact H. }
  assert (U : forall newConfig config k,
     lookup k (updateConfig newConfig config)
     = if has k (own newConfig) then lookup k (own newConfig)
       else lookup k config).
  { intros newConfig config k. unfold updateConfig. rewrite lookup_spread.
    destruct (has k (own newConfig)); [reflexivity|]. apply G. }
  split; [exact U|]. split; [exact G|].
  intros config features. rewrite U. reflexivity.
Qed.

End ConfigFacts.

(* ===================================================================== *)
(** * The example application: proofs                                     *)
(* ===================================================================== *)

Module AryaFacts.
Import JS Geo Eff Eff.Notations Core CoreFacts.

Lemma arya_moveMarkerToInactive i s m :
  map s = Some m -> Arya.moveMarkerToInactive i s = moveMarkerToInactive i s.
Proof.
  intros Hm. unfold Arya.moveMarkerToInactive, Arya.the_map, moveMarkerToInactive.
  unfold bind, gets, ret. rewrite Hm. reflexivity.
Qed.

Lemma arya_moveMarkerToActive i s m sd :
  map s = Some m -> storyData s = Some sd ->
  Arya.moveMarkerToActive i s = moveMarkerToActive i s.
Proof.
  intros Hm Hsd. unfold Arya.moveMarkerToActive, Arya.the_map, moveMarkerToActive.
  unfold bind, gets, ret. rewrite Hm, Hsd. reflexivity.
Qed.

(** The test of the location the library adds before it activates the
    marker of the current slide. *)
Lemma guarded_activation s sd :
  storyData s = Some sd ->
  0 <= currentSlideIndex s < Z.of_nat (List.length sd) ->
  (forall z, In z (inactiveSet s) -> valid_at sd z = true) ->
  bind (storyData_at (currentSlideIndex s))
       (fun slide => bind (deref slide)
          (fun sl => when (valid (location sl))
                          (moveMarkerToActive (currentSlideIndex s)))) s
  = moveMarkerToActive (currentSlideIndex s) s.
Proof.
  intros Hsd Hcur Hv. destruct (nth_slide_some sd _ Hcur) as [sl Hsl].
  unfold storyData_at, deref. unfold bind at 1 2 3. unfold gets at 1.
  rewrite Hsd. unfold ret at 1. rewrite Hsl. unfold ret at 1.
  destruct (valid (location sl)) eqn:E; [reflexivity|].
  cbn [when]. symmetry. apply ViewFacts.moveMarkerToActive_absent.
  intros Hin. apply Hv in Hin. unfold valid_at in Hin. rewrite Hsl in Hin.
  congruence.
Qed.

Lemma library_unfold s m :
  map s = Some m ->
  updateMarkerColors s
  = bind (match Arya.previous_of m with
          | Some p => when (negb (p =? currentSlideIndex s)) (moveMarkerToInactive p)
          | None => ret tt
          end)
      (fun _ =>
         if differs (Arya.previous_of m) (currentSlideIndex s) then
           bind (storyData_at (currentSlideIndex s))
             (fun slide => bind (deref slide)
                (fun sl => when (valid (location sl))
                                (moveMarkerToActive (currentSlideIndex s))))
         else ret tt) s.
Proof.
  intros Hm. unfold updateMarkerColors, getPreviouslyActiveMarkerIndex, Arya.previous_of.
  unfold bind at 1. unfold gets at 1. rewrite Hm.
  unfold bind at 1 2. unfold gets at 1. rewrite Hm.
  destruct (active_marker m) as [[|f rest]|]; reflexivity.
Qed.

Lemma example_unfold s m :
  map s = Some m ->
  Arya.updateMarkerColors s
  = bind (match Arya.previous_of m with
          | Some p => when (negb (p =? currentSlideIndex s)) (Arya.moveMarkerToInactive p)
          | None => ret tt
          end)
      (fun _ =>
         if differs (Arya.previous_of m) (currentSlideIndex s)
         then Arya.moveMarkerToActive (currentSlideIndex s)
         else ret tt) s.
Proof.
  intros Hm.
  unfold Arya.updateMarkerColors, Arya.getPreviouslyActiveMarkerIndex,
    Arya.the_map, Arya.previous_of.
  unfold bind at 1 2 3. unfold gets at 1. rewrite Hm. unfold ret at 1.
  destruct (active_marker m) as [[|f rest]|]; reflexivity.
Qed.

(** The state once the active marker went back to the inactive source. *)
Lemma deactivated s m f rest :
  map s = Some m -> active_marker m = Some (f :: rest) ->
  exists s1 m1,
    moveMarkerToInactive (slideIndex f) s = Ret tt s1 /\
    map s1 = Some m1 /\ storyData s1 = storyData s /\
    currentSlideIndex s1 = currentSlideIndex s /\
    (forall z, In z (inactiveSet s1) -> In z (inactiveSet s) \/ z = slideIndex f).
Proof.
  intros Hm Ha.
  destruct s as [ft sd cur an m0 ls d ts]; cbn in Hm; subst m0.
  destruct m as [ia ac ll fl ld]; cbn in Ha; subst ac.
  unfold moveMarkerToInactive, bind, gets, on_map, modify, inactiveSet. cbn.
  destruct ia as [fs|]; cbn; do 2 eexists; (split; [reflexivity|]); cbn;
    repeat split; try reflexivity.
  - intros z Hz. unfold indices in Hz. rewrite map_app in Hz.
    apply in_app_or in Hz. destruct Hz as [Hz|[Hz|[]]]; [left; exact Hz|right].
    cbn in Hz. congruence.
  - intros z [].
Qed.

(** X28. On a state with a map and a story, the index in range and every
    marker on a slide with a valid location, [updateMarkerColors] of the
    example application and of the library do the same: the test of the
    location the library adds before it activates a marker never changes
    the outcome, since a slide without a valid location has no marker to
    activate. *)
Theorem example_and_library_agree_on_markers s sd m :
  storyData s = Some sd -> map s = Some m ->
  0 <= currentSlideIndex s < Z.of_nat (List.length sd) ->
  (forall z, In z (inactiveSet s) \/ In z (activeSet s) -> valid_at sd z = true) ->
  Arya.updateMarkerColors s = updateMarkerColors s.
Proof.
  intros Hsd Hm Hcur Hv.
  rewrite (library_unfold s m Hm), (example_unfold s m Hm).
  unfold Arya.previous_of.
  destruct (active_marker m) as [[|f rest]|] eqn:Ha.
  - unfold bind at 1 3. unfold ret at 1 3. cbn [differs].
    rewrite (arya_moveMarkerToActive _ s m sd Hm Hsd).
    symmetry. apply (guarded_activation s sd); auto.
  - cbn [differs]. destruct (slideIndex f =? currentSlideIndex s) eqn:E; cbn [negb when].
    + reflexivity.
    + destruct (deactivated s m f rest Hm Ha) as (s1 & m1 & E1 & Hm1 & Hs1 & Hc1 & Hi1).
      rewrite Hsd in Hs1.
      unfold bind at 1. rewrite (arya_moveMarkerToInactive _ s m Hm), E1.
      unfold bind at 1. rewrite E1. rewrite <- Hc1.
      rewrite (arya_moveMarkerToActive _ s1 m1 sd Hm1 Hs1).
      symmetry. apply (guarded_activation s1 sd); [exact Hs1|rewrite Hc1; exact Hcur|].
      intros z Hz. destruct (Hi1 z Hz) as [H|H].
      * apply Hv. left. exact H.
      * subst z. apply Hv. right. unfold activeSet. rewrite Hm, Ha.
        left. reflexivity.
  - unfold bind at 1 3. unfold ret at 1 3. cbn [differs].
    rewrite (arya_moveMarkerToActive _ s m sd Hm Hsd).
    symmetry. apply (guarded_activation s sd); auto.
Qed.

(** ** Media *)

Lemma lowercase_eqb a b :
  String.eqb a b = true -> String.eqb (Panel.lowercase a) (Panel.lowercase b) = true.
Proof.
  intros H. apply String.eqb_eq in H. subst b. apply String.eqb_refl.
Qed.

Lemma endsWith_lowercase suf s :
  Panel.endsWith suf s = true ->
  Panel.endsWith (Panel.lowercase suf) (Panel.lowercase s) = true.
Proof.
  induction s as [|c r IH]; cbn [Panel.endsWith Panel.lowercase].
  - rewrite !orb_false_r. intros H. apply String.eqb_eq in H. subst suf.
    reflexivity.
  - intros H. apply orb_true_iff in H. destruct H as [H|H].
    + apply String.eqb_eq in H. subst suf. cbn [Panel.lowercase].
      rewrite String.eqb_refl. reflexivity.
    + rewrite (IH H). apply orb_true_r.
Qed.

Lemma example_picture_is_a_picture u :
  (Panel.endsWith ".jpg" u || Panel.endsWith ".png" u)%bool = true ->
  Panel.image_pattern u = true.
Proof.
  intros H. unfold Panel.image_pattern. apply orb_true_iff in H.
  destruct H as [H|H]; apply endsWith_lowercase in H; cbn [Panel.lowercase] in H;
    change (Panel.fold_case "."%char) with "."%char in H.
  - change (String "." (String (Panel.fold_case "j") (String (Panel.fold_case "p")
             (String (Panel.fold_case "g") EmptyString)))) with ".jpg" in H.
    rewrite H. reflexivity.
  - change (String "." (String (Panel.fold_case "p") (String (Panel.fold_case "n")
             (String (Panel.fold_case "g") EmptyString)))) with ".png" in H.
    rewrite H. rewrite !orb_true_r. reflexivity.
Qed.

(** X29. Whatever media element the example application puts into the
    media container, the library puts first into it: the same iframe for
    a YouTube link, the same image for a picture the example recognises
    by [endsWith]; the library may add a caption after it. *)
Theorem library_renders_what_the_example_renders slide p els e :
  Panel.media p = Some els ->
  Panel.media (after (Arya.updateMedia slide p)) = Some [e] ->
  exists rest,
    Panel.media (after (Panel.updateMedia slide p)) = Some (e :: rest).
Proof.
  intros Hm.
  unfold Arya.updateMedia. unfold bind at 1. unfold gets at 1. rewrite Hm.
  unfold bind at 1. unfold modify at 1. unfold Panel.prop.
  destruct (Panel.nullish slide) eqn:Hn.
  { destruct p; cbn. discriminate. }
  rewrite (PanelFacts.updateMedia_unfold slide p els Hn Hm).
  unfold Panel.media_url, Panel.opt.
  unfold bind at 1. unfold ret at 1.
  destruct (truthy (get slide "media")) eqn:Et; cbn [andb].
  - assert (Hnm : Panel.nullish (get slide "media") = false)
      by (destruct (get slide "media"); cbn in *; try reflexivity; discriminate).
    rewrite Hnm.
    destruct (truthy (get (get slide "media") "url")) eqn:Eu;
      [|destruct p; cbn; discriminate].
    destruct (get (get slide "media") "url") as [| |b|n|u|items|fs];
      try (destruct p; cbn; discriminate).
    destruct (Panel.includes "youtube.com" u).
    + destruct p as [h t m sc cw an ia ts].
      unfold Panel.embedYouTube, Panel.append_caption, Panel.appendChild.
      unfold bind, modify, when, ret. cbn. intros H. injection H as <-.
      destruct (truthy (get (get slide "media") "caption")); cbn; eauto.
    + destruct (Panel.endsWith ".jpg" u || Panel.endsWith ".png" u)%bool eqn:Ep;
        [|destruct p; cbn; discriminate].
      rewrite (example_picture_is_a_picture u Ep).
      destruct p as [h t m sc cw an ia ts].
      unfold Panel.embedImage, Panel.append_caption, Panel.appendChild.
      unfold bind, modify, when, ret. cbn. intros H. injection H as <-.
      destruct (truthy (get (get slide "media") "caption")); cbn; eauto.
  - destruct p; cbn; discriminate.
Qed.

(** ** Concrete states *)

Import Demo.

Lemma example_and_library_agree_on_markers_witness :
  Arya.updateMarkerColors (set_currentSlideIndex 2 handmade)
  = updateMarkerColors (set_currentSlideIndex 2 handmade).
Proof.
  apply (example_and_library_agree_on_markers (set_currentSlideIndex 2 handmade)
           storyA handmade_map); [reflexivity|reflexivity|cbn; lia|].
  cbn. intros z [[H|[H|[]]]|[H|[]]]; subst z; reflexivity.
Defined.

Lemma library_renders_what_the_example_renders_witness :
  exists rest,
    Panel.media (after (Panel.updateMedia Panel.snapshot Panel.full_page))
    = Some (Panel.Img "rome.jpg" (VStr "Forum") :: rest).
Proof.
  apply (library_renders_what_the_example_renders Panel.snapshot Panel.full_page []);
    reflexivity.
Defined.

End AryaFacts.
